(** * applytrack: the record reconciliation engine

    A shallow embedding of [app/services/manage_process_results.py]: the
    normalisers ([clean_str], [company_key], [role_key]), the grouping
    loop, the per-group merge and the final ordering of
    [dedupe_and_merge_results], with the properties the specification
    states about them.

    Conventions of the embedding.
    - Python text is a [string] whose characters are read as the code
      points U+0000..U+00FF.  Whitespace ([str.strip], [str.split]) and
      [str.lower] are the Unicode ones restricted to that range.
    - A value of type [Any] is a [pyval].
    - A [Dict[str, Any]] is a [gmap string pyval]; the input dicts live in
      a heap and the input list is a list of references into it, because
      the function writes into them.
    - [print] and [input] act on the console part of the [world]. *)

From Stdlib Require Import ZArith Lia Ascii String.
From stdpp Require Import base tactics option list gmap strings pretty sorting.

Local Open Scope string_scope.
Local Open Scope Z_scope.
Local Open Scope list_scope.

(** * The program *)

(** ** Text *)

Module PyStr.

(** [str.isspace] on one code point below U+0100: TAB..CR, FS..US, SPACE,
    NEL and NBSP. *)
Definition is_space (c : ascii) : bool :=
  let n := N_of_ascii c in
  ((9 <=? n) && (n <=? 13) || (28 <=? n) && (n <=? 32)
   || (n =? 133) || (n =? 160))%N.

(** [str.lower] on one code point below U+0100: A..Z and the Latin-1
    capitals U+00C0..U+00DE except the multiplication sign U+00D7. *)
Definition lower_char (c : ascii) : ascii :=
  let n := N_of_ascii c in
  if ((65 <=? n) && (n <=? 90)
      || (192 <=? n) && (n <=? 222) && negb (n =? 215))%N
  then ascii_of_N (n + 32) else c.

Fixpoint lower (s : string) : string :=
  match s with
  | EmptyString => EmptyString
  | String c r => String (lower_char c) (lower r)
  end.

Definition is_empty (s : string) : bool :=
  match s with EmptyString => true | String _ _ => false end.

(** No character of the text is changed by [lower]. *)
Fixpoint is_lowered (s : string) : bool :=
  match s with
  | EmptyString => true
  | String c r => Ascii.eqb (lower_char c) c && is_lowered r
  end.

Fixpoint lstrip (s : string) : string :=
  match s with
  | EmptyString => EmptyString
  | String c r => if is_space c then lstrip r else s
  end.

Fixpoint rstrip (s : string) : string :=
  match s with
  | EmptyString => EmptyString
  | String c r =>
      let r' := rstrip r in
      if is_space c && is_empty r' then EmptyString else String c r'
  end.

(** [s.strip()] *)
Definition strip (s : string) : string := rstrip (lstrip s).

(** [s.split()]: the maximal runs of non-whitespace characters. *)
Fixpoint split (s : string) : list string :=
  match s with
  | EmptyString => []
  | String c r =>
      if is_space c then split r
      else match r with
           | EmptyString => [String c EmptyString]
           | String c' _ =>
               if is_space c' then String c EmptyString :: split r
               else match split r with
                    | w :: ws => String c w :: ws
                    | [] => [String c EmptyString]
                    end
           end
  end.

(** [sep.join(parts)] *)
Fixpoint join (sep : string) (parts : list string) : string :=
  match parts with
  | [] => EmptyString
  | [p] => p
  | p :: ps => p +:+ sep +:+ join sep ps
  end.

Definition first_char (s : string) : option ascii :=
  match s with EmptyString => None | String c _ => Some c end.

Fixpoint last_char (s : string) : option ascii :=
  match s with
  | EmptyString => None
  | String c EmptyString => Some c
  | String _ r => last_char r
  end.

(** A text that [strip] would leave alone: neither end is whitespace. *)
Definition trimmed (s : string) : Prop :=
  (forall c, first_char s = Some c -> is_space c = false) /\
  (forall c, last_char s = Some c -> is_space c = false).

End PyStr.

(** ** Timestamps *)

(** A naive [datetime.datetime]. *)
Record datetime := mk_datetime {
  year : Z; month : Z; day : Z;
  hour : Z; minute : Z; second : Z; microsecond : Z
}.

#[global] Instance datetime_eq_dec : EqDecision datetime.
Proof. solve_decision. Defined.

(** [datetime.min] *)
Definition datetime_min : datetime := mk_datetime 1 1 1 0 0 0 0.

Definition dt_fields (d : datetime) : list Z :=
  [year d; month d; day d; hour d; minute d; second d; microsecond d].

(** Lexicographic [<] on field tuples, as [datetime.__lt__] compares. *)
Fixpoint lex_lt (a b : list Z) : bool :=
  match a, b with
  | x :: a', y :: b' => (x <? y) || ((x =? y) && lex_lt a' b')
  | [], _ :: _ => true
  | _, [] => false
  end.

Definition datetime_lt (a b : datetime) : bool :=
  lex_lt (dt_fields a) (dt_fields b).

(** ** Values *)

Module Fmt.

Definition digit (n : Z) : ascii := ascii_of_N (48 + Z.to_N (n mod 10)).

(** [%02d] *)
Definition pad2 (n : Z) : string :=
  String (digit (n / 10)) (String (digit n) EmptyString).

(** [%04d] *)
Definition pad4 (n : Z) : string :=
  String (digit (n / 1000)) (String (digit (n / 100))
    (String (digit (n / 10)) (String (digit n) EmptyString))).

(** [%06d] *)
Definition pad6 (n : Z) : string :=
  String (digit (n / 100000)) (String (digit (n / 10000)) (pad4 n)).

(** A year in decimal without padding: one digit below 10, two below 100,
    three below 1000, and four from there on. The year of a [datetime] is
    one of 1 to 9999. *)
Definition unpadded (n : Z) : string :=
  if n <? 10 then String (digit n) EmptyString
  else if n <? 100 then pad2 n
  else if n <? 1000 then String (digit (n / 100)) (pad2 n)
  else pad4 n.

End Fmt.

(** [str(dt)] for a naive datetime: ISO format with a space separator, the
    microseconds shown only when they are not zero. *)
Definition str_datetime (d : datetime) : string :=
  Fmt.pad4 (year d) +:+ "-" +:+ Fmt.pad2 (month d) +:+ "-" +:+ Fmt.pad2 (day d)
  +:+ " " +:+ Fmt.pad2 (hour d) +:+ ":" +:+ Fmt.pad2 (minute d) +:+ ":"
  +:+ Fmt.pad2 (second d)
  +:+ (if microsecond d =? 0 then EmptyString
       else "." +:+ Fmt.pad6 (microsecond d)).

(** A Python value as the engine can meet it in a dict: [None], a [str], a
    [datetime], or any other object, of which only the text that [str()]
    gives for it is observed. *)
Inductive pyval :=
| VNone
| VStr (s : string)
| VDatetime (d : datetime)
| VOther (repr : string).

#[global] Instance pyval_eq_dec : EqDecision pyval.
Proof. solve_decision. Defined.

(** [str(value)] *)
Definition py_str (v : pyval) : string :=
  match v with
  | VNone => "None"
  | VStr s => s
  | VDatetime d => str_datetime d
  | VOther r => r
  end.

(** [isinstance(value, datetime)] *)
Definition is_datetime (v : pyval) : bool :=
  match v with VDatetime _ => true | _ => false end.

(** An [Optional[str]] stored as a value. *)
Definition of_opt (o : option string) : pyval :=
  match o with Some s => VStr s | None => VNone end.

(** ** Normalisers *)

(** [text or None] *)
Definition or_none (text : string) : option string :=
  if PyStr.is_empty text then None else Some text.

Definition clean_str (value : pyval) : option string :=
  match value with
  | VNone => None
  | _ => let text := PyStr.strip (py_str value) in or_none text
  end.

(** ** Field names and formats: [app.constants.result_fields] *)

Module R.

(** The keys of an extraction result, as the docstring of
    [extract_fields_from_email] lists them. *)
Definition EMPLOYER_NAME : string := "employer_name".
Definition CONTACT_PERSON : string := "contact_person".
Definition APPLIED_POSITION : string := "applied_position".
Definition POSTAL_ADDRESS : string := "postal_address".
Definition RESULT : string := "result".
Definition RECEIVED_DATETIME : string := "received_datetime".

(** Modelled from the spec: the constants module is not among the sources;
    the name of the output field is the one of the specification's data
    model. *)
Definition FIRST_CONTACT_DATE : string := "first_contact_date".

(** Modelled from the spec: [DATE_FORMAT] is day.month.year, zero-padded
    (the tests expect "06.01.2026" for 6 January 2026), that is
    "%d.%m.%Y"; [strftime] and [strptime] below are the two directions of
    that one format. *)
Definition DATE_FORMAT : string := "%d.%m.%Y".

End R.

(** ** Dicts, references and the world *)

Abbreviation dict := (gmap string pyval).
Abbreviation loc := nat.
Abbreviation heap := (gmap nat (gmap string pyval)).

(** [entry.get(key)] *)
Definition dict_get (entry : dict) (key : string) : pyval :=
  default VNone (entry !! key).

(** The dict a reference points to. The references of an input list point
    into the heap; one that does not reads as the empty dict and is not
    written. *)
Definition deref (h : heap) (l : loc) : dict := default ∅ (h !! l).

Inductive exn := EOFError | IndexError | ValueError.

Inductive result (A : Type) :=
| Ok (a : A)
| Raise (e : exn).
Arguments Ok {A} a.
Arguments Raise {A} e.

Record world := mk_world {
  w_heap : heap;
  w_stdin : list string;   (* the lines still to be read *)
  w_stdout : list string   (* what was written, oldest first *)
}.

(** A computation that may write into the input dicts, use the console,
    and raise. *)
Definition M (A : Type) : Type := world -> result A * world.

#[global] Instance M_ret : MRet M := fun A a w => (Ok a, w).
#[global] Instance M_bind : MBind M := fun A B f m w =>
  match m w with
  | (Ok a, w') => f a w'
  | (Raise e, w') => (Raise e, w')
  end.

Definition raise {A} (e : exn) : M A := fun w => (Raise e, w).

Definition read_heap : M heap := fun w => (Ok (w_heap w), w).

(** [obj[key] = value] on the dict behind a reference *)
Definition store (l : loc) (key : string) (value : pyval) : M unit := fun w =>
  (Ok tt, mk_world (alter (insert key value) l (w_heap w)) (w_stdin w) (w_stdout w)).

Definition newline : string := String (ascii_of_N 10) EmptyString.

(** [print(text)] *)
Definition print (text : string) : M unit := fun w =>
  (Ok tt, mk_world (w_heap w) (w_stdin w) (w_stdout w ++ [text +:+ newline])).

(** [input(prompt)]: writes the prompt, then reads one line. *)
Definition input (prompt : string) : M string := fun w =>
  let out := w_stdout w ++ [prompt] in
  match w_stdin w with
  | [] => (Raise EOFError, mk_world (w_heap w) [] out)
  | line :: rest => (Ok line, mk_world (w_heap w) rest out)
  end.

#[global] Instance result_ret : MRet result := fun A a => Ok a.
#[global] Instance result_bind : MBind result := fun A B f m =>
  match m with
  | Ok a => f a
  | Raise e => Raise e
  end.

(** A computation without effects, run inside [M]. *)
Definition lift {A} (r : result A) : M A := fun w => (r, w).

(** The key of every element, in order; the first key that raises ends it. *)
Fixpoint for_keys {A K} (key : A -> result K) (xs : list A) : result (list K) :=
  match xs with
  | [] => Ok []
  | x :: rest => k ← key x; ks ← for_keys key rest; Ok (k :: ks)
  end.

(** [for x in xs: body(x)] *)
Fixpoint for_each {A} (body : A -> M unit) (xs : list A) : M unit :=
  match xs with
  | [] => mret tt
  | x :: rest => body x ;; for_each body rest
  end.

(** [out = []; for x in xs: out.append(body(x))] *)
Fixpoint for_collect {A B} (body : A -> M B) (xs : list A) : M (list B) :=
  match xs with
  | [] => mret []
  | x :: rest => y ← body x; ys ← for_collect body rest; mret (y :: ys)
  end.

(** [for x in xs: v = f(x); if v is not None: return v] and [return None]
    after the loop. *)
Fixpoint first_some {A B} (f : A -> option B) (xs : list A) : option B :=
  match xs with
  | [] => None
  | x :: rest => match f x with Some v => Some v | None => first_some f rest end
  end.

(** ** Stable sorting *)

Section StableSort.
Context {A : Type}.
(** [prec y x]: [y] has to come strictly before [x]. *)
Variable prec : A -> A -> bool.

Fixpoint insert_stable (x : A) (s : list A) : list A :=
  match s with
  | [] => [x]
  | y :: r => if prec y x then y :: insert_stable x r else x :: s
  end.

Fixpoint stable_sort (l : list A) : list A :=
  match l with
  | [] => []
  | x :: r => insert_stable x (stable_sort r)
  end.
End StableSort.

(** [sorted(l, key=key, reverse=reverse)]: the stable sort by [key], equal
    keys keeping their order in [l] also when [reverse] is set. *)
Definition py_sorted {A K} (lt : K -> K -> bool) (key : A -> K)
    (reverse : bool) (l : list A) : list A :=
  stable_sort
    (fun y x => if reverse then lt (key x) (key y) else lt (key y) (key x)) l.

(** ** Dates in [DATE_FORMAT] *)

(** [dt.strftime(DATE_FORMAT)]. [%d] and [%m] are written with two
    digits. [%Y] is written by the C library, which on Linux gives the
    year in decimal without padding: four digits from the year 1000 on,
    fewer below, as in "06.05.999". [strptime] reads four digits only. *)
Definition strftime_date (d : datetime) : string :=
  Fmt.pad2 (day d) +:+ "." +:+ Fmt.pad2 (month d) +:+ "." +:+
  Fmt.unpadded (year d).

Module Strptime.

Definition in_range (lo hi : ascii) (c : ascii) : bool :=
  ((N_of_ascii lo <=? N_of_ascii c) && (N_of_ascii c <=? N_of_ascii hi))%N.

Definition is_char (x c : ascii) : bool := (N_of_ascii x =? N_of_ascii c)%N.

Definition is_digit (c : ascii) : bool := in_range "0" "9" c.

Definition dval (c : ascii) : Z := Z.of_N (N_of_ascii c) - 48.

Definition alt {A} (b : bool) (x : A) : list A := if b then [x] else [].

(** The ways the group of [%d] matches a prefix, in the order the regex
    engine tries them: [3[0-1]|[1-2]\d|0[1-9]|[1-9]| [1-9]]. *)
Definition re_d (s : string) : list (Z * string) :=
  match s with
  | String a (String b r) =>
      alt (is_char "3" a && in_range "0" "1" b) (30 + dval b, r) ++
      alt (in_range "1" "2" a && is_digit b) (10 * dval a + dval b, r) ++
      alt (is_char "0" a && in_range "1" "9" b) (dval b, r) ++
      alt (in_range "1" "9" a) (dval a, String b r) ++
      alt (is_char " " a && in_range "1" "9" b) (dval b, r)
  | String a EmptyString => alt (in_range "1" "9" a) (dval a, EmptyString)
  | EmptyString => []
  end.

(** [%m]: [1[0-2]|0[1-9]|[1-9]] *)
Definition re_m (s : string) : list (Z * string) :=
  match s with
  | String a (String b r) =>
      alt (is_char "1" a && in_range "0" "2" b) (10 + dval b, r) ++
      alt (is_char "0" a && in_range "1" "9" b) (dval b, r) ++
      alt (in_range "1" "9" a) (dval a, String b r)
  | String a EmptyString => alt (in_range "1" "9" a) (dval a, EmptyString)
  | EmptyString => []
  end.

(** [%Y]: [\d\d\d\d] *)
Definition re_Y (s : string) : list (Z * string) :=
  match s with
  | String a (String b (String c (String d r))) =>
      alt (is_digit a && is_digit b && is_digit c && is_digit d)
          (1000 * dval a + 100 * dval b + 10 * dval c + dval d, r)
  | _ => []
  end.

(** The literal [\.] *)
Definition re_dot (s : string) : list string :=
  match s with
  | String a r => alt (is_char "." a) r
  | EmptyString => []
  end.

(** The first match of the whole pattern at the start of the text. *)
Definition re_match (s : string) : option (Z * Z * Z * string) :=
  head (
    '(d, s1) ← re_d s; s2 ← re_dot s1;
    '(m, s3) ← re_m s2; s4 ← re_dot s3;
    '(y, s5) ← re_Y s4;
    [(d, m, y, s5)]).

Definition is_leap (y : Z) : bool :=
  (y mod 4 =? 0) && (negb (y mod 100 =? 0) || (y mod 400 =? 0)).

Definition days_in_month (y m : Z) : Z :=
  if m =? 2 then (if is_leap y then 29 else 28)
  else if (m =? 4) || (m =? 6) || (m =? 9) || (m =? 11) then 30
  else 31.

(** What the [date] constructor accepts. *)
Definition valid_date (y m d : Z) : bool :=
  (1 <=? y) && (y <=? 9999) && (1 <=? m) && (m <=? 12)
  && (1 <=? d) && (d <=? days_in_month y m).

End Strptime.

(** [datetime.strptime(text, DATE_FORMAT)]: [ValueError] when the text does
    not match the format, when something is left after the match, or when
    the day does not exist. *)
Definition strptime_date (text : string) : result datetime :=
  match Strptime.re_match text with
  | None => Raise ValueError
  | Some (d, m, y, rest) =>
      if negb (PyStr.is_empty rest) then Raise ValueError
      else if Strptime.valid_date y m d then Ok (mk_datetime y m d 0 0 0 0)
      else Raise ValueError
  end.

(** ** The engine *)

Section Engine.

(** [R.UNKNOWN_COMPANY_PREFIX]: the constants module is not among the
    sources, so the prefix of the synthetic keys is left open. *)
Variable UNKNOWN_COMPANY_PREFIX : string.

Definition company_key (value : pyval) (entry_id : nat) : string :=
  match clean_str value with
  | None => UNKNOWN_COMPANY_PREFIX +:+ pretty entry_id
  | Some text => PyStr.lower (PyStr.join " " (PyStr.split text))
  end.

Definition role_key (value : pyval) : option string :=
  match clean_str value with
  | None => None
  | Some text => Some (PyStr.lower (PyStr.join " " (PyStr.split text)))
  end.

Definition sort_key_received_datetime (entry : dict) : datetime :=
  match dict_get entry R.RECEIVED_DATETIME with
  | VDatetime dt => dt
  | _ => datetime_min
  end.

(** [entry.get(field)] on the dict behind a reference *)
Definition field_of (h : heap) (entry : loc) (field : string) : pyval :=
  dict_get (deref h entry) field.

(** [sort_key_received_datetime(entry)] on the dict behind a reference *)
Definition received (h : heap) (entry : loc) : datetime :=
  sort_key_received_datetime (deref h entry).

Definition first_non_null (h : heap) (entries : list loc) (field : string)
    : option string :=
  first_some (fun entry => clean_str (field_of h entry field)) entries.

(** [if x is None: x = fallback] *)
Definition or_else {A} (x fallback : option A) : option A :=
  match x with Some v => Some v | None => fallback end.

Definition prompt_job_title (company_name : option string) : M (option string) :=
  print EmptyString ;;
  print ("Job title not found for: " +:+
         match company_name with
         | Some name => if PyStr.is_empty name then "(unknown)" else name
         | None => "(unknown)"
         end) ;;
  line ← input "Job title (leave empty to skip): ";
  let job_title := PyStr.strip line in
  if negb (PyStr.is_empty job_title) then mret (Some job_title) else mret None.

Definition group_key (entry : dict) (include_role : bool) (entry_id : nat)
    : string * option string :=
  let company := company_key (dict_get entry R.EMPLOYER_NAME) entry_id in
  let role := role_key (dict_get entry R.APPLIED_POSITION) in
  if include_role then (company, role) else (company, None).

Definition earliest_valid_received_datetime (h : heap)
    (entries_sorted_newest_first : list loc) : option datetime :=
  first_some
    (fun entry =>
       let dt := received h entry in
       if decide (dt <> datetime_min) then Some dt else None)
    (reverse entries_sorted_newest_first).

(** The first loop of [dedupe_and_merge_results], one round. *)
Definition normalize_received (result : loc) : M unit :=
  h ← read_heap;
  let value := field_of h result R.RECEIVED_DATETIME in
  if negb (is_datetime value)
  then store result R.RECEIVED_DATETIME (VDatetime datetime_min)
  else mret tt.

(** [groups.setdefault(key, []).append(result)] on a dict that keeps the
    order in which its keys were first inserted. *)
Fixpoint setdefault_append (key : string * option string) (result : loc)
    (groups : list ((string * option string) * list loc))
    : list ((string * option string) * list loc) :=
  match groups with
  | [] => [(key, [result])]
  | (k, entries) :: rest =>
      if decide (k = key) then (k, entries ++ [result]) :: rest
      else (k, entries) :: setdefault_append key result rest
  end.

(** [enumerate(xs)], counting from [start] *)
Fixpoint enumerate_from {A} (start : nat) (xs : list A) : list (nat * A) :=
  match xs with
  | [] => []
  | x :: rest => (start, x) :: enumerate_from (S start) rest
  end.

(** The grouping loop. *)
Definition group_results (h : heap) (results : list loc)
    (include_role_in_key : bool)
    : list ((string * option string) * list loc) :=
  foldl
    (fun groups '(entry_id, result) =>
       let key := group_key (deref h result) include_role_in_key entry_id in
       setdefault_append key result groups)
    [] (enumerate_from 0 results).

(** [xs[0]] *)
Definition index0 {A} (xs : list A) : M A :=
  match xs with
  | [] => raise IndexError
  | x :: _ => mret x
  end.

(** The body of the merge loop: the record of one group. *)
Definition merge_group (entries : list loc) : M dict :=
  h ← read_heap;
  let newest_first := py_sorted datetime_lt (received h) true entries in
  let oldest_first := reverse newest_first in
  latest ← index0 newest_first;
  let earliest_dt := earliest_valid_received_datetime h newest_first in
  let output : dict := ∅ in
  let employer_name := first_non_null h oldest_first R.EMPLOYER_NAME in
  let employer_name :=
    or_else employer_name (clean_str (field_of h latest R.EMPLOYER_NAME)) in
  let output := <[R.EMPLOYER_NAME := of_opt employer_name]> output in
  let output := <[R.RESULT := field_of h latest R.RESULT]> output in
  let contact_person := first_non_null h oldest_first R.CONTACT_PERSON in
  let contact_person :=
    or_else contact_person (clean_str (field_of h latest R.CONTACT_PERSON)) in
  let output := <[R.CONTACT_PERSON := of_opt contact_person]> output in
  let job_title := first_non_null h oldest_first R.APPLIED_POSITION in
  let job_title :=
    or_else job_title (clean_str (field_of h latest R.APPLIED_POSITION)) in
  job_title ←
    match job_title with
    | None => prompt_job_title (clean_str (dict_get output R.EMPLOYER_NAME))
    | Some title => mret (Some title)
    end;
  let output := <[R.APPLIED_POSITION := of_opt job_title]> output in
  let address := first_non_null h oldest_first R.POSTAL_ADDRESS in
  let address :=
    or_else address (clean_str (field_of h latest R.POSTAL_ADDRESS)) in
  let output := <[R.POSTAL_ADDRESS := of_opt address]> output in
  let output :=
    match earliest_dt with
    | Some dt => <[R.FIRST_CONTACT_DATE := VStr (strftime_date dt)]> output
    | None => <[R.FIRST_CONTACT_DATE := VNone]> output
    end in
  mret output.

(** [<] on the [(int, datetime)] tuples of [sort_key] *)
Definition tuple_lt (a b : Z * datetime) : bool :=
  (a.1 <? b.1) || ((a.1 =? b.1) && datetime_lt a.2 b.2).

(** The local [sort_key] of [dedupe_and_merge_results]: the [return] inside
    [try], [except ValueError: pass], and the [return] after them. *)
Definition sort_key (entry : dict) : result (Z * datetime) :=
  match clean_str (dict_get entry R.FIRST_CONTACT_DATE) with
  | Some value =>
      match strptime_date value with
      | Ok parsed => Ok (0, parsed)
      | Raise ValueError => Ok (1, datetime_min)
      | Raise e => Raise e
      end
  | None => Ok (1, datetime_min)
  end.

(** [merged.sort(key=sort_key)]: the keys are computed first, one call per
    record, then the records are sorted by them, stably. *)
Definition sort_merged (merged : list dict) : result (list dict) :=
  keys ← for_keys sort_key merged;
  Ok (snd <$> stable_sort (fun y x => tuple_lt y.1 x.1) (zip keys merged)).

Definition dedupe_and_merge_results (results : list loc)
    (include_role_in_key : bool) : M (list dict) :=
  match results with
  | [] => mret []
  | _ :: _ =>
      for_each normalize_received results ;;
      h ← read_heap;
      let groups := group_results h results include_role_in_key in
      merged ← for_collect (fun '(key, entries) => merge_group entries) groups;
      lift (sort_merged merged)
  end.

(** Following the specification's design note: the merge with the policy
    "first non-null oldest-to-newest, else absent" for [employer_name],
    [contact_person] and [postal_address]. *)
Definition merge_group_simplified (entries : list loc) : M dict :=
  h ← read_heap;
  let newest_first := py_sorted datetime_lt (received h) true entries in
  let oldest_first := reverse newest_first in
  latest ← index0 newest_first;
  let earliest_dt := earliest_valid_received_datetime h newest_first in
  let output : dict := ∅ in
  let employer_name := first_non_null h oldest_first R.EMPLOYER_NAME in
  let output := <[R.EMPLOYER_NAME := of_opt employer_name]> output in
  let output := <[R.RESULT := field_of h latest R.RESULT]> output in
  let contact_person := first_non_null h oldest_first R.CONTACT_PERSON in
  let output := <[R.CONTACT_PERSON := of_opt contact_person]> output in
  let job_title := first_non_null h oldest_first R.APPLIED_POSITION in
  let job_title :=
    or_else job_title (clean_str (field_of h latest R.APPLIED_POSITION)) in
  job_title ←
    match job_title with
    | None => prompt_job_title (clean_str (dict_get output R.EMPLOYER_NAME))
    | Some title => mret (Some title)
    end;
  let output := <[R.APPLIED_POSITION := of_opt job_title]> output in
  let address := first_non_null h oldest_first R.POSTAL_ADDRESS in
  let output := <[R.POSTAL_ADDRESS := of_opt address]> output in
  let output :=
    match earliest_dt with
    | Some dt => <[R.FIRST_CONTACT_DATE := VStr (strftime_date dt)]> output
    | None => <[R.FIRST_CONTACT_DATE := VNone]> output
    end in
  mret output.

Definition dedupe_and_merge_results_simplified (results : list loc)
    (include_role_in_key : bool) : M (list dict) :=
  match results with
  | [] => mret []
  | _ :: _ =>
      for_each normalize_received results ;;
      h ← read_heap;
      let groups := group_results h results include_role_in_key in
      merged ← for_collect
                 (fun '(key, entries) => merge_group_simplified entries) groups;
      lift (sort_merged merged)
  end.

(** Following the wording of the oldest-wins claim: the group scanned
    oldest to newest by effective timestamp, observations with the same
    timestamp in their input order. *)
Definition oldest_first_ties_in_input_order (h : heap) (entries : list loc)
    : list loc :=
  py_sorted datetime_lt (received h) false entries.

Definition identity_fields : list string :=
  [R.EMPLOYER_NAME; R.CONTACT_PERSON; R.APPLIED_POSITION; R.POSTAL_ADDRESS].

End Engine.

(** * Vocabulary of the properties *)

(** Sorted: nothing stands before an element it should strictly follow. *)
Definition ordered {A} (prec : A -> A -> bool) : list A -> Prop :=
  StronglySorted (fun a b => prec b a = false).

(** The element at which a scan for the first hit stops, instead of what
    [f] gives for it. *)
Definition hit {A B} (f : A -> option B) (y : A) : option A :=
  match f y with Some _ => Some y | None => None end.

(** A strict weak order given as a boolean test: what a comparison sort
    needs of [<] on its keys. *)
Class StrictWeak {K : Type} (lt : K -> K -> bool) : Prop := {
  sw_irrefl : forall a, lt a a = false;
  sw_trans : forall a b c, lt a b = true -> lt b c = true -> lt a c = true;
  sw_negtrans : forall a b c, lt a b = false -> lt b c = false -> lt a c = false
}.

(** What the orderer reads as the date of a record: the cleaned text of
    [first_contact_date], parsed; nothing when the field is absent or its
    text does not parse. *)
Definition parsed_date (entry : dict) : option datetime :=
  match clean_str (dict_get entry R.FIRST_CONTACT_DATE) with
  | Some value =>
      match strptime_date value with Ok parsed => Some parsed | Raise _ => None end
  | None => None
  end.

Definition order_key (entry : dict) : Z * datetime :=
  match parsed_date entry with
  | Some parsed => (0, parsed)
  | None => (1, datetime_min)
  end.

(** The record with its date taken away. *)
Definition absent_date (entry : dict) : dict :=
  <[R.FIRST_CONTACT_DATE := VNone]> entry.

Definition erase_malformed (entry : dict) : dict :=
  match parsed_date entry with
  | Some _ => entry
  | None => absent_date entry
  end.

(** Ascending by the parsed date. *)
Definition date_le (a b : dict) : Prop :=
  exists da db, parsed_date a = Some da /\ parsed_date b = Some db /\
    datetime_lt db da = false.

(** A first_contact_date that is a text which, trimmed as the orderer
    reads it, does not parse in [DATE_FORMAT]. *)
Definition malformed_date (entry : dict) : Prop :=
  exists text, dict_get entry R.FIRST_CONTACT_DATE = VStr text /\
    forall parsed, strptime_date (PyStr.strip text) <> Ok parsed.

(** The order of [sorted(..., key=sort_key_received_datetime, reverse=True)]:
    the later timestamp first. *)
Definition newer (h : heap) (y x : loc) : bool :=
  datetime_lt (received h x) (received h y).

(** The dict an input observation is left as by the first loop. *)
Definition written_back (entry : dict) : dict :=
  if is_datetime (dict_get entry R.RECEIVED_DATETIME) then entry
  else <[R.RECEIVED_DATETIME := VDatetime datetime_min]> entry.

Definition normalize_heap (results : list loc) (h : heap) : heap :=
  foldl (fun h result => alter written_back result h) h results.

(** Computations that leave the dicts alone. *)
Definition heap_preserving {A} (m : M A) : Prop :=
  forall w, w_heap (m w).2 = w_heap w.

(** * Example data *)

(** [make_entry] of the tests: the key [received_datetime] is there only
    when a timestamp is given. *)
Definition make_entry (employer_name result applied_position contact_person : pyval)
    (received_datetime : option datetime) : dict :=
  let e : dict :=
    <[R.POSTAL_ADDRESS := VNone]> (<[R.CONTACT_PERSON := contact_person]>
    (<[R.APPLIED_POSITION := applied_position]> (<[R.RESULT := result]>
    (<[R.EMPLOYER_NAME := employer_name]> ∅)))) in
  match received_datetime with
  | Some dt => <[R.RECEIVED_DATETIME := VDatetime dt]> e
  | None => e
  end.

(** A world with the given dicts at the references 0, 1, ..., and the
    given lines waiting on the console. *)
Definition world_of (entries : list dict) (stdin : list string) : world :=
  mk_world (list_to_map (enumerate_from 0 entries)) stdin [].

(** A value for [UNKNOWN_COMPANY_PREFIX] to run the examples with. *)
Definition sample_prefix : string := "unknown_".

(** Case 1: the early mail names the job, the late one is the rejection. *)
Definition tc1_early : dict :=
  make_entry (VStr "ABC GmbH") (VStr "Zwischenstand") (VStr "Backend Developer")
             VNone (Some (mk_datetime 2026 1 6 9 0 0 0)).
Definition tc1_late : dict :=
  make_entry (VStr "ABC GmbH") (VStr "Absage") VNone VNone
             (Some (mk_datetime 2026 1 10 12 0 0 0)).
Definition tc1_world : world := world_of [tc1_early; tc1_late] [].
Definition tc1_merged : dict :=
  <[R.FIRST_CONTACT_DATE := VStr "06.01.2026"]> (<[R.POSTAL_ADDRESS := VNone]>
  (<[R.APPLIED_POSITION := VStr "Backend Developer"]> (<[R.CONTACT_PERSON := VNone]>
  (<[R.RESULT := VStr "Absage"]> (<[R.EMPLOYER_NAME := VStr "ABC GmbH"]> ∅))))).

(** Two mails of one employer without timestamps, each naming a job. *)
Definition tie_first : dict :=
  make_entry (VStr "ABC GmbH") (VStr "Zwischenstand") (VStr "Backend Developer")
             VNone None.
Definition tie_second : dict :=
  make_entry (VStr "ABC GmbH") (VStr "Absage") (VStr "Software Engineer")
             VNone None.
Definition tie_world : world := world_of [tie_first; tie_second] [].
Definition tie_merged : dict :=
  <[R.FIRST_CONTACT_DATE := VNone]> (<[R.POSTAL_ADDRESS := VNone]>
  (<[R.APPLIED_POSITION := VStr "Software Engineer"]> (<[R.CONTACT_PERSON := VNone]>
  (<[R.RESULT := VStr "Zwischenstand"]> (<[R.EMPLOYER_NAME := VStr "ABC GmbH"]> ∅))))).

(** Case 4 of the tests: one mail without a timestamp, one with. *)
Definition tc4_a : dict :=
  make_entry (VStr "ABC GmbH") (VStr "Zwischenstand") (VStr "Backend Developer")
             VNone None.
Definition tc4_b : dict :=
  make_entry (VStr "ABC GmbH") (VStr "Absage") VNone VNone
             (Some (mk_datetime 2026 1 10 12 0 0 0)).
Definition tc4_world : world := world_of [tc4_a; tc4_b] [].
Definition tc4_merged : dict :=
  <[R.FIRST_CONTACT_DATE := VStr "10.01.2026"]> (<[R.POSTAL_ADDRESS := VNone]>
  (<[R.APPLIED_POSITION := VStr "Backend Developer"]> (<[R.CONTACT_PERSON := VNone]>
  (<[R.RESULT := VStr "Absage"]> (<[R.EMPLOYER_NAME := VStr "ABC GmbH"]> ∅))))).

(** A record with the given text as its first contact date. *)
Definition rec_dated (name date : string) : dict :=
  <[R.EMPLOYER_NAME := VStr name]> (<[R.FIRST_CONTACT_DATE := VStr date]> ∅).

(** An observation without an employer, and one whose employer is called
    as a synthetic key is spelled. *)
Definition nameless : dict :=
  make_entry VNone (VStr "Absage") VNone VNone None.
Definition named_like_key : dict :=
  make_entry (VStr "Unknown_0") (VStr "Absage") VNone VNone None.
Definition collided_merged : dict :=
  <[R.FIRST_CONTACT_DATE := VNone]> (<[R.POSTAL_ADDRESS := VNone]>
  (<[R.APPLIED_POSITION := VNone]> (<[R.CONTACT_PERSON := VNone]>
  (<[R.RESULT := VStr "Absage"]> (<[R.EMPLOYER_NAME := VStr "Unknown_0"]> ∅))))).

(** Cases 2 and 3 of the tests differ from case 1 in one mail each. *)
Definition tc2_late : dict :=
  make_entry (VStr "ABC GmbH") (VStr "Absage") (VStr "Software Engineer") VNone
             (Some (mk_datetime 2026 1 10 12 0 0 0)).
Definition tc3_early : dict :=
  make_entry (VStr "ABC GmbH") (VStr "Zwischenstand") (VStr "Backend Developer")
             (VStr "Max Mustermann") (Some (mk_datetime 2026 1 6 9 0 0 0)).

(** * Further vocabulary *)

(** The entries of the group with the given key, by the first entry of
    the association list with that key; none when there is no such key. *)
Fixpoint group_of (key : string * option string)
    (groups : list ((string * option string) * list loc)) : list loc :=
  match groups with
  | [] => []
  | (k, entries) :: rest =>
      if decide (k = key) then entries else group_of key rest
  end.

(** The group key of the observation at one position of the input. *)
Definition key_at (prefix : string) (h : heap) (include_role_in_key : bool)
    (p : nat * loc) : string * option string :=
  group_key prefix (deref h p.2) include_role_in_key p.1.

(** The keys of a merged record. *)
Definition merged_keys : gset string :=
  {[ R.EMPLOYER_NAME; R.RESULT; R.CONTACT_PERSON; R.APPLIED_POSITION;
     R.POSTAL_ADDRESS; R.FIRST_CONTACT_DATE ]}.

(** A value that is absent or a text which is not empty and has no
    whitespace at either end. *)
Definition absent_or_clean (v : pyval) : Prop :=
  v = VNone \/ exists text, v = VStr text /\ text <> EmptyString /\ PyStr.trimmed text.

(** The day of a timestamp, as [strptime] gives a date: at midnight. *)
Definition date_of (d : datetime) : datetime :=
  mk_datetime (year d) (month d) (day d) 0 0 0 0.

(** A timestamp whose year, month and day the [date] constructor accepts. *)
Definition valid_day (d : datetime) : bool :=
  Strptime.valid_date (year d) (month d) (day d).

(** An observation of the year 999, one without a timestamp, and the
    records of the two. *)
Definition year_999 : dict :=
  make_entry (VStr "Old AG") (VStr "Absage") (VStr "Dev") VNone
             (Some (mk_datetime 999 5 6 9 0 0 0)).

Definition undated : dict :=
  make_entry (VStr "New GmbH") (VStr "Einladung") (VStr "Dev") VNone None.

Definition year_999_merged : dict :=
  {[ R.EMPLOYER_NAME := VStr "Old AG"; R.CONTACT_PERSON := VNone;
     R.APPLIED_POSITION := VStr "Dev"; R.POSTAL_ADDRESS := VNone;
     R.RESULT := VStr "Absage"; R.FIRST_CONTACT_DATE := VStr "06.05.999" ]}.

Definition undated_merged : dict :=
  {[ R.EMPLOYER_NAME := VStr "New GmbH"; R.CONTACT_PERSON := VNone;
     R.APPLIED_POSITION := VStr "Dev"; R.POSTAL_ADDRESS := VNone;
     R.RESULT := VStr "Einladung"; R.FIRST_CONTACT_DATE := VNone ]}.

(** A text without whitespace. *)
Fixpoint no_space (s : string) : bool :=
  match s with
  | EmptyString => true
  | String c r => negb (PyStr.is_space c) && no_space r
  end.

(** A word: a text that is not empty and has no whitespace. *)
Definition is_word (s : string) : Prop := s <> EmptyString /\ no_space s = true.

(** * Searching the mailbox: [app/services/fetch_email.py] *)

(** [build_or_subject_query(terms)]. In the last case the list has two
    terms or more: [terms[-1]] is its last term and [terms[:-1]] the ones
    before it. *)
Definition build_or_subject_query (terms : list string) : list string :=
  match terms with
  | [] => []
  | [term] => ["SUBJECT"; term]
  | first :: _ =>
      let expr := ["SUBJECT"; List.last terms first] in
      foldl (fun expr term => ["OR"; "SUBJECT"; term] ++ expr)
            expr (reverse (removelast terms))
  end.

(** The reading of a list of search criteria as one IMAP search key:
    [SUBJECT] takes the next criterion as its text, [OR] takes two search
    keys. [subject_has text] says whether the subject of the message at
    hand contains the text. What is left of the list is returned with the
    truth of the key; the fuel bounds the number of criteria read. *)
Fixpoint search_key (subject_has : string -> bool) (fuel : nat)
    (criteria : list string) : option (bool * list string) :=
  match fuel with
  | O => None
  | S fuel =>
      match criteria with
      | [] => None
      | word :: rest =>
          if String.eqb word "SUBJECT" then
            match rest with
            | text :: rest' => Some (subject_has text, rest')
            | [] => None
            end
          else if String.eqb word "OR" then
            match search_key subject_has fuel rest with
            | Some (b1, rest1) =>
                match search_key subject_has fuel rest1 with
                | Some (b2, rest2) => Some (b1 || b2, rest2)
                | None => None
                end
            | None => None
            end
          else None
      end
  end.

(** * Filling in addresses: [app/services/enrich_addresses.py] *)

(** ** [ManualPostalAddress] of [app/models/models.py] *)

Record ManualPostalAddress := mk_ManualPostalAddress {
  street : string;
  postal_code : string;
  city : string
}.

Definition to_one_line (self : ManualPostalAddress) : string :=
  street self +:+ ", " +:+ postal_code self +:+ " " +:+ city self.

(** ** The entries and the resolver *)

(** A computation of the address step. Its state is the heap of the
    entries and the state behind the resolver object: its databases and
    the console it asks on. The resolver is handed company names only, so
    its methods act on its own state; an error one of them raises ends the
    step. *)
Definition RM (resolver error A : Type) : Type :=
  heap * resolver -> (error + A) * (heap * resolver).

#[global] Instance RM_ret {resolver error} : MRet (RM resolver error) :=
  fun A a s => (inr a, s).
#[global] Instance RM_bind {resolver error} : MBind (RM resolver error) :=
  fun A B f m s =>
    match m s with
    | (inr a, s') => f a s'
    | (inl e, s') => (inl e, s')
    end.

(** A call of a method of the resolver. *)
Definition call {resolver error A}
    (method : resolver -> (error + A) * resolver) : RM resolver error A :=
  fun s => let (r, rs) := method (snd s) in (r, (fst s, rs)).

Definition read_entries {resolver error} : RM resolver error heap :=
  fun s => (inr (fst s), s).

(** [entry[key] = value] on the dict behind a reference *)
Definition set_item {resolver error} (entry : loc) (key : string)
    (value : pyval) : RM resolver error unit :=
  fun s => (inr tt, (alter (insert key value) entry (fst s), snd s)).

(** [for entry in results: body(entry)] *)
Fixpoint for_entries {resolver error} (body : loc -> RM resolver error unit)
    (results : list loc) : RM resolver error unit :=
  match results with
  | [] => mret tt
  | entry :: rest => body entry ;; for_entries body rest
  end.

(** [value.strip()] where [isinstance(value, str) and value.strip()]
    holds, and nothing where it does not. *)
Definition nonblank (value : pyval) : option string :=
  match value with
  | VStr text => or_none (PyStr.strip text)
  | _ => None
  end.

Section Enrich.

(** The resolver: any object with the three methods, as
    [AddressResolver] has them. [find_manual] gives a
    [ManualPostalAddress] or [None]; the other two give any value, of
    which [enrich_missing_addresses] takes a [str] only. *)
Variable resolver : Type.
Variable error : Type.
Variable find_manual :
  string -> resolver -> (error + option ManualPostalAddress) * resolver.
Variable find_openregister : string -> resolver -> (error + pyval) * resolver.
Variable prompt_and_save : string -> resolver -> (error + pyval) * resolver.

(** The body of the loop of [enrich_missing_addresses]; [mret tt] where
    the source has [continue]. *)
Definition enrich_entry (interactive : bool) (entry : loc)
    : RM resolver error unit :=
  h ← read_entries;
  match nonblank (field_of h entry R.EMPLOYER_NAME) with
  | None => mret tt
  | Some company_name =>
      match nonblank (field_of h entry R.POSTAL_ADDRESS) with
      | Some _ => mret tt
      | None =>
          manual ← call (find_manual company_name);
          let resolved := to_one_line <$> manual in
          resolved ← match resolved with
                     | None =>
                         reg ← call (find_openregister company_name);
                         mret (nonblank reg)
                     | Some _ => mret resolved
                     end;
          resolved ← match resolved, interactive with
                     | None, true =>
                         prompted ← call (prompt_and_save company_name);
                         mret (nonblank prompted)
                     | _, _ => mret resolved
                     end;
          set_item entry R.POSTAL_ADDRESS (of_opt resolved)
      end
  end.

Definition enrich_missing_addresses (results : list loc) (interactive : bool)
    : RM resolver error (list loc) :=
  for_entries (enrich_entry interactive) results ;;
  mret results.

End Enrich.

Arguments enrich_entry {resolver error}.
Arguments enrich_missing_addresses {resolver error}.

(** An address that [enrich_missing_addresses] may leave in an entry:
    [None], or a [str] that is not blank. *)
Definition address_or_none (value : pyval) : Prop :=
  value = VNone \/ exists text, value = VStr text /\ nonblank value <> None.

(** An entry that [enrich_missing_addresses] passes over: it has no
    company name, or it has an address. *)
Definition passed_over (h : heap) (entry : loc) : Prop :=
  nonblank (field_of h entry R.EMPLOYER_NAME) = None \/
  nonblank (field_of h entry R.POSTAL_ADDRESS) <> None.

(** What the entries are after some rounds, against what they were: an
    entry is as it was, or it is one of the list that was not passed
    over, with an address written into it. *)
Definition written (results : list loc) (h h' : heap) : Prop :=
  forall entry,
    h' !! entry = h !! entry \/
    (entry ∈ results /\ ~ passed_over h entry /\
     exists d v, h !! entry = Some d /\ address_or_none v /\
       h' !! entry = Some (<[R.POSTAL_ADDRESS := v]> d)).

(** The entry has the key of the address, with an address or [None]. *)
Definition has_address (h : heap) (entry : loc) : Prop :=
  exists v, deref h entry !! R.POSTAL_ADDRESS = Some v /\ address_or_none v.

(** A text of whitespace only. *)
Fixpoint blank (s : string) : bool :=
  match s with
  | EmptyString => true
  | String c r => PyStr.is_space c && blank r
  end.

(** A resolver without databases, which reads the three parts of the
    address from the lines at hand. *)
Definition lines_find_manual (name : string) (lines : list string)
    : (unit + option ManualPostalAddress) * list string :=
  (inr None, lines).

Definition lines_find_openregister (name : string) (lines : list string)
    : (unit + pyval) * list string :=
  (inr VNone, lines).

Definition lines_prompt_and_save (name : string) (lines : list string)
    : (unit + pyval) * list string :=
  match lines with
  | a :: b :: c :: rest =>
      (inr (VStr (to_one_line (mk_ManualPostalAddress a b c))), rest)
  | _ => (inl tt, [])
  end.

Definition sample_entries : heap :=
  {[ 0%nat := {[ R.EMPLOYER_NAME := VStr "ABC GmbH" ]};
     1%nat := {[ R.EMPLOYER_NAME := VStr "XYZ AG";
                 R.POSTAL_ADDRESS := VStr "Main St 1, 12345 Berlin" ]};
     2%nat := {[ R.RESULT := VStr "Absage" ]} ]}.

(** A resolver whose manual database has the one address for every name. *)
Definition one_address_find_manual (name : string) (lines : list string)
    : (unit + option ManualPostalAddress) * list string :=
  (inr (Some (mk_ManualPostalAddress "Main St 1" "12345" "Berlin")), lines).

(** * Writing the table: [app/services/export_to_table.py] *)

Definition chunk_size : nat := 6.
Definition base_row : nat := 7.

(** What one pass of the loop of [write_results_to_excels] places on the
    sheet of its file: the part number of the file, the numbers of column
    A with their rows, and the entries with the first of the three rows
    of each. The cells of the head and the texts of the columns B to F
    are not modelled. *)
Record page (A : Type) := mk_page {
  pg_part : nat;
  pg_numbers : list (nat * nat);
  pg_entries : list (nat * A)
}.
Arguments mk_page {A}.
Arguments pg_part {A}.
Arguments pg_numbers {A}.
Arguments pg_entries {A}.

(** The body of the loop, with [chunk = results[index : index + chunk_size]]:
    [r0 = base_row + j * 3] gets [index + j + 1] for [j] in
    [range(chunk_size)], and [r = base_row + i * 3] gets the entry for
    [i, entry] in [enumerate(chunk)]. *)
Definition page_of {A} (results : list A) (index part : nat) : page A :=
  let chunk := take chunk_size (drop index results) in
  mk_page part
    ((fun j => (base_row + j * 3, index + j + 1)%nat) <$> seq 0 chunk_size)
    ((fun ie => (base_row + fst ie * 3, snd ie)%nat) <$> enumerate_from 0 chunk).

(** [while index < len(results)]: one page for each pass, then
    [index += len(chunk)] and [part += 1]. The fuel bounds the number of
    passes. *)
Fixpoint write_pages {A} (fuel : nat) (results : list A) (index part : nat)
    : option (list (page A)) :=
  if decide (index < length results)%nat then
    match fuel with
    | O => None
    | S fuel =>
        let chunk := take chunk_size (drop index results) in
        pages ← write_pages fuel results (index + length chunk) (part + 1);
        Some (page_of results index part :: pages)
    end
  else Some [].

(** The pages of [write_results_to_excels], one for each file it writes,
    in the order of [out_files]. *)
Definition write_results_to_excels {A} (fuel : nat) (results : list A)
    : option (list (page A)) :=
  match results with
  | [] => Some []
  | _ => write_pages fuel results 0 1
  end.

(** * The resolver: [app/services/address_resolver.py] *)

(** What can end a method of the resolver: [input] at the end of the
    input, or an error of the database. *)
Inductive resolver_error (E : Type) :=
| ConsoleError (e : exn)
| DatabaseError (e : E).
Arguments ConsoleError {E} e.
Arguments DatabaseError {E} e.

(** A computation of the resolver: on the console, which is the one of
    [world], and on its databases. *)
Definition AR (db E A : Type) : Type :=
  world * db -> (resolver_error E + A) * (world * db).

#[global] Instance AR_ret {db E} : MRet (AR db E) := fun A a s => (inr a, s).
#[global] Instance AR_bind {db E} : MBind (AR db E) := fun A B f m s =>
  match m s with
  | (inr a, s') => f a s'
  | (inl e, s') => (inl e, s')
  end.

(** [print] and [input], as [M] has them. *)
Definition console {db E A} (m : M A) : AR db E A := fun s =>
  match m (fst s) with
  | (Ok a, w) => (inr a, (w, snd s))
  | (Raise e, w) => (inl (ConsoleError e), (w, snd s))
  end.

(** A statement run on a connection. *)
Definition database {db E A} (statement : db -> (E + A) * db) : AR db E A :=
  fun s =>
    match statement (snd s) with
    | (inr a, d) => (inr a, (fst s, d))
    | (inl e, d) => (inl (DatabaseError e), (fst s, d))
    end.

Section AddressResolver.

(** The two connections, and the statements the methods run on them, each
    with the parameters in the order of its tuple: the [SELECT] of
    [find_manual] with [fetchone], which gives the row or nothing; the
    [UPDATE] of [save_manual], which gives [cur.rowcount]; its [INSERT];
    [commit]; and the [SELECT] of [find_openregister] with [fetchone].
    The columns of the manual table are texts. *)
Variable db : Type.
Variable E : Type.
Variable select_manual :
  string -> db -> (E + option ManualPostalAddress) * db.
Variable update_manual :
  string -> string -> string -> string -> db -> (E + nat) * db.
Variable insert_manual :
  string -> string -> string -> string -> db -> (E + unit) * db.
Variable commit : db -> (E + unit) * db.
Variable select_openregister : string -> db -> (E + option pyval) * db.

Definition find_manual (company_name : string)
    : AR db E (option ManualPostalAddress) :=
  let name := PyStr.strip company_name in
  if PyStr.is_empty name then mret None
  else database (select_manual name).

(** [save_manual] after its guard: the [UPDATE], the [INSERT] where no row
    was updated, and the [commit]. *)
Definition write_manual (name street postal_code city : string)
    : AR db E unit :=
  rowcount ← database (update_manual street postal_code city name);
  (if decide (rowcount = 0%nat)
   then database (insert_manual name street postal_code city)
   else mret tt) ;;
  database commit.

Definition save_manual (company_name street postal_code city : string)
    : AR db E unit :=
  let name := PyStr.strip company_name in
  let street := PyStr.strip street in
  let postal_code := PyStr.strip postal_code in
  let city := PyStr.strip city in
  if PyStr.is_empty name || PyStr.is_empty street
     || PyStr.is_empty postal_code || PyStr.is_empty city
  then mret tt
  else write_manual name street postal_code city.

Definition find_openregister (company_name : string) : AR db E pyval :=
  let name := PyStr.strip company_name in
  if PyStr.is_empty name then mret VNone
  else
    row ← database (select_openregister name);
    mret (match row with
          | Some registered_address => registered_address
          | None => VNone
          end).

Definition prompt_and_save (company_name : string) : AR db E pyval :=
  let name := PyStr.strip company_name in
  if PyStr.is_empty name then mret VNone
  else
    console (print EmptyString) ;;
    console (print ("Address not found for: " +:+ name)) ;;
    console (print "Please enter the address (leave empty to skip).") ;;
    line ← console (input "Street: ");
    let street := PyStr.strip line in
    if PyStr.is_empty street then mret VNone
    else
      line ← console (input "Postal code: ");
      let postal_code := PyStr.strip line in
      if PyStr.is_empty postal_code then mret VNone
      else
        line ← console (input "City: ");
        let city := PyStr.strip line in
        if PyStr.is_empty city then mret VNone
        else
          save_manual name street postal_code city ;;
          mret (VStr (street +:+ ", " +:+ postal_code +:+ " " +:+ city)).

End AddressResolver.

Arguments find_manual {db E}.
Arguments write_manual {db E}.
Arguments save_manual {db E}.
Arguments find_openregister {db E}.
Arguments prompt_and_save {db E}.

(** What [prompt_and_save] gives for its three questions. *)
Definition prompt_outcome {db E}
    (update_manual : string -> string -> string -> string -> db -> (E + nat) * db)
    (insert_manual : string -> string -> string -> string -> db -> (E + unit) * db)
    (commit : db -> (E + unit) * db)
    (company_name : string) (w : world) (d : db)
    (r : resolver_error E + pyval) (w' : world) (d' : db) : Prop :=
  match r with
  | inr (VStr text) =>
      exists street postal_code city,
        w_stdin w = street :: postal_code :: city :: w_stdin w' /\
        text = to_one_line
                 (mk_ManualPostalAddress (PyStr.strip street)
                    (PyStr.strip postal_code) (PyStr.strip city)) /\
        nonblank (VStr text) = Some text /\
        write_manual update_manual insert_manual commit
          (PyStr.strip company_name) (PyStr.strip street)
          (PyStr.strip postal_code) (PyStr.strip city) (w', d)
        = (inr tt, (w', d'))
  | inr value => value = VNone /\ d' = d
  | inl (ConsoleError e) => e = EOFError /\ w_stdin w' = [] /\ d' = d
  | inl (DatabaseError e) =>
      exists street postal_code city,
        w_stdin w = street :: postal_code :: city :: w_stdin w' /\
        write_manual update_manual insert_manual commit
          (PyStr.strip company_name) (PyStr.strip street)
          (PyStr.strip postal_code) (PyStr.strip city) (w', d)
        = (inl (DatabaseError e), (w', d'))
  end.

(** * Properties *)

(** ** Properties of the normalisers *)

Section StripFacts.
Import PyStr.

Lemma is_empty_true s : is_empty s = true <-> s = EmptyString.
Proof. destruct s; simpl; split; congruence. Qed.

Lemma lstrip_first s c : first_char (lstrip s) = Some c -> is_space c = false.
Proof.
  induction s as [|a s IH]; simpl; [discriminate|].
  destruct (is_space a) eqn:E; [exact IH|].
  simpl. intros [= <-]. exact E.
Qed.

Lemma lstrip_fixed s :
  (forall c, first_char s = Some c -> is_space c = false) -> lstrip s = s.
Proof.
  destruct s as [|a s]; simpl; [reflexivity|].
  intros H. rewrite (H a eq_refl). reflexivity.
Qed.

Lemma rstrip_last s c : last_char (rstrip s) = Some c -> is_space c = false.
Proof.
  induction s as [|a s IH]; simpl; [discriminate|].
  destruct (is_space a) eqn:E; simpl.
  - destruct (rstrip s) eqn:R; simpl; [discriminate|].
    exact IH.
  - destruct (rstrip s) eqn:R; simpl.
    + intros [= <-]. exact E.
    + exact IH.
Qed.

Lemma rstrip_idem s : rstrip (rstrip s) = rstrip s.
Proof.
  induction s as [|a s IH]; simpl; [reflexivity|].
  destruct (is_space a && is_empty (rstrip s)) eqn:E; [reflexivity|].
  simpl. rewrite IH, E. reflexivity.
Qed.

Lemma rstrip_first s c :
  first_char s = Some c -> is_space c = false -> first_char (rstrip s) = Some c.
Proof.
  destruct s as [|a s]; simpl; [discriminate|].
  intros [= ->] ->. reflexivity.
Qed.

Lemma rstrip_first_inv s c :
  first_char (rstrip s) = Some c -> first_char s = Some c.
Proof.
  destruct s as [|a s]; simpl; [discriminate|].
  destruct (is_space a && is_empty (rstrip s)); simpl; [discriminate|auto].
Qed.

Lemma strip_trimmed s : trimmed (strip s).
Proof.
  unfold strip. split; intros c H.
  - apply rstrip_first_inv in H. eapply lstrip_first, H.
  - eapply rstrip_last, H.
Qed.

Lemma strip_idem s : strip (strip s) = strip s.
Proof.
  unfold strip at 1.
  rewrite lstrip_fixed by apply strip_trimmed.
  unfold strip. apply rstrip_idem.
Qed.

Lemma or_none_Some text s : or_none text = Some s -> s = text /\ s <> EmptyString.
Proof.
  unfold or_none. destruct text; simpl; [discriminate|].
  intros [= <-]. split; [reflexivity|discriminate].
Qed.

Lemma clean_str_Some v s :
  clean_str v = Some s -> s = strip (py_str v) /\ s <> EmptyString.
Proof. destruct v; simpl; [discriminate|..]; apply or_none_Some. Qed.

Lemma clean_str_VStr_fixed s :
  s <> EmptyString -> strip s = s -> clean_str (VStr s) = Some s.
Proof.
  intros Hne Hs. simpl. rewrite Hs. unfold or_none.
  destruct s; [congruence|reflexivity].
Qed.

End StripFacts.

(** C9. Cleaning is idempotent, keeps an absent value absent, and never
    gives the empty text: what it gives is absent or a non-empty text
    with no whitespace at either end. *)
Theorem clean_str_idempotent_nonempty_trimmed :
  (forall x, clean_str (of_opt (clean_str x)) = clean_str x) /\
  clean_str VNone = None /\
  (forall x s, clean_str x = Some s -> s <> EmptyString /\ PyStr.trimmed s).
Proof.
  split; [|split].
  - intros x. destruct (clean_str x) as [s|] eqn:E; [|reflexivity].
    apply clean_str_Some in E as [-> Hne]. simpl of_opt.
    apply clean_str_VStr_fixed; [exact Hne|apply strip_idem].
  - reflexivity.
  - intros x s E. apply clean_str_Some in E as [-> Hne].
    split; [exact Hne|apply strip_trimmed].
Qed.

(** ** Orders *)

Lemma sw_asym {K} (lt : K -> K -> bool) `{!StrictWeak lt} a b :
  lt a b = true -> lt b a = false.
Proof.
  intros H. destruct (lt b a) eqn:E; [|reflexivity].
  rewrite <- (sw_irrefl a). symmetry. eapply sw_trans; eassumption.
Qed.

Ltac cmpZ :=
  repeat match goal with
  | |- context [?x <? ?y] => destruct (Z.ltb_spec x y)
  | |- context [?x =? ?y] => destruct (Z.eqb_spec x y)
  | H : context [?x <? ?y] |- _ => destruct (Z.ltb_spec x y)
  | H : context [?x =? ?y] |- _ => destruct (Z.eqb_spec x y)
  end; simpl in *; try lia; try congruence.

Lemma lex_lt_irrefl a : lex_lt a a = false.
Proof.
  induction a as [|x a IH]; simpl; [reflexivity|].
  rewrite Z.ltb_irrefl, Z.eqb_refl, IH. reflexivity.
Qed.

Lemma lex_lt_trans a b c :
  lex_lt a b = true -> lex_lt b c = true -> lex_lt a c = true.
Proof.
  revert b c. induction a as [|x a IH]; intros [|y b] [|z c]; simpl;
    try congruence.
  intros H1 H2. cmpZ. eauto.
Qed.

Lemma lex_lt_negtrans a b c :
  lex_lt a b = false -> lex_lt b c = false -> lex_lt a c = false.
Proof.
  revert b c. induction a as [|x a IH]; intros [|y b] [|z c]; simpl;
    try congruence.
  intros H1 H2. cmpZ. eauto.
Qed.

#[global] Instance datetime_lt_sw : StrictWeak datetime_lt.
Proof.
  unfold datetime_lt. split.
  - intros a. apply lex_lt_irrefl.
  - intros a b c. apply lex_lt_trans.
  - intros a b c. apply lex_lt_negtrans.
Qed.

#[global] Instance tuple_lt_sw : StrictWeak tuple_lt.
Proof.
  unfold tuple_lt. split.
  - intros [f d]. simpl. rewrite Z.ltb_irrefl, Z.eqb_refl, sw_irrefl. reflexivity.
  - intros [f1 d1] [f2 d2] [f3 d3]. simpl. intros H1 H2. cmpZ.
    eapply sw_trans; eassumption.
  - intros [f1 d1] [f2 d2] [f3 d3]. simpl. intros H1 H2. cmpZ.
    eapply sw_negtrans; eassumption.
Qed.

(** Ordering by a key, in either direction, is again a strict weak order. *)
Lemma by_key_sw {A K} (lt : K -> K -> bool) `{!StrictWeak lt} (key : A -> K)
    (reverse : bool) :
  StrictWeak (fun y x => if reverse then lt (key x) (key y) else lt (key y) (key x)).
Proof.
  destruct reverse; split; intros.
  - apply sw_irrefl.
  - eapply sw_trans; eassumption.
  - eapply sw_negtrans; eassumption.
  - apply sw_irrefl.
  - eapply sw_trans; eassumption.
  - eapply sw_negtrans; eassumption.
Qed.

(** Equal timestamps are exactly those that [<] does not tell apart. *)
Lemma lex_lt_total a b :
  length a = length b -> lex_lt a b = false -> lex_lt b a = false -> a = b.
Proof.
  revert b. induction a as [|x a IH]; intros [|y b]; simpl; try congruence.
  intros [= Hl] H1 H2. cmpZ. f_equal; [assumption|eauto].
Qed.

Lemma datetime_lt_total a b :
  datetime_lt a b = false -> datetime_lt b a = false -> a = b.
Proof.
  unfold datetime_lt. intros H1 H2.
  assert (dt_fields a = dt_fields b) as E
    by (apply lex_lt_total; [reflexivity|assumption..]).
  destruct a, b. unfold dt_fields in E. simpl in E.
  injection E as -> -> -> -> -> -> ->. reflexivity.
Qed.

(** ** The stable sort *)

Lemma filter_none {A} (P : A -> Prop) `{!forall a, Decision (P a)} (l : list A) :
  Forall (fun y => ~ P y) l -> filter P l = [].
Proof.
  induction 1 as [|y l Hy _ IH]; [reflexivity|].
  rewrite filter_cons_False by exact Hy. exact IH.
Qed.

Section StableSortFacts.
Context {A : Type} (prec : A -> A -> bool) `{!StrictWeak prec}.

Lemma insert_stable_split x s :
  exists s1 s2, s = s1 ++ s2 /\ insert_stable prec x s = s1 ++ x :: s2 /\
    Forall (fun y => prec y x = true) s1 /\
    (forall y, head s2 = Some y -> prec y x = false).
Proof.
  induction s as [|y r IH]; simpl.
  - exists [], []. repeat split; [constructor|discriminate].
  - destruct (prec y x) eqn:E.
    + destruct IH as (s1 & s2 & -> & -> & H1 & H2).
      exists (y :: s1), s2. repeat split; [constructor; assumption|exact H2].
    + exists [], (y :: r). repeat split; [constructor|].
      simpl. intros ? [= <-]. exact E.
Qed.

Lemma insert_stable_perm x s : insert_stable prec x s ≡ₚ x :: s.
Proof.
  destruct (insert_stable_split x s) as (s1 & s2 & -> & -> & _).
  symmetry. apply Permutation_middle.
Qed.

Lemma stable_sort_perm l : stable_sort prec l ≡ₚ l.
Proof.
  induction l as [|x l IH]; simpl; [reflexivity|].
  rewrite insert_stable_perm, IH. reflexivity.
Qed.

Lemma insert_stable_ordered x s : ordered prec s -> ordered prec (insert_stable prec x s).
Proof.
  unfold ordered. induction 1 as [|y r Hr IH Hy]; simpl.
  - repeat constructor.
  - destruct (prec y x) eqn:E.
    + constructor; [exact IH|].
      rewrite insert_stable_perm. constructor; [|exact Hy].
      eapply sw_asym; [exact _|exact E].
    + constructor; [constructor; assumption|].
      constructor; [exact E|].
      eapply Forall_impl; [exact Hy|]. simpl. intros b Hb.
      eapply sw_negtrans; eassumption.
Qed.

Lemma stable_sort_ordered l : ordered prec (stable_sort prec l).
Proof.
  induction l as [|x l IH]; simpl; [constructor|].
  apply insert_stable_ordered, IH.
Qed.

(** In an ordered list, everything from the first element that need not
    precede [x] on need not precede [x]. *)
Lemma ordered_tail_not_prec x s :
  ordered prec s -> (forall y, head s = Some y -> prec y x = false) ->
  Forall (fun y => prec y x = false) s.
Proof.
  intros Hs Hh. destruct Hs as [|y r Hr Hy]; [constructor|].
  pose proof (Hh y eq_refl) as E.
  constructor; [exact E|].
  eapply Forall_impl; [exact Hy|]. simpl. intros b Hb.
  eapply sw_negtrans; eassumption.
Qed.

Lemma insert_stable_split_ordered x s :
  ordered prec s ->
  exists s1 s2, s = s1 ++ s2 /\ insert_stable prec x s = s1 ++ x :: s2 /\
    Forall (fun y => prec y x = true) s1 /\
    Forall (fun y => prec y x = false) s2.
Proof.
  intros Hs.
  destruct (insert_stable_split x s) as (s1 & s2 & -> & E & H1 & H2).
  exists s1, s2. repeat split; try assumption.
  apply ordered_tail_not_prec; [|exact H2].
  unfold ordered in *. apply StronglySorted_app_1_r in Hs. exact Hs.
Qed.

(** Stability: elements that the order does not tell apart keep the
    order they had in the input. *)
Lemma stable_sort_stable (P : A -> Prop) `{!forall a, Decision (P a)} l :
  (forall a b, P a -> P b -> prec a b = false) ->
  filter P (stable_sort prec l) = filter P l.
Proof.
  intros HP. induction l as [|x l IH]; simpl; [reflexivity|].
  destruct (insert_stable_split x (stable_sort prec l))
    as (s1 & s2 & E & -> & H1 & _).
  rewrite filter_app, !filter_cons, <- IH, E, filter_app.
  destruct (decide (P x)) as [Hx|Hx]; [|reflexivity].
  assert (filter P s1 = []) as ->; [|reflexivity].
  apply filter_none. eapply Forall_impl; [exact H1|].
  simpl. intros y Hy Py. rewrite (HP y x Py Hx) in Hy. discriminate.
Qed.

(** The head of the sorted list: the first element of the input among
    those that nothing strictly precedes. *)
Lemma stable_sort_head l m :
  head (stable_sort prec l) = Some m ->
  exists l1 l2, l = l1 ++ m :: l2 /\
    Forall (fun y => prec m y = true) l1 /\
    Forall (fun y => prec y m = false) l2.
Proof.
  revert m. induction l as [|x l IH]; simpl; intros m; [discriminate|].
  destruct (stable_sort prec l) as [|m' r] eqn:Es; simpl.
  - intros [= <-]. exists [], l. repeat split; [constructor|].
    pose proof (stable_sort_perm l) as Hp. rewrite Es in Hp.
    apply Permutation_nil_l in Hp. subst l. constructor.
  - destruct (IH m' eq_refl) as (l1 & l2 & -> & H1 & H2).
    destruct (prec m' x) eqn:E; simpl; intros [= <-].
    + exists (x :: l1), l2. repeat split; [constructor|]; assumption.
    + exists [], (l1 ++ m' :: l2). repeat split; [constructor|].
      apply Forall_app. split; [|constructor].
      * eapply Forall_impl; [exact H1|]. simpl. intros y Hy.
        eapply sw_negtrans; [|exact E].
        eapply sw_asym; [exact _|exact Hy].
      * exact E.
      * eapply Forall_impl; [exact H2|]. simpl. intros y Hy.
        eapply sw_negtrans; eassumption.
Qed.
End StableSortFacts.

(** ** Scanning for the first hit *)

Section FirstSome.
Context {A B : Type} (f : A -> option B).

Lemma first_some_app xs ys :
  first_some f (xs ++ ys) =
  match first_some f xs with Some v => Some v | None => first_some f ys end.
Proof.
  induction xs as [|x xs IH]; simpl; [reflexivity|].
  destruct (f x); [reflexivity|exact IH].
Qed.

Lemma first_some_None xs :
  first_some f xs = None <-> Forall (fun y => f y = None) xs.
Proof.
  induction xs as [|x xs IH]; simpl.
  - split; [constructor|reflexivity].
  - rewrite Forall_cons. destruct (f x) eqn:E.
    + split; [discriminate|intros [? _]; discriminate].
    + rewrite IH. tauto.
Qed.

Lemma first_some_elem xs v :
  first_some f xs = Some v -> exists y, y ∈ xs /\ f y = Some v.
Proof.
  induction xs as [|x xs IH]; simpl; [discriminate|].
  destruct (f x) eqn:E.
  - intros [= <-]. exists x. split; [left|exact E].
  - intros H. destruct (IH H) as (y & Hy & Fy).
    exists y. split; [right; exact Hy|exact Fy].
Qed.

Lemma first_some_hit xs :
  first_some f xs = match first_some (hit f) xs with Some y => f y | None => None end.
Proof.
  induction xs as [|x xs IH]; simpl; [reflexivity|].
  unfold hit at 1. destruct (f x) eqn:E; [symmetry; exact E|exact IH].
Qed.

Lemma hit_Some y m : hit f y = Some m -> y = m /\ is_Some (f m).
Proof.
  unfold hit. destruct (f y) eqn:E; [|discriminate].
  intros [= <-]. split; [reflexivity|]. rewrite E. eexists. reflexivity.
Qed.

Lemma hit_None y : hit f y = None -> f y = None.
Proof. unfold hit. destruct (f y); [discriminate|reflexivity]. Qed.

Lemma first_some_perm_None xs ys :
  xs ≡ₚ ys -> first_some f xs = None -> first_some f ys = None.
Proof. intros Hp. rewrite !first_some_None, Hp. trivial. Qed.
End FirstSome.

Section LastHit.
Context {A B : Type} (prec : A -> A -> bool) `{!StrictWeak prec}.
Context (f : A -> option B).

(** Scanning the sorted list from its end: the scan stops at the one
    element with a hit that every other such element precedes, strictly
    if it comes later in the input. *)
Lemma last_hit_sorted l m :
  first_some (hit f) (reverse (stable_sort prec l)) = Some m ->
  exists l1 l2, l = l1 ++ m :: l2 /\ is_Some (f m) /\
    Forall (fun y => is_Some (f y) -> prec m y = false) l1 /\
    Forall (fun y => is_Some (f y) -> prec y m = true) l2.
Proof.
  revert m. induction l as [|x l IH]; simpl; intros m; [discriminate|].
  destruct (insert_stable_split_ordered prec x (stable_sort prec l)
              (stable_sort_ordered prec l)) as (s1 & s2 & E & -> & H1 & H2).
  rewrite E in IH. rewrite reverse_app in IH. rewrite reverse_app, reverse_cons.
  rewrite !first_some_app. setoid_rewrite first_some_app in IH.
  destruct (first_some (hit f) (reverse s2)) as [m2|] eqn:E2.
  - intros [= <-].
    destruct (IH m2 eq_refl) as (l1 & l2 & -> & Hm & F1 & F2).
    apply first_some_elem in E2 as (y & Hy & Hh).
    apply hit_Some in Hh as [-> _]. rewrite elem_of_reverse in Hy.
    exists (x :: l1), l2. repeat split; try assumption.
    constructor; [|exact F1]. intros _.
    rewrite Forall_forall in H2. apply H2, Hy.
  - simpl. destruct (hit f x) as [x'|] eqn:Hx.
    + intros [= <-]. apply hit_Some in Hx as [<- Hm].
      exists [], l. repeat split; [exact Hm|constructor|].
      apply Forall_forall. intros y Hy Fy.
      rewrite <- (stable_sort_perm prec l), E in Hy.
      apply elem_of_app in Hy as [Hy|Hy].
      * rewrite Forall_forall in H1. apply H1, Hy.
      * apply first_some_None in E2. rewrite Forall_forall in E2.
        rewrite <- elem_of_reverse in Hy. apply E2, hit_None in Hy.
        rewrite Hy in Fy. destruct Fy as [? [=]].
    + intros Hm. destruct (IH m Hm) as (l1 & l2 & -> & Hfm & F1 & F2).
      exists (x :: l1), l2. repeat split; try assumption.
      constructor; [|exact F1]. intros Fx.
      apply hit_None in Hx. rewrite Hx in Fx. destruct Fx as [? [=]].
Qed.

Lemma last_hit_none l :
  first_some f (reverse (stable_sort prec l)) = None <->
  Forall (fun y => f y = None) l.
Proof.
  rewrite first_some_None, reverse_Permutation, (stable_sort_perm prec l).
  reflexivity.
Qed.

(** The same for the value the scan returns. *)
Lemma last_value_sorted l v :
  first_some f (reverse (stable_sort prec l)) = Some v ->
  exists l1 m l2, l = l1 ++ m :: l2 /\ f m = Some v /\
    Forall (fun y => is_Some (f y) -> prec m y = false) l1 /\
    Forall (fun y => is_Some (f y) -> prec y m = true) l2.
Proof.
  rewrite first_some_hit.
  destruct (first_some (hit f) _) as [m|] eqn:E; [|discriminate].
  intros Hv. apply last_hit_sorted in E as (l1 & l2 & -> & _ & F1 & F2).
  exists l1, m, l2. repeat split; assumption.
Qed.
End LastHit.

(** ** The final ordering *)

Lemma filter_all {A} (P : A -> Prop) `{!forall a, Decision (P a)} (l : list A) :
  Forall P l -> filter P l = l.
Proof.
  induction 1 as [|y l Hy _ IH]; [reflexivity|].
  rewrite filter_cons_True by exact Hy. rewrite IH. reflexivity.
Qed.

Lemma StronglySorted_filter' {A} (Rel : relation A) (P : A -> Prop)
    `{!forall a, Decision (P a)} (l : list A) :
  StronglySorted Rel l -> StronglySorted Rel (filter P l).
Proof.
  induction 1 as [|y l Hl IH Hy]; [constructor|].
  rewrite filter_cons. destruct (decide (P y)); [|exact IH].
  constructor; [exact IH|].
  apply Forall_forall. intros b Hb. apply list_elem_of_filter in Hb as [_ Hb].
  rewrite Forall_forall in Hy. apply Hy, Hb.
Qed.

Lemma StronglySorted_on {A} (R1 R2 : relation A) (P : A -> Prop) (l : list A) :
  (forall a b, P a -> P b -> R1 a b -> R2 a b) ->
  Forall P l -> StronglySorted R1 l -> StronglySorted R2 l.
Proof.
  intros Himp HP. induction 1 as [|y l Hl IH Hy]; [constructor|].
  apply Forall_cons in HP as [Py HP].
  constructor; [apply IH, HP|].
  rewrite Forall_forall in Hy, HP |- *. intros b Hb.
  apply Himp; auto.
Qed.

Section Partition.
Context {A : Type} (prec : A -> A -> bool).
Context (P : A -> Prop) `{!forall a, Decision (P a)}.

(** An ordered list in which every [P] strictly precedes every non-[P]
    is its [P]s followed by its non-[P]s. *)
Lemma ordered_partition s :
  ordered prec s ->
  (forall a b, ~ P a -> P b -> prec b a = true) ->
  s = filter P s ++ filter (fun a => ~ P a) s.
Proof.
  intros Hs HP. induction Hs as [|y r Hr IH Hy]; [reflexivity|].
  rewrite !filter_cons.
  destruct (decide (P y)) as [Py|Py]; destruct (decide (~ P y)) as [Ny|Ny];
    try tauto.
  - simpl. f_equal. exact IH.
  - assert (Forall (fun a => ~ P a) r) as Hn.
    { eapply Forall_impl; [exact Hy|]. simpl. intros b Hb Pb.
      rewrite (HP y b Py Pb) in Hb. discriminate. }
    rewrite (filter_none P r Hn), (filter_all _ r Hn). reflexivity.
Qed.
End Partition.

Lemma stable_sort_fmap {A B} (g : A -> B) (precA : A -> A -> bool)
    (precB : B -> B -> bool) (l : list A) :
  (forall a b, precB (g a) (g b) = precA a b) ->
  stable_sort precB (g <$> l) = g <$> stable_sort precA l.
Proof.
  intros Hg.
  assert (forall x s, insert_stable precB (g x) (g <$> s)
                      = g <$> insert_stable precA x s) as Hins.
  { intros x s. induction s as [|y r IH]; [reflexivity|].
    rewrite fmap_cons. cbn [insert_stable].
    rewrite Hg. destruct (precA y x); [|reflexivity].
    rewrite fmap_cons, IH. reflexivity. }
  induction l as [|x l IH]; [reflexivity|].
  rewrite fmap_cons. cbn [stable_sort]. rewrite IH. apply Hins.
Qed.

Lemma zip_decorate {A K} (key : A -> K) (l : list A) :
  zip (key <$> l) l = (fun r => (key r, r)) <$> l.
Proof.
  induction l as [|x l IH]; [reflexivity|].
  rewrite !fmap_cons. cbn [zip zip_with]. f_equal. exact IH.
Qed.

Lemma strptime_date_raises text e : strptime_date text = Raise e -> e = ValueError.
Proof.
  unfold strptime_date.
  destruct (Strptime.re_match text) as [[[[d m] y] rest]|]; [|congruence].
  destruct (negb (PyStr.is_empty rest)); [congruence|].
  destruct (Strptime.valid_date y m d); congruence.
Qed.

Lemma sort_key_total entry : sort_key entry = Ok (order_key entry).
Proof.
  unfold sort_key, order_key, parsed_date.
  destruct (clean_str _) as [value|]; [|reflexivity].
  destruct (strptime_date value) as [d|e] eqn:E; [reflexivity|].
  apply strptime_date_raises in E. subst e. reflexivity.
Qed.

Lemma for_keys_total merged : for_keys sort_key merged = Ok (order_key <$> merged).
Proof.
  induction merged as [|x l IH]; simpl; [reflexivity|].
  rewrite sort_key_total, IH. reflexivity.
Qed.

Lemma sort_merged_eq merged :
  sort_merged merged = Ok (py_sorted tuple_lt order_key false merged).
Proof.
  unfold sort_merged, py_sorted. rewrite for_keys_total. simpl.
  f_equal. rewrite zip_decorate.
  rewrite (stable_sort_fmap (fun r => (order_key r, r))
             (fun y x => tuple_lt (order_key y) (order_key x)))
    by reflexivity.
  rewrite <- list_fmap_compose. apply list_fmap_id.
Qed.

Lemma parsed_date_absent entry : parsed_date (absent_date entry) = None.
Proof.
  unfold parsed_date, absent_date, dict_get.
  rewrite lookup_insert_eq. reflexivity.
Qed.

Lemma order_key_erase entry : order_key (erase_malformed entry) = order_key entry.
Proof.
  unfold erase_malformed. destruct (parsed_date entry) eqn:E; [reflexivity|].
  unfold order_key. rewrite parsed_date_absent, E. reflexivity.
Qed.

Lemma order_key_valid entry d : order_key entry = (0, d) <-> parsed_date entry = Some d.
Proof.
  unfold order_key. destruct (parsed_date entry); split; congruence.
Qed.

(** C5. The final ordering never fails, and what it gives is: first the
    records with a date that parses, ascending by that date, records with
    the same date in their input order; then the records whose date is
    absent or does not parse, in their input order. *)
Theorem sort_merged_valid_dates_first_stable (merged : list dict) :
  exists dated,
    sort_merged merged
      = Ok (dated ++ filter (fun r => parsed_date r = None) merged) /\
    dated ≡ₚ filter (fun r => is_Some (parsed_date r)) merged /\
    StronglySorted date_le dated /\
    (forall d, filter (fun r => parsed_date r = Some d) dated
               = filter (fun r => parsed_date r = Some d) merged).
Proof.
  set (prec := fun y x : dict => tuple_lt (order_key y) (order_key x)).
  assert (StrictWeak prec) as Hsw by exact (by_key_sw tuple_lt order_key false).
  set (sorted := stable_sort prec merged).
  set (valid := fun r : dict => is_Some (parsed_date r)).
  assert (forall r, ~ valid r <-> parsed_date r = None) as Hinv.
  { intros r. unfold valid. rewrite <- eq_None_not_Some. reflexivity. }
  assert (sorted = filter valid sorted
                   ++ filter (fun r => parsed_date r = None) merged) as Hsplit.
  { rewrite (ordered_partition prec valid sorted) at 1.
    - f_equal. rewrite (list_filter_iff _ (fun r => parsed_date r = None)) by exact Hinv.
      apply (stable_sort_stable prec). intros a b Ha Hb.
      unfold prec, order_key. rewrite Ha, Hb. reflexivity.
    - apply stable_sort_ordered, Hsw.
    - intros a b Ha [d Hb]. apply Hinv in Ha.
      unfold prec, order_key. rewrite Ha, Hb. reflexivity. }
  exists (filter valid sorted). repeat split.
  - rewrite sort_merged_eq. unfold py_sorted. fold prec. fold sorted.
    f_equal. exact Hsplit.
  - unfold sorted. rewrite (stable_sort_perm prec merged). reflexivity.
  - apply (StronglySorted_on (fun a b => prec b a = false) _ valid).
    + intros a b [da Ha] [db Hb] Hab. exists da, db. repeat split; try assumption.
      unfold prec, order_key, tuple_lt in Hab. rewrite Ha, Hb in Hab.
      simpl in Hab. exact Hab.
    + apply Forall_forall. intros r Hr.
      apply list_elem_of_filter in Hr as [Hr _]. exact Hr.
    + apply StronglySorted_filter', (stable_sort_ordered prec merged).
  - intros d. rewrite list_filter_filter.
    rewrite (list_filter_iff _ (fun r => parsed_date r = Some d)).
    + apply (stable_sort_stable prec). intros a b Ha Hb.
      unfold prec, order_key. rewrite Ha, Hb. unfold tuple_lt. simpl.
      apply sw_irrefl.
    + intros r. unfold valid. split; [tauto|].
      intros Hr. split; [exact Hr|]. rewrite Hr. eexists. reflexivity.
Qed.

Lemma malformed_date_unparsed entry : malformed_date entry -> parsed_date entry = None.
Proof.
  intros (text & Hv & Hp). unfold parsed_date. rewrite Hv.
  destruct (clean_str (VStr text)) as [value|] eqn:E; [|reflexivity].
  apply clean_str_Some in E as [-> _]. simpl.
  destruct (strptime_date (PyStr.strip text)) as [d|e]; [|reflexivity].
  destruct (Hp d eq_refl).
Qed.

(** C6. The ordering step is total: it returns a list for every list of
    records, whatever their dates.  A record whose date is a text that
    does not parse gets the sort key of the same record without a date,
    and taking such dates away before or after the ordering comes to the
    same. *)
Theorem sort_merged_total_malformed_as_absent :
  (forall merged, exists sorted, sort_merged merged = Ok sorted) /\
  (forall entry, malformed_date entry ->
     sort_key entry = Ok (1, datetime_min) /\
     sort_key entry = sort_key (absent_date entry)) /\
  (forall merged : list dict,
     sort_merged (erase_malformed <$> merged)
     = sort_merged merged ≫=
         fun sorted : list dict => Ok (erase_malformed <$> sorted)).
Proof.
  split; [|split].
  - intros merged. rewrite sort_merged_eq. eexists. reflexivity.
  - intros entry Hm. apply malformed_date_unparsed in Hm.
    rewrite !sort_key_total. unfold order_key.
    rewrite Hm, parsed_date_absent. split; reflexivity.
  - intros merged. rewrite !sort_merged_eq. simpl. f_equal.
    unfold py_sorted. apply stable_sort_fmap.
    intros a b. rewrite !order_key_erase. reflexivity.
Qed.

(** The sort key of a record dated "31.02.2026", a day that does not
    exist, is the one of a record without a date. *)
Lemma sort_merged_total_malformed_as_absent_witness :
  malformed_date (rec_dated "ABC GmbH" "31.02.2026") /\
  sort_key (rec_dated "ABC GmbH" "31.02.2026") = Ok (1, datetime_min) /\
  sort_key (rec_dated "ABC GmbH" "31.02.2026")
  = sort_key (absent_date (rec_dated "ABC GmbH" "31.02.2026")).
Proof.
  assert (malformed_date (rec_dated "ABC GmbH" "31.02.2026")) as Hm.
  { exists "31.02.2026". split; [reflexivity|]. intros parsed. vm_compute. discriminate. }
  split; [exact Hm|].
  exact (proj1 (proj2 sort_merged_total_malformed_as_absent) _ Hm).
Defined.

(** ** The merge of one group *)

Lemma prompt_job_title_heap name w :
  w_heap (prompt_job_title name w).2 = w_heap w.
Proof.
  unfold prompt_job_title, mbind, M_bind, print, input, mret, M_ret. simpl.
  destruct (w_stdin w) as [|line rest]; simpl; [reflexivity|].
  destruct (negb _); reflexivity.
Qed.

(** What a successful run of the loop body says about each output field. *)
Lemma merge_group_Ok entries w out w' :
  merge_group entries w = (Ok out, w') ->
  let h := w_heap w in
  let newest_first := py_sorted datetime_lt (received h) true entries in
  let oldest_first := reverse newest_first in
  exists latest job_title,
    head newest_first = Some latest /\
    w_heap w' = h /\
    out !! R.EMPLOYER_NAME = Some (of_opt (or_else
      (first_non_null h oldest_first R.EMPLOYER_NAME)
      (clean_str (field_of h latest R.EMPLOYER_NAME)))) /\
    out !! R.RESULT = Some (field_of h latest R.RESULT) /\
    out !! R.CONTACT_PERSON = Some (of_opt (or_else
      (first_non_null h oldest_first R.CONTACT_PERSON)
      (clean_str (field_of h latest R.CONTACT_PERSON)))) /\
    out !! R.APPLIED_POSITION = Some (of_opt job_title) /\
    (forall title, or_else (first_non_null h oldest_first R.APPLIED_POSITION)
       (clean_str (field_of h latest R.APPLIED_POSITION)) = Some title ->
       job_title = Some title) /\
    out !! R.POSTAL_ADDRESS = Some (of_opt (or_else
      (first_non_null h oldest_first R.POSTAL_ADDRESS)
      (clean_str (field_of h latest R.POSTAL_ADDRESS)))) /\
    out !! R.FIRST_CONTACT_DATE = Some
      match earliest_valid_received_datetime h newest_first with
      | Some dt => VStr (strftime_date dt)
      | None => VNone
      end.
Proof.
  intros H h nf oldf.
  unfold merge_group in H. unfold mbind at 1, M_bind at 1, read_heap in H.
  unfold mbind at 1, M_bind at 1 in H.
  fold h in H. fold nf in H. fold oldf in H.
  destruct nf as [|latest rest] eqn:Enf; simpl in H; [discriminate|].
  unfold mbind, M_bind in H.
  destruct (or_else (first_non_null h oldf R.APPLIED_POSITION)
              (clean_str (field_of h latest R.APPLIED_POSITION)))
    as [title|] eqn:Et.
  - unfold mret, M_ret in H. injection H as <- <-.
    exists latest, (Some title).
    destruct (earliest_valid_received_datetime h (latest :: rest));
      repeat split; try (by simplify_map_eq); intros; congruence.
  - match type of H with
    | context [prompt_job_title ?n w] =>
        pose proof (prompt_job_title_heap n w) as Hh;
        destruct (prompt_job_title n w) as [[job_title|e] w1]; [|discriminate]
    end.
    unfold mret, M_ret in H. injection H as <- <-.
    exists latest, job_title.
    destruct (earliest_valid_received_datetime h (latest :: rest));
      repeat split; try (by simplify_map_eq); try exact Hh;
      intros title Ht; rewrite Et in Ht; discriminate.
Qed.

#[global] Instance newer_sw h : StrictWeak (newer h).
Proof. exact (by_key_sw datetime_lt (received h) true). Qed.

Lemma newest_first_eq h entries :
  py_sorted datetime_lt (received h) true entries = stable_sort (newer h) entries.
Proof. reflexivity. Qed.

Lemma head_elem {A} (l : list A) x : head l = Some x -> x ∈ l.
Proof. destruct l; simpl; [discriminate|]. intros [= <-]. left. Qed.

(** The fallback to the newest observation never finds anything the scan
    has missed, as the newest observation is one of those scanned. *)
Lemma fallback_redundant h scanned latest field :
  latest ∈ scanned ->
  or_else (first_non_null h scanned field) (clean_str (field_of h latest field))
  = first_non_null h scanned field.
Proof.
  intros Hl. unfold first_non_null.
  destruct (first_some _ _) as [v|] eqn:E; [reflexivity|]. simpl.
  apply first_some_None in E. rewrite Forall_forall in E.
  apply E, Hl.
Qed.

(** C3. The result of the merged record is the result of the newest
    observation of the group, as it stands: the observation [latest] such
    that every observation before it in the input is strictly older and no
    observation after it is newer. *)
Theorem merge_group_result_newest_verbatim entries w out w' :
  merge_group entries w = (Ok out, w') ->
  exists l1 latest l2, entries = l1 ++ latest :: l2 /\
    Forall (fun e => datetime_lt (received (w_heap w) e)
                                 (received (w_heap w) latest) = true) l1 /\
    Forall (fun e => datetime_lt (received (w_heap w) latest)
                                 (received (w_heap w) e) = false) l2 /\
    out !! R.RESULT = Some (field_of (w_heap w) latest R.RESULT).
Proof.
  intros H. apply merge_group_Ok in H.
  destruct H as (latest & job_title & Hhead & _ & _ & Hres & _).
  rewrite newest_first_eq in Hhead.
  apply (stable_sort_head (newer (w_heap w))) in Hhead
    as (l1 & l2 & -> & H1 & H2).
  exists l1, latest, l2. repeat split; assumption.
Qed.

(** The two cases of the first contact date. *)
Lemma first_contact_date_cases entries w out w' :
  merge_group entries w = (Ok out, w') ->
  let h := w_heap w in
  (Forall (fun e => received h e = datetime_min) entries /\
   out !! R.FIRST_CONTACT_DATE = Some VNone)
  \/
  (exists m, m ∈ entries /\
     field_of h m R.RECEIVED_DATETIME = VDatetime (received h m) /\
     received h m <> datetime_min /\
     Forall (fun e => received h e <> datetime_min ->
                      datetime_lt (received h e) (received h m) = false) entries /\
     out !! R.FIRST_CONTACT_DATE = Some (VStr (strftime_date (received h m)))).
Proof.
  intros H h. apply merge_group_Ok in H. fold h in H.
  destruct H as (latest & job_title & _ & _ & _ & _ & _ & _ & _ & _ & Hd).
  rewrite newest_first_eq in Hd. unfold earliest_valid_received_datetime in Hd.
  set (f := fun entry : loc =>
              let dt := received h entry in
              if decide (dt <> datetime_min) then Some dt else None) in Hd.
  assert (forall e, f e = None <-> received h e = datetime_min) as HfN.
  { intros e. unfold f. simpl. destruct (decide _) as [Hne|Heq].
    - split; [discriminate|]. intros Heq. destruct (Hne Heq).
    - apply dec_stable in Heq. split; [intros _; exact Heq|reflexivity]. }
  assert (forall e v, f e = Some v -> v = received h e /\ received h e <> datetime_min)
    as HfS.
  { intros e v. unfold f. simpl. destruct (decide _) as [Hne|Heq]; [|discriminate].
    intros [= <-]. split; [reflexivity|exact Hne]. }
  destruct (first_some f (reverse (stable_sort (newer h) entries))) as [dt|] eqn:E.
  - apply (last_value_sorted (newer h)) in E as (l1 & m & l2 & -> & Hm & F1 & F2).
    apply HfS in Hm as [-> Hne].
    right. exists m. split; [|split; [|split; [|split]]].
    + apply elem_of_app. right. left.
    + unfold received, sort_key_received_datetime, field_of in *.
      destruct (dict_get (deref h m) R.RECEIVED_DATETIME); congruence.
    + exact Hne.
    + assert (forall e, received h e <> datetime_min -> is_Some (f e)) as Hs.
      { intros e He. destruct (f e) eqn:Fe; [eexists; reflexivity|].
        apply HfN in Fe. destruct (He Fe). }
      apply Forall_app. split; [|constructor].
      * eapply Forall_impl; [exact F1|]. simpl. intros e He Hr. apply He, Hs, Hr.
      * intros _. apply sw_irrefl.
      * eapply Forall_impl; [exact F2|]. simpl. intros e He Hr.
        eapply (sw_asym datetime_lt). apply He, Hs, Hr.
    + exact Hd.
  - left. split; [|exact Hd].
    apply (last_hit_none (newer h)) in E.
    eapply Forall_impl; [exact E|]. intros e. apply HfN.
Qed.

Lemma unpadded_four_digits y : 1000 <= y -> Fmt.unpadded y = Fmt.pad4 y.
Proof.
  intros Hy. unfold Fmt.unpadded.
  rewrite !(proj2 (Z.ltb_ge _ _)) by lia. reflexivity.
Qed.

Lemma received_of_timestamp h e dt :
  field_of h e R.RECEIVED_DATETIME = VDatetime dt -> received h e = dt.
Proof.
  unfold received, sort_key_received_datetime, field_of. intros ->. reflexivity.
Qed.

Lemma received_without_timestamp h e :
  is_datetime (field_of h e R.RECEIVED_DATETIME) = false -> received h e = datetime_min.
Proof.
  unfold received, sort_key_received_datetime, field_of.
  destruct (dict_get (deref h e) R.RECEIVED_DATETIME); simpl; congruence.
Qed.

(** C4. The first contact date of the merged record. When some
    observation of the group carries a timestamp other than [datetime.min],
    it is the earliest such timestamp, one that an observation really
    carries, as [strftime] writes it in [DATE_FORMAT]: from the year 1000
    on that is two-digit day, two-digit month and four-digit year with
    dots between. When every effective timestamp of the group is
    [datetime.min], and so when no observation carries a timestamp, it is
    absent. *)
Theorem merge_group_first_contact_date_earliest_real entries w out w' :
  merge_group entries w = (Ok out, w') ->
  let h := w_heap w in
  ((exists e dt, e ∈ entries /\ field_of h e R.RECEIVED_DATETIME = VDatetime dt /\
                 dt <> datetime_min) ->
   exists m, m ∈ entries /\
     field_of h m R.RECEIVED_DATETIME = VDatetime (received h m) /\
     received h m <> datetime_min /\
     Forall (fun e => received h e <> datetime_min ->
                      datetime_lt (received h e) (received h m) = false) entries /\
     out !! R.FIRST_CONTACT_DATE = Some (VStr (strftime_date (received h m))) /\
     (1000 <= year (received h m) ->
      out !! R.FIRST_CONTACT_DATE = Some (VStr (
        Fmt.pad2 (day (received h m)) +:+ "." +:+
        Fmt.pad2 (month (received h m)) +:+ "." +:+
        Fmt.pad4 (year (received h m)))))) /\
  (Forall (fun e => received h e = datetime_min) entries ->
   out !! R.FIRST_CONTACT_DATE = Some VNone) /\
  (Forall (fun e => is_datetime (field_of h e R.RECEIVED_DATETIME) = false) entries ->
   out !! R.FIRST_CONTACT_DATE = Some VNone).
Proof.
  intros H h. pose proof (first_contact_date_cases _ _ _ _ H) as D. fold h in D.
  assert (Forall (fun e => received h e = datetime_min) entries ->
          out !! R.FIRST_CONTACT_DATE = Some VNone) as Hmin.
  { intros Hall. destruct D as [[_ Hd]|(m & Hm & _ & Hne & _)]; [exact Hd|].
    rewrite Forall_forall in Hall. destruct (Hne (Hall m Hm)). }
  split; [|split].
  - intros (e & dt & He & Hdt & Hne).
    destruct D as [[Hall _]|(m & Hm & Hts & Hreal & Hearliest & Hd)].
    + rewrite Forall_forall in Hall. apply received_of_timestamp in Hdt.
      rewrite (Hall e He) in Hdt. congruence.
    + exists m. repeat (split; [assumption|]).
      intros Hy. rewrite Hd. unfold strftime_date.
      rewrite (unpadded_four_digits _ Hy). reflexivity.
  - exact Hmin.
  - intros Hall. apply Hmin. eapply Forall_impl; [exact Hall|].
    intros e. apply received_without_timestamp.
Qed.

(** The scan of one field, oldest first as the merge has it: nothing when
    no observation has the field; otherwise the value of the observation
    [m] that has it with the earliest timestamp, the last such in the
    input. *)
Lemma first_non_null_oldest h entries field :
  let found := first_non_null h (reverse (stable_sort (newer h) entries)) field in
  (found = None /\ Forall (fun e => clean_str (field_of h e field) = None) entries)
  \/
  (exists l1 m l2 v, entries = l1 ++ m :: l2 /\ found = Some v /\
     clean_str (field_of h m field) = Some v /\
     Forall (fun e => is_Some (clean_str (field_of h e field)) ->
                      datetime_lt (received h e) (received h m) = false) l1 /\
     Forall (fun e => is_Some (clean_str (field_of h e field)) ->
                      datetime_lt (received h m) (received h e) = true) l2).
Proof.
  intros found. unfold first_non_null in found.
  destruct found as [v|] eqn:E; subst found.
  - right. apply (last_value_sorted (newer h)) in E
      as (l1 & m & l2 & -> & Hm & F1 & F2).
    exists l1, m, l2, v. repeat split; assumption.
  - left. split; [reflexivity|]. apply (last_hit_none (newer h)) in E. exact E.
Qed.

(** C2, as the code has it. For each identity field: when no observation
    of the group has a usable value the merged field is absent (for
    applied_position: whatever the prompt gave); otherwise it is the
    cleaned value of the observation [m] with a usable value and the
    earliest effective timestamp, and among several such with the same
    timestamp the one that comes last in the input. *)
Theorem merge_group_identity_oldest_ties_last field entries w out w' :
  field ∈ identity_fields ->
  merge_group entries w = (Ok out, w') ->
  let h := w_heap w in
  (Forall (fun e => clean_str (field_of h e field) = None) entries /\
   (field <> R.APPLIED_POSITION -> out !! field = Some VNone))
  \/
  (exists l1 m l2 v, entries = l1 ++ m :: l2 /\
     clean_str (field_of h m field) = Some v /\
     out !! field = Some (VStr v) /\
     Forall (fun e => is_Some (clean_str (field_of h e field)) ->
                      datetime_lt (received h e) (received h m) = false) l1 /\
     Forall (fun e => is_Some (clean_str (field_of h e field)) ->
                      datetime_lt (received h m) (received h e) = true) l2).
Proof.
  intros Hf H h. apply merge_group_Ok in H. fold h in H.
  destruct H as (latest & job_title & Hhead & _ & Hen & _ & Hcp & Hap & Hjt & Hpa & _).
  rewrite newest_first_eq in *.
  assert (latest ∈ reverse (stable_sort (newer h) entries)) as Hin
    by (apply elem_of_reverse, head_elem, Hhead).
  rewrite (fallback_redundant h _ latest _ Hin) in Hen.
  rewrite (fallback_redundant h _ latest _ Hin) in Hcp.
  rewrite (fallback_redundant h _ latest _ Hin) in Hpa.
  setoid_rewrite (fallback_redundant h _ latest _ Hin) in Hjt.
  destruct (first_non_null_oldest h entries field)
    as [[Hn Hall]|(l1 & m & l2 & v & E & Hv & Hm & F1 & F2)].
  - left. split; [exact Hall|]. intros Hne.
    unfold identity_fields in Hf.
    repeat (apply elem_of_cons in Hf as [->|Hf]);
      try (rewrite Hn in *; assumption); try congruence.
    apply elem_of_nil in Hf. destruct Hf.
  - right. exists l1, m, l2, v. repeat split; try assumption.
    unfold identity_fields in Hf.
    repeat (apply elem_of_cons in Hf as [->|Hf]);
      try (rewrite Hv in *; assumption).
    + rewrite (Hjt v Hv) in Hap. exact Hap.
    + apply elem_of_nil in Hf. destruct Hf.
Qed.

Lemma for_collect_ext {A B} (f g : A -> M B) xs :
  (forall x w, f x w = g x w) -> forall w, for_collect f xs w = for_collect g xs w.
Proof.
  intros Hfg. induction xs as [|x xs IH]; intros w; simpl; [reflexivity|].
  unfold mbind, M_bind. rewrite Hfg.
  destruct (g x w) as [[y|e] w1]; [|reflexivity].
  rewrite IH. reflexivity.
Qed.

Lemma merge_group_simplified_eq entries w :
  merge_group entries w = merge_group_simplified entries w.
Proof.
  cbv [merge_group merge_group_simplified mbind M_bind read_heap index0].
  destruct (py_sorted datetime_lt (received (w_heap w)) true entries)
    as [|latest rest]; [reflexivity|].
  cbv [mret M_ret].
  assert (latest ∈ reverse (latest :: rest)) as Hin
    by (apply elem_of_reverse; left).
  rewrite !(fallback_redundant (w_heap w) _ latest R.EMPLOYER_NAME Hin).
  rewrite !(fallback_redundant (w_heap w) _ latest R.CONTACT_PERSON Hin).
  rewrite !(fallback_redundant (w_heap w) _ latest R.POSTAL_ADDRESS Hin).
  reflexivity.
Qed.

(** C8. Dropping the fallback to the newest observation for employer_name,
    contact_person and postal_address changes nothing: the merge of a
    group and the whole run give the same result, the same console
    traffic and the same final dicts, on every input. *)
Theorem fallback_to_newest_redundant :
  (forall entries w, merge_group entries w = merge_group_simplified entries w) /\
  (forall prefix results include_role_in_key w,
     dedupe_and_merge_results prefix results include_role_in_key w
     = dedupe_and_merge_results_simplified prefix results include_role_in_key w).
Proof.
  split; [exact merge_group_simplified_eq|].
  intros prefix results incl w.
  unfold dedupe_and_merge_results, dedupe_and_merge_results_simplified.
  destruct results as [|r rs]; [reflexivity|].
  unfold mbind, M_bind.
  destruct (for_each normalize_received (r :: rs) w) as [[[]|e] w1]; [|reflexivity].
  unfold read_heap.
  rewrite (for_collect_ext _ (fun '(_, entries) => merge_group_simplified entries));
    [reflexivity|].
  intros [key entries] w2. apply merge_group_simplified_eq.
Qed.

(** ** The claims on the cases of the test suite *)

Example tc1_merge_group :
  merge_group [0%nat; 1%nat] tc1_world = (Ok tc1_merged, tc1_world).
Proof. vm_compute. reflexivity. Qed.

Lemma merge_group_result_newest_verbatim_witness :
  merge_group [0%nat; 1%nat] tc1_world = (Ok tc1_merged, tc1_world) /\
  exists l1 latest l2, [0%nat; 1%nat] = l1 ++ latest :: l2 /\
    Forall (fun e => datetime_lt (received (w_heap tc1_world) e)
                                 (received (w_heap tc1_world) latest) = true) l1 /\
    Forall (fun e => datetime_lt (received (w_heap tc1_world) latest)
                                 (received (w_heap tc1_world) e) = false) l2 /\
    tc1_merged !! R.RESULT = Some (field_of (w_heap tc1_world) latest R.RESULT).
Proof.
  assert (merge_group [0%nat; 1%nat] tc1_world = (Ok tc1_merged, tc1_world)) as H
    by (vm_compute; reflexivity).
  split; [exact H|].
  exact (merge_group_result_newest_verbatim _ _ _ _ H).
Defined.

Lemma merge_group_first_contact_date_earliest_real_witness :
  merge_group [0%nat; 1%nat] tc1_world = (Ok tc1_merged, tc1_world) /\
  (exists e dt, e ∈ [0%nat; 1%nat] /\
     field_of (w_heap tc1_world) e R.RECEIVED_DATETIME = VDatetime dt /\
     dt <> datetime_min) /\
  tc1_merged !! R.FIRST_CONTACT_DATE = Some (VStr "06.01.2026") /\
  exists m, m ∈ [0%nat; 1%nat] /\
    field_of (w_heap tc1_world) m R.RECEIVED_DATETIME
      = VDatetime (received (w_heap tc1_world) m) /\
    received (w_heap tc1_world) m <> datetime_min /\
    Forall (fun e => received (w_heap tc1_world) e <> datetime_min ->
                     datetime_lt (received (w_heap tc1_world) e)
                                 (received (w_heap tc1_world) m) = false)
           [0%nat; 1%nat] /\
    tc1_merged !! R.FIRST_CONTACT_DATE
      = Some (VStr (strftime_date (received (w_heap tc1_world) m))) /\
    (1000 <= year (received (w_heap tc1_world) m) ->
     tc1_merged !! R.FIRST_CONTACT_DATE = Some (VStr (
       Fmt.pad2 (day (received (w_heap tc1_world) m)) +:+ "." +:+
       Fmt.pad2 (month (received (w_heap tc1_world) m)) +:+ "." +:+
       Fmt.pad4 (year (received (w_heap tc1_world) m))))).
Proof.
  assert (merge_group [0%nat; 1%nat] tc1_world = (Ok tc1_merged, tc1_world)) as H
    by (vm_compute; reflexivity).
  assert (exists e dt, e ∈ [0%nat; 1%nat] /\
     field_of (w_heap tc1_world) e R.RECEIVED_DATETIME = VDatetime dt /\
     dt <> datetime_min) as Hex.
  { exists 0%nat, (mk_datetime 2026 1 6 9 0 0 0).
    split; [left|]. split; [vm_compute; reflexivity|discriminate]. }
  split; [exact H|]. split; [exact Hex|]. split; [vm_compute; reflexivity|].
  exact (proj1 (merge_group_first_contact_date_earliest_real _ _ _ _ H) Hex).
Defined.

Lemma merge_group_identity_oldest_ties_last_witness :
  R.APPLIED_POSITION ∈ identity_fields /\
  merge_group [0%nat; 1%nat] tc1_world = (Ok tc1_merged, tc1_world) /\
  tc1_merged !! R.APPLIED_POSITION = Some (VStr "Backend Developer") /\
  ((Forall (fun e => clean_str (field_of (w_heap tc1_world) e R.APPLIED_POSITION)
                     = None) [0%nat; 1%nat] /\
    (R.APPLIED_POSITION <> R.APPLIED_POSITION ->
     tc1_merged !! R.APPLIED_POSITION = Some VNone))
   \/
   (exists l1 m l2 v, [0%nat; 1%nat] = l1 ++ m :: l2 /\
      clean_str (field_of (w_heap tc1_world) m R.APPLIED_POSITION) = Some v /\
      tc1_merged !! R.APPLIED_POSITION = Some (VStr v) /\
      Forall (fun e =>
        is_Some (clean_str (field_of (w_heap tc1_world) e R.APPLIED_POSITION)) ->
        datetime_lt (received (w_heap tc1_world) e)
                    (received (w_heap tc1_world) m) = false) l1 /\
      Forall (fun e =>
        is_Some (clean_str (field_of (w_heap tc1_world) e R.APPLIED_POSITION)) ->
        datetime_lt (received (w_heap tc1_world) m)
                    (received (w_heap tc1_world) e) = true) l2)).
Proof.
  assert (R.APPLIED_POSITION ∈ identity_fields) as Hf
    by (unfold identity_fields; set_solver).
  assert (merge_group [0%nat; 1%nat] tc1_world = (Ok tc1_merged, tc1_world)) as H
    by (vm_compute; reflexivity).
  split; [exact Hf|]. split; [exact H|]. split; [vm_compute; reflexivity|].
  exact (merge_group_identity_oldest_ties_last _ _ _ _ _ Hf H).
Defined.

(** C2 as it is worded fails. Two observations of one employer, neither
    with a timestamp, the first naming "Backend Developer" and the second
    "Software Engineer": scanned oldest to newest with equal timestamps in
    input order the first usable value is "Backend Developer", but the
    merged record, of the group and of the whole run, has
    "Software Engineer". *)
Lemma identity_ties_in_input_order_counterexample :
  merge_group [0%nat; 1%nat] tie_world = (Ok tie_merged, tie_world) /\
  (dedupe_and_merge_results sample_prefix [0%nat; 1%nat] false tie_world).1
    = Ok [tie_merged] /\
  tie_merged !! R.APPLIED_POSITION = Some (VStr "Software Engineer") /\
  first_non_null (w_heap tie_world)
    (oldest_first_ties_in_input_order (w_heap tie_world) [0%nat; 1%nat])
    R.APPLIED_POSITION = Some "Backend Developer".
Proof. repeat split; vm_compute; reflexivity. Qed.

(** ** What the run writes into the input *)

Lemma written_back_idem entry : written_back (written_back entry) = written_back entry.
Proof.
  unfold written_back.
  destruct (is_datetime (dict_get entry R.RECEIVED_DATETIME)) eqn:E.
  - rewrite E. reflexivity.
  - unfold dict_get. rewrite lookup_insert_eq. reflexivity.
Qed.

Lemma written_back_other entry key :
  key <> R.RECEIVED_DATETIME -> written_back entry !! key = entry !! key.
Proof.
  intros Hk. unfold written_back. destruct (is_datetime _); [reflexivity|].
  apply lookup_insert_ne. congruence.
Qed.

Lemma written_back_received entry :
  written_back entry !! R.RECEIVED_DATETIME =
  if is_datetime (dict_get entry R.RECEIVED_DATETIME)
  then entry !! R.RECEIVED_DATETIME
  else Some (VDatetime datetime_min).
Proof.
  unfold written_back. destruct (is_datetime _); [reflexivity|].
  apply lookup_insert_eq.
Qed.

Lemma normalize_heap_lookup results h l :
  normalize_heap results h !! l =
  if decide (l ∈ results) then written_back <$> h !! l else h !! l.
Proof.
  unfold normalize_heap. revert h.
  induction results as [|r rs IH]; intros h; simpl.
  - destruct (decide (l ∈ [])) as [Hin|_]; [|reflexivity].
    apply elem_of_nil in Hin. destruct Hin.
  - rewrite IH, lookup_alter.
    destruct (decide (l ∈ rs)) as [Hrs|Hrs];
      destruct (decide (r = l)) as [->|Hne];
      destruct (decide (l ∈ _ :: rs)) as [Hin|Hin];
      try reflexivity;
      try (exfalso; apply Hin; rewrite elem_of_cons; auto; fail).
    + rewrite <- option_fmap_compose. apply option_fmap_ext.
      intros d. apply written_back_idem.
    + apply elem_of_cons in Hin as [->|Hin]; [congruence|tauto].
Qed.

Lemma normalize_received_step result w :
  normalize_received result w =
  (Ok tt, mk_world (alter written_back result (w_heap w)) (w_stdin w) (w_stdout w)).
Proof.
  unfold normalize_received, mbind, M_bind, read_heap, store, mret, M_ret.
  unfold field_of, deref.
  destruct (is_datetime (dict_get (default ∅ (w_heap w !! result))
                                  R.RECEIVED_DATETIME)) eqn:E; simpl.
  - rewrite alter_id; [destruct w; reflexivity|].
    intros d Hd. rewrite Hd in E. simpl in E. unfold written_back. rewrite E.
    reflexivity.
  - f_equal. f_equal. apply alter_ext.
    intros d Hd. rewrite Hd in E. simpl in E. unfold written_back. rewrite E.
    reflexivity.
Qed.

Lemma for_each_normalize results w :
  for_each normalize_received results w =
  (Ok tt, mk_world (normalize_heap results (w_heap w)) (w_stdin w) (w_stdout w)).
Proof.
  revert w. induction results as [|r rs IH]; intros w; simpl.
  - destruct w; reflexivity.
  - unfold mbind, M_bind. rewrite normalize_received_step, IH. reflexivity.
Qed.

Lemma hp_ret {A} (a : A) : heap_preserving (mret a).
Proof. intros w. reflexivity. Qed.

Lemma hp_lift {A} (r : result A) : heap_preserving (lift r).
Proof. intros w. reflexivity. Qed.

Lemma hp_bind {A B} (m : M A) (f : A -> M B) :
  heap_preserving m -> (forall a, heap_preserving (f a)) ->
  heap_preserving (m ≫= f).
Proof.
  intros Hm Hf w. unfold mbind, M_bind. specialize (Hm w).
  destruct (m w) as [[a|e] w1]; simpl in *; [|exact Hm].
  rewrite Hf. exact Hm.
Qed.

Lemma hp_prompt_job_title name : heap_preserving (prompt_job_title name).
Proof. intros w. apply prompt_job_title_heap. Qed.

Lemma hp_merge_group entries : heap_preserving (merge_group entries).
Proof.
  unfold merge_group. apply hp_bind; [intros w; reflexivity|]. intros h.
  apply hp_bind; [destruct (py_sorted _ _ _ _); intros w; reflexivity|].
  intros latest. apply hp_bind.
  - destruct (or_else _ _); [apply hp_ret|apply hp_prompt_job_title].
  - intros job_title. apply hp_ret.
Qed.

Lemma hp_for_collect {A B} (body : A -> M B) xs :
  (forall x, heap_preserving (body x)) -> heap_preserving (for_collect body xs).
Proof.
  intros Hb. induction xs as [|x xs IH]; simpl; [apply hp_ret|].
  apply hp_bind; [apply Hb|]. intros y.
  apply hp_bind; [exact IH|]. intros ys. apply hp_ret.
Qed.

Lemma dedupe_heap prefix results include_role_in_key w :
  w_heap (dedupe_and_merge_results prefix results include_role_in_key w).2
  = normalize_heap results (w_heap w).
Proof.
  unfold dedupe_and_merge_results. destruct results as [|r rs]; [reflexivity|].
  unfold mbind at 1, M_bind at 1. rewrite for_each_normalize.
  match goal with
  | |- w_heap (?m ?w1).2 = _ =>
      assert (heap_preserving m) as Hp; [|exact (Hp w1)]
  end.
  apply hp_bind; [intros w1; reflexivity|]. intros h.
  apply hp_bind; [|intros merged; apply hp_lift].
  apply hp_for_collect. intros [key entries]. apply hp_merge_group.
Qed.

(** C1, as the code has it. The run leaves every dict that is not in the
    input list as it was. Of a dict in the input list it keeps every
    field but [received_datetime]; that one it keeps when it holds a
    timestamp, and otherwise it is written: after the run it holds
    [datetime.min]. *)
Theorem dedupe_writes_only_missing_timestamps prefix results include_role_in_key w :
  let w' := (dedupe_and_merge_results prefix results include_role_in_key w).2 in
  (forall l, l ∉ results -> w_heap w' !! l = w_heap w !! l) /\
  (forall l entry, l ∈ results -> w_heap w !! l = Some entry ->
     exists entry', w_heap w' !! l = Some entry' /\
       (forall key, key <> R.RECEIVED_DATETIME -> entry' !! key = entry !! key) /\
       entry' !! R.RECEIVED_DATETIME =
         if is_datetime (dict_get entry R.RECEIVED_DATETIME)
         then entry !! R.RECEIVED_DATETIME
         else Some (VDatetime datetime_min)).
Proof.
  intros w'. subst w'. rewrite dedupe_heap. split.
  - intros l Hl. rewrite normalize_heap_lookup.
    destruct (decide (l ∈ results)); [contradiction|reflexivity].
  - intros l entry Hl He. exists (written_back entry). split; [|split].
    + rewrite normalize_heap_lookup, He.
      destruct (decide (l ∈ results)); [reflexivity|contradiction].
    + intros key. apply written_back_other.
    + apply written_back_received.
Qed.

(** C1 as it is worded fails. In case 4 of the tests the first dict has no
    [received_datetime] before the run and holds [datetime.min] under that
    key after it. *)
Lemma dedupe_mutates_input_counterexample :
  (dedupe_and_merge_results sample_prefix [0%nat; 1%nat] false tc4_world).1
    = Ok [tc4_merged] /\
  w_heap tc4_world !! 0%nat = Some tc4_a /\
  tc4_a !! R.RECEIVED_DATETIME = None /\
  w_heap (dedupe_and_merge_results sample_prefix [0%nat; 1%nat] false tc4_world).2
    !! 0%nat
    = Some (<[R.RECEIVED_DATETIME := VDatetime datetime_min]> tc4_a).
Proof. repeat split; vm_compute; reflexivity. Qed.

Lemma dedupe_writes_only_missing_timestamps_witness :
  0%nat ∈ [0%nat; 1%nat] /\
  w_heap tc4_world !! 0%nat = Some tc4_a /\
  exists entry',
    w_heap (dedupe_and_merge_results sample_prefix [0%nat; 1%nat] false tc4_world).2
      !! 0%nat = Some entry' /\
    (forall key, key <> R.RECEIVED_DATETIME -> entry' !! key = tc4_a !! key) /\
    entry' !! R.RECEIVED_DATETIME =
      if is_datetime (dict_get tc4_a R.RECEIVED_DATETIME)
      then tc4_a !! R.RECEIVED_DATETIME
      else Some (VDatetime datetime_min).
Proof.
  assert (0%nat ∈ [0%nat; 1%nat]) as Hin by (left).
  assert (w_heap tc4_world !! 0%nat = Some tc4_a) as He by (vm_compute; reflexivity).
  split; [exact Hin|]. split; [exact He|].
  exact (proj2 (dedupe_writes_only_missing_timestamps
                  sample_prefix [0%nat; 1%nat] false tc4_world) _ _ Hin He).
Defined.

(** ** Timestamps that count as missing *)

Lemma written_back_absent_like entry v :
  is_datetime v = false \/ v = VDatetime datetime_min ->
  written_back (<[R.RECEIVED_DATETIME := v]> entry)
  = written_back (delete R.RECEIVED_DATETIME entry).
Proof.
  intros Hv. unfold written_back, dict_get.
  rewrite lookup_insert_eq, lookup_delete_eq. simpl.
  rewrite insert_delete_eq.
  destruct Hv as [Hv| ->]; [rewrite Hv; apply insert_insert_eq|reflexivity].
Qed.

Lemma earliest_valid_None h entries :
  earliest_valid_received_datetime h (stable_sort (newer h) entries) = None <->
  Forall (fun e => received h e = datetime_min) entries.
Proof.
  unfold earliest_valid_received_datetime.
  rewrite (last_hit_none (newer h)). apply Forall_iff. intros e. simpl.
  destruct (decide (received h e <> datetime_min)) as [Hne|Heq].
  - split; [discriminate|]. intros Heq. destruct (Hne Heq).
  - apply dec_stable in Heq. split; [intros _; exact Heq|reflexivity].
Qed.

(** C10. An observation of the input whose [received_datetime] is
    [datetime.min] or is no timestamp at all cannot be told from the same
    observation without that key: the run gives the same result, the same
    console traffic and the same final dicts. Its sort key is
    [datetime.min], and a group in which every timestamp that is there
    equals [datetime.min] gets no first contact date. *)
Theorem min_or_foreign_timestamp_as_absent :
  (forall prefix results include_role_in_key h stdin stdout l entry v,
     l ∈ results ->
     is_datetime v = false \/ v = VDatetime datetime_min ->
     dedupe_and_merge_results prefix results include_role_in_key
       (mk_world (<[l := <[R.RECEIVED_DATETIME := v]> entry]> h) stdin stdout)
     = dedupe_and_merge_results prefix results include_role_in_key
       (mk_world (<[l := delete R.RECEIVED_DATETIME entry]> h) stdin stdout)) /\
  (forall entry v,
     is_datetime v = false \/ v = VDatetime datetime_min ->
     sort_key_received_datetime (<[R.RECEIVED_DATETIME := v]> entry) = datetime_min /\
     sort_key_received_datetime (delete R.RECEIVED_DATETIME entry) = datetime_min) /\
  (forall entries w out w',
     merge_group entries w = (Ok out, w') ->
     Forall (fun e => forall dt,
               field_of (w_heap w) e R.RECEIVED_DATETIME = VDatetime dt ->
               dt = datetime_min) entries ->
     out !! R.FIRST_CONTACT_DATE = Some VNone).
Proof.
  split; [|split].
  - intros prefix results incl h stdin stdout l entry v Hl Hv.
    unfold dedupe_and_merge_results.
    destruct results as [|r rs]; [apply elem_of_nil in Hl; destruct Hl|].
    unfold mbind, M_bind. rewrite !for_each_normalize.
    cbn [w_heap w_stdin w_stdout].
    assert (normalize_heap (r :: rs) (<[l := <[R.RECEIVED_DATETIME := v]> entry]> h)
            = normalize_heap (r :: rs) (<[l := delete R.RECEIVED_DATETIME entry]> h))
      as ->; [|reflexivity].
    apply map_eq. intros l'. rewrite !normalize_heap_lookup.
    destruct (decide (l = l')) as [<-|Hne].
    + rewrite !lookup_insert_eq.
      destruct (decide (l ∈ r :: rs)); [|contradiction].
      simpl. f_equal. apply written_back_absent_like, Hv.
    + rewrite !lookup_insert_ne by exact Hne. reflexivity.
  - intros entry v Hv. unfold sort_key_received_datetime, dict_get.
    rewrite lookup_insert_eq, lookup_delete_eq. simpl.
    split; [|reflexivity].
    destruct Hv as [Hv| ->]; [destruct v; simpl in Hv; congruence|reflexivity].
  - intros entries w out w' H Hall. apply merge_group_Ok in H.
    destruct H as (latest & job_title & _ & _ & _ & _ & _ & _ & _ & _ & Hd).
    rewrite newest_first_eq in Hd.
    assert (earliest_valid_received_datetime (w_heap w)
              (stable_sort (newer (w_heap w)) entries) = None) as E.
    { apply earliest_valid_None. eapply Forall_impl; [exact Hall|].
      simpl. intros e He. unfold received, sort_key_received_datetime.
      unfold field_of in He.
      destruct (dict_get (deref (w_heap w) e) R.RECEIVED_DATETIME);
        try reflexivity.
      apply He. reflexivity. }
    rewrite E in Hd. exact Hd.
Qed.

Lemma min_or_foreign_timestamp_as_absent_witness :
  (0%nat ∈ [0%nat; 1%nat] /\
   (is_datetime (VStr "gestern") = false \/ VStr "gestern" = VDatetime datetime_min) /\
   dedupe_and_merge_results sample_prefix [0%nat; 1%nat] false
     (mk_world (<[0%nat := <[R.RECEIVED_DATETIME := VStr "gestern"]> tc4_a]>
                  (w_heap tc4_world)) [] [])
   = dedupe_and_merge_results sample_prefix [0%nat; 1%nat] false
     (mk_world (<[0%nat := delete R.RECEIVED_DATETIME tc4_a]>
                  (w_heap tc4_world)) [] [])) /\
  (merge_group [0%nat; 1%nat] tie_world = (Ok tie_merged, tie_world) /\
   Forall (fun e => forall dt,
             field_of (w_heap tie_world) e R.RECEIVED_DATETIME = VDatetime dt ->
             dt = datetime_min) [0%nat; 1%nat] /\
   tie_merged !! R.FIRST_CONTACT_DATE = Some VNone).
Proof.
  assert (0%nat ∈ [0%nat; 1%nat]) as Hin by (left).
  assert (is_datetime (VStr "gestern") = false \/ VStr "gestern" = VDatetime datetime_min)
    as Hv by (left; reflexivity).
  assert (merge_group [0%nat; 1%nat] tie_world = (Ok tie_merged, tie_world)) as H
    by (vm_compute; reflexivity).
  assert (Forall (fun e => forall dt,
             field_of (w_heap tie_world) e R.RECEIVED_DATETIME = VDatetime dt ->
             dt = datetime_min) [0%nat; 1%nat]) as Hall
    by (repeat constructor; vm_compute; discriminate).
  split.
  - split; [exact Hin|]. split; [exact Hv|].
    exact (proj1 min_or_foreign_timestamp_as_absent
             sample_prefix _ false (w_heap tc4_world) [] [] _ tc4_a _ Hin Hv).
  - split; [exact H|]. split; [exact Hall|].
    exact (proj2 (proj2 min_or_foreign_timestamp_as_absent) _ _ _ _ H Hall).
Defined.

(** ** Group keys *)

Lemma company_key_unnamed prefix value entry_id :
  clean_str value = None ->
  company_key prefix value entry_id = prefix +:+ pretty entry_id.
Proof. intros E. unfold company_key. rewrite E. reflexivity. Qed.

Lemma company_key_named prefix value entry_id name :
  clean_str value = Some name ->
  company_key prefix value entry_id
  = PyStr.lower (PyStr.join " " (PyStr.split name)).
Proof. intros E. unfold company_key. rewrite E. reflexivity. Qed.

Lemma group_key_company prefix entry include_role entry_id :
  (group_key prefix entry include_role entry_id).1
  = company_key prefix (dict_get entry R.EMPLOYER_NAME) entry_id.
Proof. unfold group_key. destruct include_role; reflexivity. Qed.

Lemma lower_char_idem c : PyStr.lower_char (PyStr.lower_char c) = PyStr.lower_char c.
Proof. destruct c as [[] [] [] [] [] [] [] []]; reflexivity. Qed.

Lemma is_lowered_lower s : PyStr.is_lowered (PyStr.lower s) = true.
Proof.
  induction s as [|c s IH]; simpl; [reflexivity|].
  rewrite lower_char_idem, Ascii.eqb_refl, IH. reflexivity.
Qed.

Lemma is_lowered_app_l s t :
  PyStr.is_lowered (s +:+ t) = true -> PyStr.is_lowered s = true.
Proof.
  induction s as [|c s IH]; simpl; [reflexivity|].
  intros H. apply andb_prop in H as [Hc H]. rewrite Hc, (IH H). reflexivity.
Qed.

(** X23. The keys of observations without a usable employer name, for
    every value of the prefix. Two such observations at different
    positions of the input have different group keys.
    The key of such an observation, at position [i], has the same
    employer component as the key of an observation with a usable name
    exactly when that name, its whitespace collapsed and in lower case,
    is the prefix followed by [i] in decimal; only then can the two keys
    be equal, and never when the prefix has a character that lower-casing
    changes. *)
Theorem synthetic_group_keys prefix include_role (unnamed : dict) (i : nat) :
  clean_str (dict_get unnamed R.EMPLOYER_NAME) = None ->
  (forall (other : dict) (j : nat),
     clean_str (dict_get other R.EMPLOYER_NAME) = None -> i <> j ->
     group_key prefix unnamed include_role i <> group_key prefix other include_role j) /\
  (forall (named : dict) (j : nat) name,
     clean_str (dict_get named R.EMPLOYER_NAME) = Some name ->
     ((group_key prefix unnamed include_role i).1
        = (group_key prefix named include_role j).1
      <-> PyStr.lower (PyStr.join " " (PyStr.split name)) = prefix +:+ pretty i) /\
     (group_key prefix unnamed include_role i = group_key prefix named include_role j ->
      PyStr.lower (PyStr.join " " (PyStr.split name)) = prefix +:+ pretty i) /\
     (PyStr.is_lowered prefix = false ->
      group_key prefix unnamed include_role i <> group_key prefix named include_role j)).
Proof.
  intros Hu. split.
  - intros other j Ho Hij Heq. apply (f_equal fst) in Heq.
    rewrite !group_key_company in Heq.
    rewrite (company_key_unnamed _ _ _ Hu), (company_key_unnamed _ _ _ Ho) in Heq.
    apply String.app_inj in Heq. apply (inj pretty) in Heq. contradiction.
  - intros named j name Hn.
    assert ((group_key prefix unnamed include_role i).1
              = (group_key prefix named include_role j).1
            <-> PyStr.lower (PyStr.join " " (PyStr.split name)) = prefix +:+ pretty i)
      as Hiff.
    { rewrite !group_key_company.
      rewrite (company_key_unnamed _ _ _ Hu), (company_key_named _ _ _ _ Hn).
      split; congruence. }
    assert (group_key prefix unnamed include_role i
              = group_key prefix named include_role j ->
            PyStr.lower (PyStr.join " " (PyStr.split name)) = prefix +:+ pretty i)
      as Himp.
    { intros Heq. apply Hiff. rewrite Heq. reflexivity. }
    split; [exact Hiff|]. split; [exact Himp|].
    intros Hp Heq. apply Himp in Heq.
    pose proof (is_lowered_lower (PyStr.join " " (PyStr.split name))) as Hl.
    rewrite Heq in Hl. apply is_lowered_app_l in Hl. congruence.
Qed.

(** What a prefix in lower case without whitespace would give, here
    "unknown_": the observation without employer at position 0 and the
    observation of the employer "Unknown_0" at position 1 get the same
    group key, and the run merges the two into one record (the console
    has one empty line waiting for the job title prompt). *)
Example lower_case_prefix_collides :
  clean_str (dict_get nameless R.EMPLOYER_NAME) = None /\
  clean_str (dict_get named_like_key R.EMPLOYER_NAME) = Some "Unknown_0" /\
  group_key "unknown_" nameless false 0 = group_key "unknown_" named_like_key false 1 /\
  group_key "unknown_" nameless true 0 = group_key "unknown_" named_like_key true 1 /\
  (dedupe_and_merge_results "unknown_" [0%nat; 1%nat] false
     (world_of [nameless; named_like_key] [EmptyString])).1 = Ok [collided_merged].
Proof. repeat split; vm_compute; reflexivity. Qed.

Lemma synthetic_group_keys_witness :
  clean_str (dict_get nameless R.EMPLOYER_NAME) = None /\
  (forall (other : dict) (j : nat),
     clean_str (dict_get other R.EMPLOYER_NAME) = None -> 0%nat <> j ->
     group_key "Unknown_" nameless true 0 <> group_key "Unknown_" other true j) /\
  (forall (named : dict) (j : nat) name,
     clean_str (dict_get named R.EMPLOYER_NAME) = Some name ->
     ((group_key "Unknown_" nameless true 0).1
        = (group_key "Unknown_" named true j).1
      <-> PyStr.lower (PyStr.join " " (PyStr.split name)) = "Unknown_" +:+ pretty 0%nat) /\
     (group_key "Unknown_" nameless true 0 = group_key "Unknown_" named true j ->
      PyStr.lower (PyStr.join " " (PyStr.split name)) = "Unknown_" +:+ pretty 0%nat) /\
     (PyStr.is_lowered "Unknown_" = false ->
      group_key "Unknown_" nameless true 0 <> group_key "Unknown_" named true j)) /\
  PyStr.is_lowered "Unknown_" = false /\
  group_key "Unknown_" nameless true 0 <> group_key "Unknown_" named_like_key true 1.
Proof.
  assert (clean_str (dict_get nameless R.EMPLOYER_NAME) = None) as Hu
    by (vm_compute; reflexivity).
  assert (clean_str (dict_get named_like_key R.EMPLOYER_NAME) = Some "Unknown_0") as Hn
    by (vm_compute; reflexivity).
  assert (PyStr.is_lowered "Unknown_" = false) as Hp by (vm_compute; reflexivity).
  pose proof (synthetic_group_keys "Unknown_" true nameless 0 Hu) as [H1 H2].
  split; [exact Hu|]. split; [exact H1|]. split; [exact H2|]. split; [exact Hp|].
  exact (proj2 (proj2 (H2 named_like_key 1%nat _ Hn)) Hp).
Defined.

Lemma clean_str_idempotent_nonempty_trimmed_witness :
  clean_str (VStr "  ABC GmbH ") = Some "ABC GmbH" /\
  "ABC GmbH" <> EmptyString /\ PyStr.trimmed "ABC GmbH".
Proof.
  assert (clean_str (VStr "  ABC GmbH ") = Some "ABC GmbH") as H
    by (vm_compute; reflexivity).
  split; [exact H|].
  exact (proj2 (proj2 clean_str_idempotent_nonempty_trimmed) _ _ H).
Defined.

(** ** The run as a whole *)

Lemma setdefault_append_nonempty key result groups :
  Forall (fun g : (string * option string) * list loc => g.2 <> []) groups ->
  Forall (fun g : (string * option string) * list loc => g.2 <> [])
         (setdefault_append key result groups).
Proof.
  induction 1 as [|[k entries] rest Hg Hrest IH]; simpl.
  - repeat constructor. simpl. discriminate.
  - destruct (decide (k = key)); constructor; simpl in *; try assumption.
    destruct entries; discriminate.
Qed.

(** No group is empty, so the merge never fails on [newest_first[0]]. *)
Lemma group_results_nonempty prefix h results include_role_in_key :
  Forall (fun g : (string * option string) * list loc => g.2 <> [])
         (group_results prefix h results include_role_in_key).
Proof.
  unfold group_results.
  assert (forall start groups,
    Forall (fun g : (string * option string) * list loc => g.2 <> []) groups ->
    Forall (fun g : (string * option string) * list loc => g.2 <> [])
      (foldl (fun groups '(entry_id, result) =>
                setdefault_append
                  (group_key prefix (deref h result) include_role_in_key entry_id)
                  result groups)
             groups (enumerate_from start results))) as Hgen.
  { induction results as [|r rs IH]; intros start groups Hg; simpl; [exact Hg|].
    apply IH, setdefault_append_nonempty, Hg. }
  apply Hgen. constructor.
Qed.

Lemma for_collect_Ok {A B} (body : A -> M B) xs w ys w' :
  (forall x, heap_preserving (body x)) ->
  for_collect body xs w = (Ok ys, w') ->
  Forall2 (fun x y => exists w1 w2,
             w_heap w1 = w_heap w /\ body x w1 = (Ok y, w2)) xs ys.
Proof.
  intros Hp. revert w ys. induction xs as [|x xs IH]; intros w ys; simpl.
  - intros [= <- <-]. constructor.
  - unfold mbind, M_bind. pose proof (Hp x w) as Hx.
    destruct (body x w) as [[y|e] w1] eqn:Ex; [|discriminate].
    destruct (for_collect body xs w1) as [[ys'|e] w2] eqn:Exs; [|discriminate].
    intros [= <- <-]. constructor.
    + exists w, w1. split; [reflexivity|exact Ex].
    + eapply Forall2_impl; [exact (IH _ _ Exs)|].
      simpl. intros x' y' (wa & wb & Hh & Hb). exists wa, wb.
      split; [|exact Hb]. rewrite Hh. exact Hx.
Qed.

(** A run that returns: the input dicts are normalised, the observations
    are grouped on the normalised dicts, every group is merged by
    [merge_group] on those dicts, and the merged records are ordered. *)
Lemma dedupe_and_merge_results_Ok prefix results include_role_in_key w out w' :
  results <> [] ->
  dedupe_and_merge_results prefix results include_role_in_key w = (Ok out, w') ->
  let h := normalize_heap results (w_heap w) in
  exists merged,
    Forall2 (fun g r => exists w1 w2,
               w_heap w1 = h /\ merge_group g.2 w1 = (Ok r, w2))
            (group_results prefix h results include_role_in_key) merged /\
    sort_merged merged = Ok out.
Proof.
  intros Hne H h. unfold dedupe_and_merge_results in H.
  destruct results as [|r rs]; [congruence|].
  unfold mbind at 1, M_bind at 1 in H. rewrite for_each_normalize in H.
  unfold mbind at 1, M_bind at 1, read_heap in H. cbn [w_heap] in H. fold h in H.
  unfold mbind, M_bind in H.
  match type of H with
  | context [for_collect ?b ?g ?w0] =>
      destruct (for_collect b g w0) as [[merged|e] w1] eqn:Em; [|discriminate]
  end.
  unfold lift in H. injection H as Hs <-.
  exists merged. split; [|exact Hs].
  apply for_collect_Ok in Em.
  - eapply Forall2_impl; [exact Em|]. simpl.
    intros [key entries] y (wa & wb & Hh & Hb). exists wa, wb. split; assumption.
  - intros [key entries]. apply hp_merge_group.
Qed.

(** The five cases of [tests/test_process_results.py], none of which
    prompts. *)
Example test_case1 :
  (dedupe_and_merge_results sample_prefix [0%nat; 1%nat] false tc1_world).1
  = Ok [tc1_merged].
Proof. vm_compute. reflexivity. Qed.

Example test_case2 :
  (dedupe_and_merge_results sample_prefix [0%nat; 1%nat] false
     (world_of [tc1_early; tc2_late] [])).1
  = Ok [tc1_merged].
Proof. vm_compute. reflexivity. Qed.

Example test_case3 :
  (dedupe_and_merge_results sample_prefix [0%nat; 1%nat] false
     (world_of [tc3_early; tc1_late] [])).1
  = Ok [<[R.CONTACT_PERSON := VStr "Max Mustermann"]> tc1_merged].
Proof. vm_compute. reflexivity. Qed.

Example test_case4 :
  (dedupe_and_merge_results sample_prefix [0%nat; 1%nat] false tc4_world).1
  = Ok [tc4_merged].
Proof. vm_compute. reflexivity. Qed.

Example test_case5 w :
  dedupe_and_merge_results sample_prefix [] false w = (Ok [], w).
Proof. reflexivity. Qed.

(** ** When the run returns *)

Lemma prompt_job_title_outcome name w :
  match w_stdin w with
  | [] => (prompt_job_title name w).1 = Raise EOFError
  | line :: _ => exists job_title, (prompt_job_title name w).1 = Ok job_title
  end.
Proof.
  unfold prompt_job_title, mbind, M_bind, print, input, mret, M_ret. simpl.
  destruct (w_stdin w) as [|line rest]; simpl; [reflexivity|].
  destruct (negb _); eexists; reflexivity.
Qed.

(** The merge of a group that is not empty fails in one way only: the
    job title is asked for and the console has no line left. *)
Lemma merge_group_outcome entries w :
  entries <> [] ->
  ((merge_group entries w).1 = Raise EOFError /\ w_stdin w = []) \/
  (exists out, (merge_group entries w).1 = Ok out).
Proof.
  intros Hne. cbv [merge_group mbind M_bind read_heap index0].
  destruct (py_sorted datetime_lt (received (w_heap w)) true entries)
    as [|latest rest] eqn:E.
  - pose proof (stable_sort_perm (newer (w_heap w)) entries) as Hp.
    rewrite newest_first_eq in E. rewrite E in Hp.
    apply Permutation_nil_l in Hp. congruence.
  - cbv [mret M_ret].
    destruct (or_else (first_non_null _ _ R.APPLIED_POSITION) _) as [title|].
    + right. eexists. reflexivity.
    + match goal with
      | |- context [prompt_job_title ?n w] =>
          pose proof (prompt_job_title_outcome n w) as Hp;
          destruct (prompt_job_title n w) as [[job_title|e] w1]
      end.
      * right. eexists. reflexivity.
      * left. destruct (w_stdin w); simpl in Hp; [|destruct Hp as [? [=]]].
        injection Hp as ->. split; reflexivity.
Qed.

Lemma merge_group_returns entries w :
  entries <> [] -> w_stdin w <> [] ->
  exists out w', merge_group entries w = (Ok out, w').
Proof.
  intros Hne Hin.
  destruct (merge_group_outcome entries w Hne) as [[_ Hs]|[out Ho]];
    [contradiction|].
  exists out, (merge_group entries w).2.
  destruct (merge_group entries w) as [r w1]. simpl in *. rewrite Ho. reflexivity.
Qed.

Lemma for_collect_raises {A B} (body : A -> M B) xs w e :
  Forall (fun x => forall w e, (body x w).1 = Raise e -> e = EOFError) xs ->
  (for_collect body xs w).1 = Raise e -> e = EOFError.
Proof.
  intros Hb. revert w. induction Hb as [|x xs Hx _ IH]; intros w; simpl.
  - discriminate.
  - unfold mbind, M_bind. specialize (Hx w).
    destruct (body x w) as [[y|e1] w1]; simpl in *.
    + specialize (IH w1).
      destruct (for_collect body xs w1) as [[ys|e2] w2]; simpl in *.
      * discriminate.
      * intros [= <-]. apply IH. reflexivity.
    + intros [= <-]. apply Hx. reflexivity.
Qed.

(** The whole run fails in that one way only: no [IndexError] from an
    empty group, no [ValueError] from the ordering. *)
Lemma dedupe_and_merge_results_raises prefix results include_role_in_key w e :
  (dedupe_and_merge_results prefix results include_role_in_key w).1 = Raise e ->
  e = EOFError.
Proof.
  unfold dedupe_and_merge_results. destruct results as [|r rs]; [discriminate|].
  unfold mbind at 1, M_bind at 1. rewrite for_each_normalize.
  unfold mbind at 1, M_bind at 1, read_heap. cbn [w_heap].
  unfold mbind, M_bind.
  match goal with
  | |- context [for_collect ?b ?g ?w0] =>
      pose proof (for_collect_raises b g w0) as Hc;
      destruct (for_collect b g w0) as [[merged|e1] w1]
  end.
  - unfold lift. rewrite sort_merged_eq. discriminate.
  - simpl. intros [= <-]. apply Hc; [|reflexivity].
    eapply Forall_impl; [apply group_results_nonempty|].
    intros [key entries] Hne w2 e2 He. simpl in Hne.
    destruct (merge_group_outcome entries w2 Hne) as [[Hr _]|[out Ho]];
      congruence.
Qed.

(** [strptime] reads back what [strftime] writes. *)
Example strptime_strftime_tc1 :
  strptime_date (strftime_date (mk_datetime 2026 1 6 9 0 0 0))
  = Ok (mk_datetime 2026 1 6 0 0 0 0).
Proof. vm_compute. reflexivity. Qed.

Example strptime_leap_day :
  strptime_date "29.02.2024" = Ok (mk_datetime 2024 2 29 0 0 0 0) /\
  strptime_date "29.02.2026" = Raise ValueError /\
  strptime_date "6.1.2026" = Ok (mk_datetime 2026 1 6 0 0 0 0) /\
  strptime_date "06.01.26" = Raise ValueError /\
  strptime_date "06.01.2026 " = Raise ValueError.
Proof. repeat split; vm_compute; reflexivity. Qed.

(** * Further properties of the code *)

(** ** The grouping loop *)

Section Grouping.
Implicit Types (groups : list ((string * option string) * list loc)).
Implicit Types (key : string * option string).

Lemma setdefault_append_keys key result groups :
  (setdefault_append key result groups).*1
  = if decide (key ∈ groups.*1) then groups.*1 else groups.*1 ++ [key].
Proof.
  induction groups as [|[k entries] rest IH]; [reflexivity|].
  cbn [setdefault_append]. rewrite (fmap_cons fst (k, entries) rest).
  cbn [fst].
  destruct (decide (k = key)) as [->|Hne].
  - rewrite fmap_cons. cbn [fst].
    destruct (decide (key ∈ key :: rest.*1)) as [_|Hn]; [reflexivity|].
    exfalso. apply Hn. left.
  - rewrite fmap_cons, IH. cbn [fst].
    destruct (decide (key ∈ rest.*1)) as [Hin|Hin];
      destruct (decide (key ∈ k :: rest.*1)) as [Hin'|Hin']; try reflexivity.
    + exfalso. apply Hin'. right. exact Hin.
    + exfalso. apply elem_of_cons in Hin' as [->|Hin']; [congruence|contradiction].
Qed.

Lemma setdefault_append_NoDup key result groups :
  NoDup groups.*1 -> NoDup (setdefault_append key result groups).*1.
Proof.
  intros Hnd. rewrite setdefault_append_keys.
  destruct (decide (key ∈ groups.*1)) as [Hin|Hin]; [exact Hnd|].
  apply NoDup_app. split; [exact Hnd|]. split.
  - intros x Hx Hx'. apply list_elem_of_singleton in Hx'. subst x. contradiction.
  - apply NoDup_singleton.
Qed.

Lemma setdefault_append_group_of key result groups key' :
  group_of key' (setdefault_append key result groups)
  = group_of key' groups ++ (if decide (key = key') then [result] else []).
Proof.
  induction groups as [|[k entries] rest IH]; simpl.
  - destruct (decide (key = key')); reflexivity.
  - destruct (decide (k = key)) as [->|Hne]; simpl.
    + destruct (decide (key = key')); [reflexivity|].
      rewrite app_nil_r. reflexivity.
    + destruct (decide (k = key')) as [->|Hne'].
      * destruct (decide (key = key')); [congruence|].
        rewrite app_nil_r. reflexivity.
      * exact IH.
Qed.

Lemma setdefault_append_concat key result groups :
  concat (setdefault_append key result groups).*2 ≡ₚ result :: concat groups.*2.
Proof.
  induction groups as [|[k entries] rest IH]; simpl; [reflexivity|].
  destruct (decide (k = key)); simpl.
  - rewrite <- app_assoc. simpl.
    rewrite <- Permutation_middle. reflexivity.
  - rewrite IH. rewrite <- Permutation_middle. reflexivity.
Qed.

Lemma group_of_elem key entries groups :
  NoDup groups.*1 -> (key, entries) ∈ groups -> group_of key groups = entries.
Proof.
  induction groups as [|[k es] rest IH]; simpl; intros Hnd Hin.
  - apply elem_of_nil in Hin. destruct Hin.
  - apply NoDup_cons in Hnd as [Hk Hnd].
    apply elem_of_cons in Hin as [[= <- <-]|Hin].
    + destruct (decide (key = key)); [reflexivity|congruence].
    + destruct (decide (k = key)) as [->|Hne]; [|apply IH; assumption].
      exfalso. apply Hk. apply list_elem_of_fmap. exists (key, entries).
      split; [reflexivity|exact Hin].
Qed.

Lemma group_of_key_elem key groups :
  key ∈ groups.*1 -> (key, group_of key groups) ∈ groups.
Proof.
  induction groups as [|[k es] rest IH]; simpl; intros Hin.
  - apply elem_of_nil in Hin. destruct Hin.
  - destruct (decide (k = key)) as [->|Hne]; [left|].
    apply elem_of_cons in Hin as [->|Hin]; [congruence|].
    right. apply IH, Hin.
Qed.

(** The loop as a fold over the keyed positions. *)
Lemma group_results_fold prefix h results include_role_in_key :
  group_results prefix h results include_role_in_key
  = foldl (fun groups p =>
             setdefault_append (key_at prefix h include_role_in_key p) p.2 groups)
          [] (enumerate_from 0 results).
Proof.
  unfold group_results. generalize (@nil ((string * option string) * list loc)).
  generalize 0%nat.
  induction results as [|r rs IH]; intros start groups; simpl; [reflexivity|].
  apply IH.
Qed.

Lemma fold_groups_spec prefix h include_role_in_key ps groups0 :
  let step := fun groups (p : nat * loc) =>
    setdefault_append (key_at prefix h include_role_in_key p) p.2 groups in
  let groups := foldl step groups0 ps in
  (NoDup groups0.*1 -> NoDup groups.*1) /\
  (forall key, group_of key groups
     = group_of key groups0
       ++ (filter (fun p => key_at prefix h include_role_in_key p = key) ps).*2) /\
  (forall key, key ∈ groups.*1 <->
     key ∈ groups0.*1 \/ key ∈ key_at prefix h include_role_in_key <$> ps) /\
  concat groups.*2 ≡ₚ concat groups0.*2 ++ ps.*2.
Proof.
  intros step. revert groups0.
  induction ps as [|p ps IH]; intros groups0; cbn [foldl].
  - split; [tauto|]. split; [intros key; rewrite app_nil_r; reflexivity|].
    split; [|rewrite app_nil_r; reflexivity].
    intros key. split; [tauto|]. intros [H|H]; [exact H|].
    apply elem_of_nil in H. destruct H.
  - destruct (IH (step groups0 p)) as (Hnd & Hg & Hk & Hc).
    split; [|split; [|split]].
    + intros H0. apply Hnd. unfold step. apply setdefault_append_NoDup, H0.
    + intros key. rewrite Hg. unfold step at 1.
      rewrite setdefault_append_group_of, <- app_assoc. f_equal.
      rewrite filter_cons.
      destruct (decide (key_at prefix h include_role_in_key p = key));
        [rewrite fmap_cons|]; reflexivity.
    + intros key. rewrite Hk. unfold step at 1.
      rewrite setdefault_append_keys, fmap_cons, elem_of_cons.
      destruct (decide (key_at prefix h include_role_in_key p ∈ groups0.*1))
        as [Hin|Hin].
      * split; [tauto|]. intros [H|[->|H]]; auto.
      * rewrite elem_of_app, list_elem_of_singleton. split.
        -- intros [[H| ->]|H]; auto.
        -- intros [H|[->|H]]; auto.
    + rewrite Hc. unfold step at 1. rewrite setdefault_append_concat.
      rewrite fmap_cons. cbn [app]. rewrite <- Permutation_middle. reflexivity.
Qed.

Lemma enumerate_from_snd {A} start (xs : list A) : (enumerate_from start xs).*2 = xs.
Proof.
  revert start. induction xs as [|x xs IH]; intros start; simpl; [reflexivity|].
  rewrite IH. reflexivity.
Qed.

Lemma enumerate_from_lookup {A} start (xs : list A) i x :
  xs !! i = Some x -> ((start + i)%nat, x) ∈ enumerate_from start xs.
Proof.
  revert start i. induction xs as [|y xs IH]; intros start i; [discriminate|].
  destruct i as [|i]; simpl.
  - intros [= ->]. rewrite Nat.add_0_r. left.
  - intros H. right. replace (start + S i)%nat with (S start + i)%nat by lia.
    apply IH, H.
Qed.

End Grouping.

(** X1. The grouping loop partitions the input by group key. No key occurs
    twice among the groups; the group stored under a key holds exactly the
    observations whose key it is, in their input order, and it is not
    empty; and the observation at every position is in the group of its
    key. *)
Theorem group_results_partition prefix h results include_role_in_key :
  let groups := group_results prefix h results include_role_in_key in
  NoDup groups.*1 /\
  (forall key entries, (key, entries) ∈ groups ->
     entries <> [] /\
     entries = (filter (fun p => key_at prefix h include_role_in_key p = key)
                       (enumerate_from 0 results)).*2) /\
  (forall i result, results !! i = Some result ->
     exists entries,
       (group_key prefix (deref h result) include_role_in_key i, entries) ∈ groups /\
       result ∈ entries).
Proof.
  intros groups. subst groups. rewrite group_results_fold.
  destruct (fold_groups_spec prefix h include_role_in_key
              (enumerate_from 0 results) []) as (Hnd & Hg & Hk & _).
  specialize (Hnd (NoDup_nil_2)).
  split; [exact Hnd|]. split.
  - intros key entries Hin. split.
    + pose proof (group_results_nonempty prefix h results include_role_in_key) as Hne.
      rewrite group_results_fold in Hne. rewrite Forall_forall in Hne.
      exact (Hne _ Hin).
    + rewrite <- (group_of_elem _ _ _ Hnd Hin). apply Hg.
  - intros i result Hi.
    pose proof (enumerate_from_lookup 0 results i result Hi) as Hp. simpl in Hp.
    set (key := group_key prefix (deref h result) include_role_in_key i).
    assert (key ∈ (foldl (fun groups p =>
              setdefault_append (key_at prefix h include_role_in_key p) p.2 groups)
              [] (enumerate_from 0 results)).*1) as Hkey.
    { apply Hk. right. apply list_elem_of_fmap. exists (i, result).
      split; [reflexivity|exact Hp]. }
    eexists. split; [apply group_of_key_elem, Hkey|].
    rewrite Hg. simpl. apply list_elem_of_fmap. exists (i, result).
    split; [reflexivity|]. apply list_elem_of_filter. split; [reflexivity|exact Hp].
Qed.

Lemma elem_of_concat {A} (x : A) (l : list A) (ls : list (list A)) :
  x ∈ l -> l ∈ ls -> x ∈ concat ls.
Proof.
  intros Hx Hl. induction ls as [|l' ls IH].
  - apply elem_of_nil in Hl. destruct Hl.
  - simpl. apply elem_of_app.
    apply elem_of_cons in Hl as [<-|Hl]; [left; exact Hx|right; apply IH, Hl].
Qed.

Lemma concat_length_nonempty {A} (ls : list (list A)) :
  Forall (fun l => l <> []) ls -> (length ls <= length (concat ls))%nat.
Proof.
  induction 1 as [|l ls Hl _ IH]; simpl; [lia|].
  rewrite length_app. destruct l; [congruence|]. simpl. lia.
Qed.

Lemma group_results_concat prefix h results include_role_in_key :
  concat (group_results prefix h results include_role_in_key).*2 ≡ₚ results.
Proof.
  rewrite group_results_fold.
  destruct (fold_groups_spec prefix h include_role_in_key
              (enumerate_from 0 results) []) as (_ & _ & _ & Hc).
  rewrite Hc, enumerate_from_snd. reflexivity.
Qed.

Lemma group_results_count prefix h results include_role_in_key :
  (length (group_results prefix h results include_role_in_key)
   <= length results)%nat /\
  (results <> [] -> group_results prefix h results include_role_in_key <> []).
Proof.
  pose proof (group_results_concat prefix h results include_role_in_key) as Hc.
  pose proof (group_results_nonempty prefix h results include_role_in_key) as Hne.
  split.
  - rewrite <- (Permutation_length Hc), <- (length_fmap snd).
    apply concat_length_nonempty. apply Forall_fmap.
    eapply Forall_impl; [exact Hne|]. intros g Hg'. exact Hg'.
  - intros Hr Hgr. rewrite Hgr in Hc. simpl in Hc.
    apply Permutation_nil_l in Hc. congruence.
Qed.

(** X2. The groups together hold every observation of the input exactly
    as often as the input does, each group in input order. There are at
    most as many groups as observations, and at least one unless the input
    is empty. *)
Theorem group_results_covers prefix h results include_role_in_key :
  let groups := group_results prefix h results include_role_in_key in
  concat groups.*2 ≡ₚ results /\
  Forall (fun g => g.2 `sublist_of` results) groups /\
  (length groups <= length results)%nat /\
  (results <> [] -> groups <> []).
Proof.
  intros groups.
  split; [apply group_results_concat|]. split; [|apply group_results_count].
  assert (NoDup groups.*1 /\
          (forall key, group_of key groups
             = (filter (fun p => key_at prefix h include_role_in_key p = key)
                       (enumerate_from 0 results)).*2)) as (Hnd & Hg).
  { subst groups. rewrite group_results_fold.
    destruct (fold_groups_spec prefix h include_role_in_key
                (enumerate_from 0 results) []) as (Hnd & Hg & _ & _).
    split; [apply Hnd, NoDup_nil_2|exact Hg]. }
  apply Forall_forall. intros [key entries] Hin. simpl.
  rewrite <- (group_of_elem _ _ _ Hnd Hin), Hg.
  rewrite <- (enumerate_from_snd 0 results) at 2.
  apply fmap_sublist, sublist_filter.
Qed.

(** ** The shape of a run *)

Lemma dict_get_written_back entry key :
  key <> R.RECEIVED_DATETIME -> dict_get (written_back entry) key = dict_get entry key.
Proof. intros Hk. unfold dict_get. rewrite written_back_other by exact Hk. reflexivity. Qed.

Lemma deref_normalize_heap results h l :
  deref (normalize_heap results h) l = deref h l \/
  deref (normalize_heap results h) l = written_back (deref h l).
Proof.
  unfold deref. rewrite normalize_heap_lookup.
  destruct (decide (l ∈ results)); [|left; reflexivity].
  destruct (h !! l); simpl; [right; reflexivity|left; reflexivity].
Qed.

Lemma field_of_normalize_heap results h l key :
  key <> R.RECEIVED_DATETIME ->
  field_of (normalize_heap results h) l key = field_of h l key.
Proof.
  intros Hk. unfold field_of.
  destruct (deref_normalize_heap results h l) as [-> | ->]; [reflexivity|].
  apply dict_get_written_back, Hk.
Qed.

Lemma group_key_normalize_heap prefix results h l include_role entry_id :
  group_key prefix (deref (normalize_heap results h) l) include_role entry_id
  = group_key prefix (deref h l) include_role entry_id.
Proof.
  pose proof (field_of_normalize_heap results h l R.EMPLOYER_NAME) as He.
  pose proof (field_of_normalize_heap results h l R.APPLIED_POSITION) as Ha.
  unfold field_of in He, Ha. unfold group_key.
  rewrite He, Ha by discriminate. reflexivity.
Qed.

(** The first loop does not change the grouping. *)
Lemma group_results_normalize_heap prefix rs h results include_role_in_key :
  group_results prefix (normalize_heap rs h) results include_role_in_key
  = group_results prefix h results include_role_in_key.
Proof.
  unfold group_results. generalize (@nil ((string * option string) * list loc)).
  generalize 0%nat.
  induction results as [|r results IH]; intros start groups; simpl; [reflexivity|].
  rewrite group_key_normalize_heap. apply IH.
Qed.

(** X3. A run that returns gives one record for each group of the input:
    as many records as there are distinct group keys, never more than
    there are observations, and at least one for an input that is not
    empty. *)
Theorem dedupe_one_record_per_group prefix results include_role_in_key w out w' :
  dedupe_and_merge_results prefix results include_role_in_key w = (Ok out, w') ->
  length out
    = length (group_results prefix (w_heap w) results include_role_in_key) /\
  (length out <= length results)%nat /\
  (results <> [] -> out <> []).
Proof.
  intros H.
  destruct results as [|r rs].
  { unfold dedupe_and_merge_results in H. injection H as <- <-.
    repeat split; [simpl; lia|congruence]. }
  apply dedupe_and_merge_results_Ok in H; [|discriminate].
  destruct H as (merged & Hf & Hs).
  rewrite group_results_normalize_heap in Hf.
  apply Forall2_length in Hf.
  rewrite sort_merged_eq in Hs. injection Hs as <-.
  unfold py_sorted.
  pose proof (stable_sort_perm
    (fun y x : dict => tuple_lt (order_key y) (order_key x)) merged) as Hp.
  apply Permutation_length in Hp.
  destruct (group_results_count prefix (w_heap w) (r :: rs) include_role_in_key)
    as (Hle & Hne).
  assert (length (stable_sort
            (fun y x : dict => tuple_lt (order_key y) (order_key x)) merged)
          = length (group_results prefix (w_heap w) (r :: rs) include_role_in_key))
    as Hlen by (rewrite Hp, Hf; reflexivity).
  split; [exact Hlen|]. split; [rewrite Hlen; exact Hle|].
  intros _ Hnil. rewrite Hnil in Hlen. simpl in Hlen.
  specialize (Hne ltac:(discriminate)).
  destruct (group_results _ _ _ _); [congruence|discriminate].
Qed.

Lemma of_opt_clean_str v : absent_or_clean (of_opt (clean_str v)).
Proof.
  destruct (clean_str v) as [text|] eqn:E; [|left; reflexivity].
  right. exists text. split; [reflexivity|].
  apply clean_str_Some in E as [-> Hne]. split; [exact Hne|apply strip_trimmed].
Qed.

Lemma first_non_null_clean h entries field text :
  first_non_null h entries field = Some text ->
  text <> EmptyString /\ PyStr.trimmed text.
Proof.
  unfold first_non_null. intros H.
  apply first_some_elem in H as (e & _ & He).
  apply clean_str_Some in He as [-> Hne]. split; [exact Hne|apply strip_trimmed].
Qed.

Lemma or_else_clean h entries field v :
  absent_or_clean (of_opt (or_else (first_non_null h entries field) (clean_str v))).
Proof.
  destruct (first_non_null h entries field) as [text|] eqn:E; simpl.
  - right. exists text. split; [reflexivity|]. eapply first_non_null_clean, E.
  - apply of_opt_clean_str.
Qed.

Lemma prompt_job_title_clean name w job_title w' :
  prompt_job_title name w = (Ok job_title, w') -> absent_or_clean (of_opt job_title).
Proof.
  unfold prompt_job_title, mbind, M_bind, print, input, mret, M_ret. simpl.
  destruct (w_stdin w) as [|line rest]; simpl; [discriminate|].
  destruct (PyStr.is_empty (PyStr.strip line)) eqn:E; simpl; intros [= <- _].
  - left. reflexivity.
  - right. exists (PyStr.strip line). split; [reflexivity|].
    split; [|apply strip_trimmed].
    intros Hs. rewrite Hs in E. discriminate.
Qed.

(** X4. A merged record has exactly six keys: the four identity fields,
    the result and the first contact date; it does not carry the receive
    timestamp. Each identity field is absent or a text that is not empty
    and has no whitespace at either end, an answer given at the job title
    prompt included; the first contact date is absent or a text. *)
Theorem merge_group_record_shape entries w out w' :
  merge_group entries w = (Ok out, w') ->
  dom out = merged_keys /\
  out !! R.RECEIVED_DATETIME = None /\
  (forall field, field ∈ identity_fields ->
     exists v, out !! field = Some v /\ absent_or_clean v) /\
  (out !! R.FIRST_CONTACT_DATE = Some VNone \/
   exists text, out !! R.FIRST_CONTACT_DATE = Some (VStr text)).
Proof.
  intros H.
  cbv [merge_group mbind M_bind read_heap index0] in H.
  destruct (py_sorted datetime_lt (received (w_heap w)) true entries)
    as [|latest rest]; [discriminate|].
  cbv [mret M_ret] in H.
  set (h := w_heap w) in *. set (oldf := reverse (latest :: rest)) in *.
  assert (exists job_title, absent_or_clean (of_opt job_title) /\
    out = match earliest_valid_received_datetime h (latest :: rest) with
          | Some dt => <[R.FIRST_CONTACT_DATE := VStr (strftime_date dt)]>
          | None => <[R.FIRST_CONTACT_DATE := VNone]>
          end
          (<[R.POSTAL_ADDRESS := of_opt (or_else
               (first_non_null h oldf R.POSTAL_ADDRESS)
               (clean_str (field_of h latest R.POSTAL_ADDRESS)))]>
          (<[R.APPLIED_POSITION := of_opt job_title]>
          (<[R.CONTACT_PERSON := of_opt (or_else
               (first_non_null h oldf R.CONTACT_PERSON)
               (clean_str (field_of h latest R.CONTACT_PERSON)))]>
          (<[R.RESULT := field_of h latest R.RESULT]>
          (<[R.EMPLOYER_NAME := of_opt (or_else
               (first_non_null h oldf R.EMPLOYER_NAME)
               (clean_str (field_of h latest R.EMPLOYER_NAME)))]> ∅)))))) as Hout.
  { destruct (or_else (first_non_null h oldf R.APPLIED_POSITION)
                (clean_str (field_of h latest R.APPLIED_POSITION)))
      as [title|] eqn:Et.
    - injection H as <- <-. exists (Some title). split.
      + rewrite <- Et. apply or_else_clean.
      + destruct (earliest_valid_received_datetime h (latest :: rest)); reflexivity.
    - match type of H with
      | context [prompt_job_title ?n w] =>
          pose proof (prompt_job_title_clean n w) as Hc;
          destruct (prompt_job_title n w) as [[job_title|e] w1]; [|discriminate]
      end.
      injection H as <- <-. exists job_title. split; [eapply Hc; reflexivity|].
      destruct (earliest_valid_received_datetime h (latest :: rest)); reflexivity. }
  destruct Hout as (job_title & Hjt & ->).
  split; [|split; [|split]].
  - destruct (earliest_valid_received_datetime h (latest :: rest));
      rewrite !dom_insert_L, dom_empty_L; unfold merged_keys; set_solver.
  - destruct (earliest_valid_received_datetime h (latest :: rest));
      by simplify_map_eq.
  - intros field Hf. unfold identity_fields in Hf.
    repeat (apply elem_of_cons in Hf as [->|Hf]);
      [..|apply elem_of_nil in Hf; destruct Hf];
      eexists; (split;
        [destruct (earliest_valid_received_datetime h (latest :: rest));
           by simplify_map_eq|]);
      first [apply or_else_clean|exact Hjt].
  - destruct (earliest_valid_received_datetime h (latest :: rest)) as [dt|].
    + right. eexists. by simplify_map_eq.
    + left. by simplify_map_eq.
Qed.

(** ** The console *)

(** With a job title among its observations, the merge of a group leaves
    the world as it is. *)
Lemma merge_group_no_prompt entries w :
  entries <> [] ->
  Exists (fun e => is_Some (clean_str (field_of (w_heap w) e R.APPLIED_POSITION)))
         entries ->
  exists out, merge_group entries w = (Ok out, w).
Proof.
  intros Hne Hex.
  cbv [merge_group mbind M_bind read_heap index0].
  rewrite newest_first_eq.
  destruct (stable_sort (newer (w_heap w)) entries) as [|latest rest] eqn:E.
  { pose proof (stable_sort_perm (newer (w_heap w)) entries) as Hp.
    rewrite E in Hp. apply Permutation_nil_l in Hp. congruence. }
  cbv [mret M_ret].
  destruct (first_non_null (w_heap w) (reverse (latest :: rest)) R.APPLIED_POSITION)
    as [title|] eqn:Et.
  - simpl. eexists. reflexivity.
  - exfalso. rewrite <- E in Et. unfold first_non_null in Et.
    apply (last_hit_none (newer (w_heap w))) in Et.
    apply Exists_exists in Hex as (e & He & [v Hv]).
    rewrite Forall_forall in Et. rewrite (Et e He) in Hv. discriminate.
Qed.

Lemma for_collect_no_effect {A B} (body : A -> M B) xs w :
  Forall (fun x => exists y, body x w = (Ok y, w)) xs ->
  exists ys, for_collect body xs w = (Ok ys, w).
Proof.
  induction 1 as [|x xs [y Hy] _ [ys IH]]; simpl.
  - eexists. reflexivity.
  - unfold mbind, M_bind. rewrite Hy, IH. eexists. reflexivity.
Qed.

(** X5. When every observation of the input names a job, the run returns,
    asks nothing and prints nothing: the console is as it was, whatever
    is waiting on it. *)
Theorem dedupe_silent_when_titles_given prefix results include_role_in_key w :
  Forall (fun e => is_Some (clean_str (field_of (w_heap w) e R.APPLIED_POSITION)))
         results ->
  exists out w',
    dedupe_and_merge_results prefix results include_role_in_key w = (Ok out, w') /\
    w_stdin w' = w_stdin w /\ w_stdout w' = w_stdout w.
Proof.
  intros Hall. unfold dedupe_and_merge_results.
  destruct results as [|r rs].
  { exists [], w. repeat split. }
  unfold mbind at 1, M_bind at 1. rewrite for_each_normalize.
  unfold mbind at 1, M_bind at 1, read_heap. cbn [w_heap].
  set (h' := normalize_heap (r :: rs) (w_heap w)).
  set (w1 := mk_world h' (w_stdin w) (w_stdout w)).
  assert (exists merged,
    for_collect (fun '(_, entries) => merge_group entries)
      (group_results prefix h' (r :: rs) include_role_in_key) w1
    = (Ok merged, w1)) as [merged Hm].
  { apply for_collect_no_effect. apply Forall_forall. intros [key entries] Hin.
    pose proof (group_results_nonempty prefix h' (r :: rs) include_role_in_key) as Hne.
    rewrite Forall_forall in Hne. specialize (Hne _ Hin). simpl in Hne.
    apply merge_group_no_prompt; [exact Hne|].
    destruct entries as [|e es]; [congruence|].
    apply Exists_cons_hd. simpl.
    unfold h'. rewrite field_of_normalize_heap by discriminate.
    rewrite Forall_forall in Hall. apply Hall.
    assert (e ∈ concat (group_results prefix h' (r :: rs) include_role_in_key).*2)
      as Hc.
    { apply (elem_of_concat e (e :: es)); [left|].
      apply list_elem_of_fmap. exists (key, e :: es). split; [reflexivity|exact Hin]. }
    rewrite group_results_concat in Hc. exact Hc. }
  unfold mbind, M_bind. rewrite Hm. unfold lift. rewrite sort_merged_eq.
  eexists _, _. split; [reflexivity|]. split; reflexivity.
Qed.

Lemma prompt_job_title_console name w :
  w_stdin (prompt_job_title name w).2 = tail (w_stdin w).
Proof.
  unfold prompt_job_title, mbind, M_bind, print, input, mret, M_ret. simpl.
  destruct (w_stdin w) as [|line rest]; simpl; [reflexivity|].
  destruct (negb _); reflexivity.
Qed.

Lemma merge_group_console entries w :
  exists n, (n <= 1)%nat /\ w_stdin (merge_group entries w).2 = drop n (w_stdin w).
Proof.
  cbv [merge_group mbind M_bind read_heap index0].
  destruct (py_sorted datetime_lt (received (w_heap w)) true entries)
    as [|latest rest].
  { exists 0%nat. split; [lia|reflexivity]. }
  cbv [mret M_ret].
  destruct (or_else (first_non_null _ _ R.APPLIED_POSITION) _) as [title|].
  - exists 0%nat. split; [lia|reflexivity].
  - match goal with
    | |- context [prompt_job_title ?n w] =>
        pose proof (prompt_job_title_console n w) as Hp;
        destruct (prompt_job_title n w) as [[job_title|e] w1]
    end; simpl in *; exists 1%nat; (split; [lia|]); rewrite Hp;
      destruct (w_stdin w); reflexivity.
Qed.

Lemma for_collect_console {A B} (body : A -> M B) xs w :
  (forall x w, exists n, (n <= 1)%nat /\ w_stdin (body x w).2 = drop n (w_stdin w)) ->
  exists n, (n <= length xs)%nat /\
    w_stdin (for_collect body xs w).2 = drop n (w_stdin w).
Proof.
  intros Hb. revert w. induction xs as [|x xs IH]; intros w; simpl.
  - exists 0%nat. split; [lia|reflexivity].
  - unfold mbind, M_bind. destruct (Hb x w) as (n1 & Hn1 & H1).
    destruct (body x w) as [[y|e] w1]; simpl in *.
    + destruct (IH w1) as (n2 & Hn2 & H2).
      destruct (for_collect body xs w1) as [[ys|e] w2]; simpl in *;
        exists (n1 + n2)%nat; (split; [lia|]);
        rewrite H2, H1, drop_drop; reflexivity.
    + exists n1. split; [lia|exact H1].
Qed.

(** X6. A run reads at most one line from the console for each group,
    and so at most one for each observation, whether it returns or fails:
    what is left waiting afterwards is what was waiting before without
    its first [n] lines, for an [n] that does not exceed the number of
    groups. *)
Theorem dedupe_reads_one_line_per_group prefix results include_role_in_key w :
  exists n,
    (n <= length (group_results prefix (w_heap w) results include_role_in_key))%nat /\
    (n <= length results)%nat /\
    w_stdin (dedupe_and_merge_results prefix results include_role_in_key w).2
      = drop n (w_stdin w).
Proof.
  unfold dedupe_and_merge_results.
  destruct results as [|r rs].
  { exists 0%nat. repeat split; simpl; lia. }
  unfold mbind at 1, M_bind at 1. rewrite for_each_normalize.
  unfold mbind at 1, M_bind at 1, read_heap. cbn [w_heap].
  set (h' := normalize_heap (r :: rs) (w_heap w)).
  set (w1 := mk_world h' (w_stdin w) (w_stdout w)).
  destruct (for_collect_console (fun '(_, entries) => merge_group entries)
              (group_results prefix h' (r :: rs) include_role_in_key) w1)
    as (n & Hn & Hs).
  { intros [key entries] w2. apply merge_group_console. }
  unfold h' in Hn. rewrite group_results_normalize_heap in Hn.
  exists n. split; [exact Hn|]. split.
  - pose proof (group_results_count prefix (w_heap w) (r :: rs) include_role_in_key)
      as [Hle _]. lia.
  - unfold mbind, M_bind.
    destruct (for_collect _ _ w1) as [[merged|e] w2]; simpl in *; exact Hs.
Qed.

(** ** Running again on the same input *)

Lemma written_back_is_datetime entry :
  is_datetime (dict_get (written_back entry) R.RECEIVED_DATETIME) = true.
Proof.
  unfold written_back.
  destruct (is_datetime (dict_get entry R.RECEIVED_DATETIME)) eqn:E; [exact E|].
  unfold dict_get. rewrite lookup_insert_eq. reflexivity.
Qed.

Lemma normalize_heap_idem results h :
  normalize_heap results (normalize_heap results h) = normalize_heap results h.
Proof.
  apply map_eq. intros l. rewrite !normalize_heap_lookup.
  destruct (decide (l ∈ results)); [|reflexivity].
  rewrite <- option_fmap_compose. apply option_fmap_ext.
  intros d. apply written_back_idem.
Qed.

(** The run after its first loop. *)
Lemma dedupe_cons prefix r rs include_role_in_key w :
  dedupe_and_merge_results prefix (r :: rs) include_role_in_key w
  = (h ← read_heap;
     let groups := group_results prefix h (r :: rs) include_role_in_key in
     merged ← for_collect (fun '(key, entries) => merge_group entries) groups;
     lift (sort_merged merged))
    (mk_world (normalize_heap (r :: rs) (w_heap w)) (w_stdin w) (w_stdout w)).
Proof.
  unfold dedupe_and_merge_results. unfold mbind at 1, M_bind at 1.
  rewrite for_each_normalize. reflexivity.
Qed.

(** X7. After a run every dict of the input list holds a timestamp under
    [received_datetime]. The dicts being left as the run has written them,
    a second run on the same list, with the console as it was before the
    first, gives the same result, the same console traffic and the same
    dicts as the first. *)
Theorem dedupe_rerun_same prefix results include_role_in_key w :
  let first := dedupe_and_merge_results prefix results include_role_in_key w in
  (forall l entry, l ∈ results -> w_heap first.2 !! l = Some entry ->
     is_datetime (dict_get entry R.RECEIVED_DATETIME) = true) /\
  dedupe_and_merge_results prefix results include_role_in_key
    (mk_world (w_heap first.2) (w_stdin w) (w_stdout w)) = first.
Proof.
  intros first. split.
  - intros l entry Hl He. subst first. rewrite dedupe_heap in He.
    rewrite normalize_heap_lookup in He.
    destruct (decide (l ∈ results)); [|contradiction].
    destruct (w_heap w !! l) as [d|]; [|discriminate].
    injection He as <-. apply written_back_is_datetime.
  - subst first. rewrite dedupe_heap.
    destruct results as [|r rs].
    { unfold dedupe_and_merge_results. destruct w; reflexivity. }
    rewrite !dedupe_cons.
    cbn [w_heap w_stdin w_stdout]. rewrite normalize_heap_idem. reflexivity.
Qed.

(** ** Ordering what is ordered *)

Lemma stable_sort_ordered_id {A} (prec : A -> A -> bool) (l : list A) :
  ordered prec l -> stable_sort prec l = l.
Proof.
  induction 1 as [|x r Hr IH Hx]; simpl; [reflexivity|].
  rewrite IH. destruct r as [|y r']; [reflexivity|]. simpl.
  apply Forall_cons in Hx as [Hy _]. rewrite Hy. reflexivity.
Qed.

(** X8. The final ordering leaves an ordered list as it is: ordering its
    own output again changes nothing. *)
Theorem sort_merged_idempotent (merged : list dict) :
  sort_merged merged ≫= sort_merged = sort_merged merged.
Proof.
  rewrite sort_merged_eq. simpl. rewrite sort_merged_eq. f_equal.
  unfold py_sorted. apply stable_sort_ordered_id.
  apply stable_sort_ordered.
  exact (by_key_sw tuple_lt order_key false).
Qed.

(** ** Writing a date and reading it back *)

Lemma digit_props k :
  Strptime.is_digit (Fmt.digit k) = true /\
  Strptime.dval (Fmt.digit k) = k mod 10 /\
  PyStr.is_space (Fmt.digit k) = false.
Proof.
  unfold Fmt.digit.
  assert (0 <= k mod 10 < 10) as Hk by (apply Z.mod_pos_bound; lia).
  generalize dependent (k mod 10). intros n Hn.
  assert (exists m : nat, (m < 10)%nat /\ n = Z.of_nat m) as (m & Hm & ->)
    by (exists (Z.to_nat n); lia).
  do 10 (destruct m as [|m]; [repeat split; reflexivity|]). lia.
Qed.

Lemma re_Y_pad4 y :
  0 <= y <= 9999 -> Strptime.re_Y (Fmt.pad4 y) = [(y, EmptyString)].
Proof.
  intros Hy. unfold Fmt.pad4, Strptime.re_Y.
  destruct (digit_props (y / 1000)) as (-> & -> & _).
  destruct (digit_props (y / 100)) as (-> & -> & _).
  destruct (digit_props (y / 10)) as (-> & -> & _).
  destruct (digit_props y) as (-> & -> & _).
  simpl. f_equal. f_equal. Z.div_mod_to_equations. lia.
Qed.

Lemma day_stage {T} dd r (K : Z -> string -> list T) :
  1 <= dd <= 31 ->
  (Strptime.re_d (Fmt.pad2 dd +:+ String "." r)
     ≫= fun '(d, s1) => Strptime.re_dot s1 ≫= K d) = K dd r.
Proof.
  intros Hd.
  assert (dd = 1 \/ dd = 2 \/ dd = 3 \/ dd = 4 \/ dd = 5 \/ dd = 6 \/ dd = 7 \/ dd = 8 \/ dd = 9 \/ dd = 10 \/ dd = 11 \/ dd = 12 \/ dd = 13 \/ dd = 14 \/ dd = 15 \/ dd = 16 \/ dd = 17 \/ dd = 18 \/ dd = 19 \/ dd = 20 \/ dd = 21 \/ dd = 22 \/ dd = 23 \/ dd = 24 \/ dd = 25 \/ dd = 26 \/ dd = 27 \/ dd = 28 \/ dd = 29 \/ dd = 30 \/ dd = 31) as Hc by lia.
  repeat destruct Hc as [->|Hc]; try subst dd;
    simpl; rewrite ?app_nil_r; reflexivity.
Qed.

Lemma month_stage {T} mm r (K : Z -> string -> list T) :
  1 <= mm <= 12 ->
  (Strptime.re_m (Fmt.pad2 mm +:+ String "." r)
     ≫= fun '(m, s3) => Strptime.re_dot s3 ≫= K m) = K mm r.
Proof.
  intros Hm.
  assert (mm = 1 \/ mm = 2 \/ mm = 3 \/ mm = 4 \/ mm = 5 \/ mm = 6 \/ mm = 7 \/ mm = 8 \/ mm = 9 \/ mm = 10 \/ mm = 11 \/ mm = 12) as Hc by lia.
  repeat destruct Hc as [->|Hc]; try subst mm;
    simpl; rewrite ?app_nil_r; reflexivity.
Qed.

Lemma re_match_date dd mm Y y :
  1 <= dd <= 31 -> 1 <= mm <= 12 ->
  Strptime.re_Y Y = [(y, EmptyString)] ->
  Strptime.re_match (Fmt.pad2 dd +:+ "." +:+ Fmt.pad2 mm +:+ "." +:+ Y)
  = Some (dd, mm, y, EmptyString).
Proof.
  intros Hd Hm HY. unfold Strptime.re_match.
  change (Fmt.pad2 dd +:+ "." +:+ Fmt.pad2 mm +:+ "." +:+ Y)
    with (Fmt.pad2 dd +:+ String "." (Fmt.pad2 mm +:+ String "." Y)).
  rewrite (day_stage dd) by exact Hd.
  rewrite (month_stage mm) by exact Hm.
  rewrite HY. reflexivity.
Qed.

Lemma rstrip_nonspace_end s :
  (forall c, PyStr.last_char s = Some c -> PyStr.is_space c = false) ->
  PyStr.rstrip s = s.
Proof.
  induction s as [|a r IH]; [reflexivity|]. intros Hl.
  cbn [PyStr.rstrip]. destruct r as [|b r'].
  - simpl. rewrite (Hl a eq_refl). reflexivity.
  - rewrite IH by (intros c Hc; apply Hl; exact Hc).
    simpl. rewrite andb_false_r. reflexivity.
Qed.

Lemma strftime_date_clean d :
  clean_str (VStr (strftime_date d)) = Some (strftime_date d).
Proof.
  apply clean_str_VStr_fixed; [discriminate|].
  unfold PyStr.strip, strftime_date, Fmt.pad2. simpl.
  destruct (digit_props (day d / 10)) as (_ & _ & ->).
  apply rstrip_nonspace_end.
  unfold Fmt.unpadded, Fmt.pad2, Fmt.pad4.
  destruct (year d <? 10), (year d <? 100), (year d <? 1000); simpl;
    intros c [= <-]; apply digit_props.
Qed.

Lemma re_Y_short_year y : y < 1000 -> Strptime.re_Y (Fmt.unpadded y) = [].
Proof.
  intros Hy. unfold Fmt.unpadded, Fmt.pad2.
  destruct (y <? 10); [reflexivity|]. destruct (y <? 100); [reflexivity|].
  destruct (y <? 1000) eqn:E; [reflexivity|]. apply Z.ltb_ge in E. lia.
Qed.

Lemma re_match_no_year dd mm Y :
  1 <= dd <= 31 -> 1 <= mm <= 12 ->
  Strptime.re_Y Y = [] ->
  Strptime.re_match (Fmt.pad2 dd +:+ "." +:+ Fmt.pad2 mm +:+ "." +:+ Y) = None.
Proof.
  intros Hd Hm HY. unfold Strptime.re_match.
  change (Fmt.pad2 dd +:+ "." +:+ Fmt.pad2 mm +:+ "." +:+ Y)
    with (Fmt.pad2 dd +:+ String "." (Fmt.pad2 mm +:+ String "." Y)).
  rewrite (day_stage dd) by exact Hd.
  rewrite (month_stage mm) by exact Hm.
  rewrite HY. reflexivity.
Qed.

Lemma valid_date_bounds y m d :
  Strptime.valid_date y m d = true ->
  1 <= y <= 9999 /\ 1 <= m <= 12 /\ 1 <= d <= 31.
Proof.
  unfold Strptime.valid_date, Strptime.days_in_month. intros H.
  repeat (apply andb_prop in H as [H ?]).
  repeat match goal with
  | H : (_ <=? _) = true |- _ => apply Z.leb_le in H
  end.
  repeat split; try lia.
  destruct (m =? 2); [destruct (Strptime.is_leap y); lia|].
  destruct ((m =? 4) || (m =? 6) || (m =? 9) || (m =? 11)); lia.
Qed.

(** The ordering reads a date of the merge from the year 1000 on. *)
Lemma parsed_date_strftime entry d :
  valid_day d = true -> 1000 <= year d ->
  dict_get entry R.FIRST_CONTACT_DATE = VStr (strftime_date d) ->
  parsed_date entry = Some (date_of d).
Proof.
  unfold valid_day. intros Hv Hy He.
  destruct (valid_date_bounds _ _ _ Hv) as (Hyb & Hm & Hd).
  unfold parsed_date. rewrite He, strftime_date_clean.
  unfold strptime_date, strftime_date. rewrite (unpadded_four_digits _ Hy).
  rewrite (re_match_date (day d) (month d) (Fmt.pad4 (year d)) (year d));
    [|lia|lia|apply re_Y_pad4; lia].
  simpl. rewrite Hv. reflexivity.
Qed.

(** It does not read one of a year before. *)
Lemma parsed_date_short_year entry d :
  valid_day d = true -> year d < 1000 ->
  dict_get entry R.FIRST_CONTACT_DATE = VStr (strftime_date d) ->
  parsed_date entry = None.
Proof.
  unfold valid_day. intros Hv Hy He.
  destruct (valid_date_bounds _ _ _ Hv) as (Hyb & Hm & Hd).
  unfold parsed_date. rewrite He, strftime_date_clean.
  unfold strptime_date, strftime_date.
  rewrite (re_match_no_year (day d) (month d) (Fmt.unpadded (year d)));
    [reflexivity|lia|lia|apply re_Y_short_year, Hy].
Qed.

(** X10. The ordering reads the dates that the merge writes from the year
    1000 on, and none of a year before. When the timestamps of a group
    are days of the calendar, the merged record either has no first
    contact date, or its date is that of the group's earliest timestamp
    other than [datetime.min]: from the year 1000 on the ordering parses
    it to that day; for a year before 1000 the date is written with fewer
    than four digits of the year, the ordering does not parse it, and the
    record is ordered as one without a date. *)
Theorem merge_group_date_parses entries w out w' :
  merge_group entries w = (Ok out, w') ->
  Forall (fun e => valid_day (received (w_heap w) e) = true) entries ->
  (out !! R.FIRST_CONTACT_DATE = Some VNone /\ parsed_date out = None) \/
  (exists m, m ∈ entries /\ received (w_heap w) m <> datetime_min /\
     Forall (fun e => received (w_heap w) e <> datetime_min ->
               datetime_lt (received (w_heap w) e) (received (w_heap w) m) = false)
            entries /\
     out !! R.FIRST_CONTACT_DATE
       = Some (VStr (strftime_date (received (w_heap w) m))) /\
     (1000 <= year (received (w_heap w) m) ->
      parsed_date out = Some (date_of (received (w_heap w) m)) /\
      order_key out = (0, date_of (received (w_heap w) m))) /\
     (year (received (w_heap w) m) < 1000 ->
      parsed_date out = None /\ order_key out = (1, datetime_min))).
Proof.
  intros H Hall.
  destruct (first_contact_date_cases _ _ _ _ H)
    as [[_ Hd]|(m & Hm & _ & Hne & Hmin & Hd)].
  - left. split; [exact Hd|]. unfold parsed_date, dict_get. rewrite Hd. reflexivity.
  - right. exists m. do 4 (split; [assumption|]).
    assert (valid_day (received (w_heap w) m) = true) as Hv
      by (rewrite Forall_forall in Hall; apply Hall, Hm).
    assert (dict_get out R.FIRST_CONTACT_DATE
            = VStr (strftime_date (received (w_heap w) m))) as He
      by (unfold dict_get; rewrite Hd; reflexivity).
    split; intros Hy.
    + pose proof (parsed_date_strftime _ _ Hv Hy He) as Hp.
      split; [exact Hp|]. unfold order_key. rewrite Hp. reflexivity.
    + pose proof (parsed_date_short_year _ _ Hv Hy He) as Hp.
      split; [exact Hp|]. unfold order_key. rewrite Hp. reflexivity.
Qed.

(** ** The further properties on the cases of the test suite *)

Lemma group_results_partition_witness :
  (("abc gmbh", None), [0%nat; 1%nat])
    ∈ group_results sample_prefix (w_heap tc1_world) [0%nat; 1%nat] false /\
  [0%nat; 1%nat] !! 1%nat = Some 1%nat /\
  ([0%nat; 1%nat] <> [] /\
   [0%nat; 1%nat]
   = (filter (fun p => key_at sample_prefix (w_heap tc1_world) false p
                       = ("abc gmbh", None))
             (enumerate_from 0 [0%nat; 1%nat])).*2) /\
  (exists entries,
     (group_key sample_prefix (deref (w_heap tc1_world) 1%nat) false 1, entries)
       ∈ group_results sample_prefix (w_heap tc1_world) [0%nat; 1%nat] false /\
     1%nat ∈ entries).
Proof.
  assert ((("abc gmbh", None), [0%nat; 1%nat])
    ∈ group_results sample_prefix (w_heap tc1_world) [0%nat; 1%nat] false) as Hin
    by (vm_compute; left).
  assert ([0%nat; 1%nat] !! 1%nat = Some 1%nat) as Hi by reflexivity.
  pose proof (group_results_partition sample_prefix (w_heap tc1_world)
                [0%nat; 1%nat] false) as (_ & Hg & Hc).
  split; [exact Hin|]. split; [exact Hi|]. split; [exact (Hg _ _ Hin)|].
  exact (Hc _ _ Hi).
Defined.

Lemma group_results_covers_witness :
  [0%nat; 1%nat] <> [] /\
  group_results sample_prefix (w_heap tc1_world) [0%nat; 1%nat] false <> [].
Proof.
  assert ([0%nat; 1%nat] <> []) as Hne by discriminate.
  split; [exact Hne|].
  exact (proj2 (proj2 (proj2 (group_results_covers sample_prefix
           (w_heap tc1_world) [0%nat; 1%nat] false))) Hne).
Defined.

Lemma dedupe_one_record_per_group_witness :
  dedupe_and_merge_results sample_prefix [0%nat; 1%nat] false tc1_world
    = (Ok [tc1_merged], tc1_world) /\
  length [tc1_merged]
    = length (group_results sample_prefix (w_heap tc1_world) [0%nat; 1%nat] false) /\
  (length [tc1_merged] <= length [0%nat; 1%nat])%nat /\
  ([0%nat; 1%nat] <> [] -> [tc1_merged] <> []).
Proof.
  assert (dedupe_and_merge_results sample_prefix [0%nat; 1%nat] false tc1_world
          = (Ok [tc1_merged], tc1_world)) as H by (vm_compute; reflexivity).
  split; [exact H|].
  exact (dedupe_one_record_per_group _ _ _ _ _ _ H).
Defined.

Lemma merge_group_record_shape_witness :
  merge_group [0%nat; 1%nat] tc1_world = (Ok tc1_merged, tc1_world) /\
  R.APPLIED_POSITION ∈ identity_fields /\
  dom tc1_merged = merged_keys /\
  tc1_merged !! R.RECEIVED_DATETIME = None /\
  (exists v, tc1_merged !! R.APPLIED_POSITION = Some v /\ absent_or_clean v).
Proof.
  assert (merge_group [0%nat; 1%nat] tc1_world = (Ok tc1_merged, tc1_world)) as H
    by (vm_compute; reflexivity).
  assert (R.APPLIED_POSITION ∈ identity_fields) as Hf
    by (unfold identity_fields; set_solver).
  pose proof (merge_group_record_shape _ _ _ _ H) as (Hd & Hr & Hi & _).
  split; [exact H|]. split; [exact Hf|]. split; [exact Hd|]. split; [exact Hr|].
  exact (Hi _ Hf).
Defined.

Lemma dedupe_silent_when_titles_given_witness :
  Forall (fun e => is_Some (clean_str
            (field_of (w_heap (world_of [tc1_early; tc2_late] ["Tester"]))
                      e R.APPLIED_POSITION)))
         [0%nat; 1%nat] /\
  exists out w',
    dedupe_and_merge_results sample_prefix [0%nat; 1%nat] false
      (world_of [tc1_early; tc2_late] ["Tester"]) = (Ok out, w') /\
    w_stdin w' = ["Tester"] /\ w_stdout w' = [].
Proof.
  assert (Forall (fun e => is_Some (clean_str
            (field_of (w_heap (world_of [tc1_early; tc2_late] ["Tester"]))
                      e R.APPLIED_POSITION)))
         [0%nat; 1%nat]) as Hall
    by (repeat constructor; vm_compute; eexists; reflexivity).
  split; [exact Hall|].
  exact (dedupe_silent_when_titles_given sample_prefix _ false _ Hall).
Defined.

Lemma dedupe_rerun_same_witness :
  0%nat ∈ [0%nat; 1%nat] /\
  w_heap (dedupe_and_merge_results sample_prefix [0%nat; 1%nat] false tc4_world).2
    !! 0%nat = Some (<[R.RECEIVED_DATETIME := VDatetime datetime_min]> tc4_a) /\
  is_datetime (dict_get (<[R.RECEIVED_DATETIME := VDatetime datetime_min]> tc4_a)
                        R.RECEIVED_DATETIME) = true.
Proof.
  assert (0%nat ∈ [0%nat; 1%nat]) as Hin by left.
  assert (w_heap (dedupe_and_merge_results sample_prefix [0%nat; 1%nat] false
                    tc4_world).2 !! 0%nat
          = Some (<[R.RECEIVED_DATETIME := VDatetime datetime_min]> tc4_a)) as He
    by (vm_compute; reflexivity).
  split; [exact Hin|]. split; [exact He|].
  exact (proj1 (dedupe_rerun_same sample_prefix [0%nat; 1%nat] false tc4_world)
           _ _ Hin He).
Defined.

Lemma merge_group_date_parses_witness :
  merge_group [0%nat; 1%nat] tc1_world = (Ok tc1_merged, tc1_world) /\
  Forall (fun e => valid_day (received (w_heap tc1_world) e) = true)
         [0%nat; 1%nat] /\
  parsed_date tc1_merged = Some (mk_datetime 2026 1 6 0 0 0 0) /\
  ((tc1_merged !! R.FIRST_CONTACT_DATE = Some VNone /\ parsed_date tc1_merged = None)
   \/
   (exists m, m ∈ [0%nat; 1%nat] /\ received (w_heap tc1_world) m <> datetime_min /\
      Forall (fun e => received (w_heap tc1_world) e <> datetime_min ->
                datetime_lt (received (w_heap tc1_world) e)
                            (received (w_heap tc1_world) m) = false)
             [0%nat; 1%nat] /\
      tc1_merged !! R.FIRST_CONTACT_DATE
        = Some (VStr (strftime_date (received (w_heap tc1_world) m))) /\
      (1000 <= year (received (w_heap tc1_world) m) ->
       parsed_date tc1_merged = Some (date_of (received (w_heap tc1_world) m)) /\
       order_key tc1_merged = (0, date_of (received (w_heap tc1_world) m))) /\
      (year (received (w_heap tc1_world) m) < 1000 ->
       parsed_date tc1_merged = None /\
       order_key tc1_merged = (1, datetime_min)))).
Proof.
  assert (merge_group [0%nat; 1%nat] tc1_world = (Ok tc1_merged, tc1_world)) as H
    by (vm_compute; reflexivity).
  assert (Forall (fun e => valid_day (received (w_heap tc1_world) e) = true)
                 [0%nat; 1%nat]) as Hall
    by (repeat constructor; vm_compute; reflexivity).
  split; [exact H|]. split; [exact Hall|]. split; [vm_compute; reflexivity|].
  exact (merge_group_date_parses _ _ _ _ H Hall).
Defined.

(** A timestamp of the year 999: the merge writes "06.05.999", the
    ordering does not parse it, and in the run the record keeps its place
    behind the record without a date that came before it. *)
Example date_before_1000_not_parsed :
  merge_group [0%nat] (world_of [year_999] [])
  = (Ok year_999_merged, world_of [year_999] []) /\
  year_999_merged !! R.FIRST_CONTACT_DATE = Some (VStr "06.05.999") /\
  parsed_date year_999_merged = None /\
  (dedupe_and_merge_results sample_prefix [0%nat; 1%nat] false
     (world_of [undated; year_999] [])).1
  = Ok [undated_merged; year_999_merged].
Proof. repeat split; vm_compute; reflexivity. Qed.

(** ** Keys in normal form *)

Section Words.
Import PyStr.

Lemma split_words s : Forall is_word (split s).
Proof.
  induction s as [|c r IH]; simpl; [constructor|].
  destruct (is_space c) eqn:Ec; [exact IH|].
  destruct r as [|c' r'].
  - repeat constructor; [discriminate|]. simpl. rewrite Ec. reflexivity.
  - destruct (is_space c') eqn:Ec'.
    + constructor; [|exact IH]. split; [discriminate|]. simpl. rewrite Ec. reflexivity.
    + destruct (split (String c' r')) as [|w ws].
      * repeat constructor; [discriminate|]. simpl. rewrite Ec. reflexivity.
      * apply Forall_cons in IH as [[Hw Hn] IH]. constructor; [|exact IH].
        split; [discriminate|]. simpl. rewrite Ec, Hn. reflexivity.
Qed.

Lemma split_nonempty c r : is_space c = false -> split (String c r) <> [].
Proof.
  intros Ec. simpl. rewrite Ec. destruct r as [|c' r']; [discriminate|].
  destruct (is_space c'); [discriminate|].
  destruct (split (String c' r')); discriminate.
Qed.

Lemma split_step c r :
  is_space c = false ->
  split (String c r) =
  match r with
  | EmptyString => [String c EmptyString]
  | String c' _ =>
      if is_space c' then String c EmptyString :: split r
      else match split r with
           | w :: ws => String c w :: ws
           | [] => [String c EmptyString]
           end
  end.
Proof. intros Hc. destruct r; simpl; rewrite Hc; reflexivity. Qed.

Lemma split_word_then_space p t :
  is_word p -> split (p +:+ String " " t) = p :: split t.
Proof.
  intros [Hne Hn]. induction p as [|c p IH]; [congruence|].
  simpl in Hn. apply andb_prop in Hn as [Hc Hn]. apply negb_true_iff in Hc.
  change (String c p +:+ String " " t) with (String c (p +:+ String " " t)).
  rewrite split_step by exact Hc.
  destruct p as [|c' p'].
  - reflexivity.
  - pose proof Hn as Hn'. simpl in Hn'. apply andb_prop in Hn' as [Hc' _].
    apply negb_true_iff in Hc'.
    change (String c' p' +:+ String " " t) with (String c' (p' +:+ String " " t)).
    cbv beta iota. rewrite Hc'.
    change (String c' (p' +:+ String " " t)) with (String c' p' +:+ String " " t).
    rewrite IH; [reflexivity|discriminate|exact Hn].
Qed.

Lemma split_word p : is_word p -> split p = [p].
Proof.
  intros [Hne Hn]. induction p as [|c p IH]; [congruence|].
  simpl in Hn. apply andb_prop in Hn as [Hc Hn]. apply negb_true_iff in Hc.
  rewrite split_step by exact Hc.
  destruct p as [|c' p']; [reflexivity|].
  pose proof Hn as Hn'. simpl in Hn'. apply andb_prop in Hn' as [Hc' _].
  apply negb_true_iff in Hc'. rewrite Hc'.
  rewrite IH; [reflexivity|discriminate|exact Hn].
Qed.

Lemma split_join ws : Forall is_word ws -> split (join " " ws) = ws.
Proof.
  induction 1 as [|p ws Hp Hws IH]; [reflexivity|].
  destruct ws as [|q ws'].
  - simpl. apply split_word, Hp.
  - change (join " " (p :: q :: ws')) with (p +:+ String " " (join " " (q :: ws'))).
    rewrite split_word_then_space by exact Hp. rewrite IH. reflexivity.
Qed.

Lemma lower_app s t : lower (s +:+ t) = lower s +:+ lower t.
Proof. induction s as [|c s IH]; simpl; [|rewrite IH]; reflexivity. Qed.

Lemma lower_join ws : lower (join " " ws) = join " " (lower <$> ws).
Proof.
  induction ws as [|p ws IH]; [reflexivity|].
  destruct ws as [|q ws']; [reflexivity|].
  change (join " " (p :: q :: ws')) with (p +:+ String " " (join " " (q :: ws'))).
  rewrite lower_app. cbn [lower]. rewrite IH. reflexivity.
Qed.

Lemma is_space_lower_char c : is_space (lower_char c) = is_space c.
Proof. destruct c as [[] [] [] [] [] [] [] []]; reflexivity. Qed.

Lemma lower_word w : is_word w -> is_word (lower w).
Proof.
  intros [Hne Hn]. split; [destruct w; [congruence|discriminate]|].
  clear Hne. induction w as [|c w IH]; [reflexivity|].
  simpl in *. apply andb_prop in Hn as [Hc Hn].
  rewrite is_space_lower_char, Hc, IH by exact Hn. reflexivity.
Qed.

Lemma lower_idem s : lower (lower s) = lower s.
Proof.
  induction s as [|c s IH]; simpl; [reflexivity|].
  rewrite lower_char_idem, IH. reflexivity.
Qed.

Lemma word_ends w :
  is_word w ->
  (exists c, first_char w = Some c /\ is_space c = false) /\
  (exists c, last_char w = Some c /\ is_space c = false).
Proof.
  intros [Hne Hn]. induction w as [|a w IH]; [congruence|].
  simpl in Hn. apply andb_prop in Hn as [Ha Hn]. apply negb_true_iff in Ha.
  split; [exists a; split; [reflexivity|exact Ha]|].
  destruct w as [|b w']; [exists a; split; [reflexivity|exact Ha]|].
  destruct IH as [_ IH]; [discriminate|exact Hn|]. exact IH.
Qed.

Lemma last_char_app s t :
  t <> EmptyString -> last_char (s +:+ t) = last_char t.
Proof.
  intros Ht. induction s as [|a s IH]; [reflexivity|].
  change (String a s +:+ t) with (String a (s +:+ t)). cbn [last_char].
  destruct (s +:+ t) eqn:E; [|exact IH].
  exfalso. destruct s as [|b s']; [|discriminate E].
  apply Ht. exact E.
Qed.

Lemma join_words_trimmed ws :
  Forall is_word ws -> ws <> [] ->
  join " " ws <> EmptyString /\ trimmed (join " " ws).
Proof.
  intros Hws Hne.
  assert (join " " ws <> EmptyString /\
          (exists c, first_char (join " " ws) = Some c /\ is_space c = false) /\
          (exists c, last_char (join " " ws) = Some c /\ is_space c = false))
    as (Hj & (cf & Hf & Hcf) & (cl & Hl & Hcl)).
  { induction Hws as [|p ws Hp Hws IH]; [congruence|].
    destruct (word_ends p Hp) as [(cf & Hf & Hcf) (cl & Hl & Hcl)].
    destruct ws as [|q ws'].
    - simpl. split; [apply Hp|]. split; eauto.
    - change (join " " (p :: q :: ws'))
        with (p +:+ String " " (join " " (q :: ws'))).
      destruct IH as (Hq & _ & (c2 & H2 & Hc2)); [discriminate|].
      split; [|split].
      + destruct p; [destruct Hp; congruence|discriminate].
      + exists cf. split; [|exact Hcf]. destruct p; [discriminate|exact Hf].
      + exists c2. split; [|exact Hc2].
        rewrite last_char_app by discriminate.
        cbn [last_char]. destruct (join " " (q :: ws')); [congruence|exact H2]. }
  split; [exact Hj|]. split; intros c Hc; congruence.
Qed.

Lemma strip_trimmed_fixed s : trimmed s -> strip s = s.
Proof.
  intros [Hf Hl]. unfold strip. rewrite lstrip_fixed by exact Hf.
  apply rstrip_nonspace_end, Hl.
Qed.

End Words.

(** X11. The group key of a named employer is in normal form. It is not
    empty, has no whitespace at either end, is in lower case, and is its
    words joined by single spaces; and it is its own key: an employer whose
    name is spelled as the key of another falls into that one's group. *)
Theorem company_key_normal_form prefix value entry_id name :
  clean_str value = Some name ->
  let key := company_key prefix value entry_id in
  key <> EmptyString /\ PyStr.trimmed key /\ PyStr.is_lowered key = true /\
  PyStr.join " " (PyStr.split key) = key /\
  (forall other_id, company_key prefix (VStr key) other_id = key) /\
  role_key value = Some key.
Proof.
  intros Hn key. subst key.
  rewrite (company_key_named _ _ _ _ Hn).
  apply clean_str_Some in Hn as Hn'. destruct Hn' as [Hs Hne].
  pose proof (strip_trimmed (py_str value)) as [Hfirst _]. rewrite <- Hs in Hfirst.
  assert (PyStr.split name <> []) as Hsplit.
  { destruct name as [|c r]; [congruence|].
    apply split_nonempty, Hfirst. reflexivity. }
  pose proof (split_words name) as Hw.
  set (ws := PyStr.split name) in *.
  set (key := PyStr.lower (PyStr.join " " ws)).
  assert (key = PyStr.join " " (PyStr.lower <$> ws)) as Hkey by apply lower_join.
  assert (Forall is_word (PyStr.lower <$> ws)) as Hw'.
  { apply Forall_fmap. eapply Forall_impl; [exact Hw|]. intros w. apply lower_word. }
  assert (PyStr.lower <$> ws <> []) as Hne' by (destruct ws; [congruence|discriminate]).
  destruct (join_words_trimmed _ Hw' Hne') as [Hj Ht]. rewrite <- Hkey in Hj, Ht.
  assert (PyStr.split key = PyStr.lower <$> ws) as Hsk
    by (rewrite Hkey; apply split_join, Hw').
  assert (clean_str (VStr key) = Some key) as Hck
    by (apply clean_str_VStr_fixed; [exact Hj|apply strip_trimmed_fixed, Ht]).
  split; [exact Hj|]. split; [exact Ht|]. split; [apply is_lowered_lower|].
  split; [rewrite Hsk; symmetry; exact Hkey|]. split.
  - intros other_id. rewrite (company_key_named _ _ _ _ Hck).
    rewrite Hsk, <- Hkey. apply lower_idem.
  - unfold role_key. rewrite Hn. reflexivity.
Qed.

Lemma company_key_normal_form_witness :
  clean_str (VStr "  ABC   GmbH ") = Some "ABC   GmbH" /\
  company_key sample_prefix (VStr "  ABC   GmbH ") 0 = "abc gmbh" /\
  (forall other_id,
     company_key sample_prefix
       (VStr (company_key sample_prefix (VStr "  ABC   GmbH ") 0)) other_id
     = company_key sample_prefix (VStr "  ABC   GmbH ") 0).
Proof.
  assert (clean_str (VStr "  ABC   GmbH ") = Some "ABC   GmbH") as H
    by (vm_compute; reflexivity).
  split; [exact H|]. split; [vm_compute; reflexivity|].
  exact (proj1 (proj2 (proj2 (proj2 (proj2
    (company_key_normal_form sample_prefix _ 0 _ H)))))).
Defined.

(** ** The subject query *)

Lemma search_key_more subject_has fuel fuel' criteria r :
  (fuel <= fuel')%nat ->
  search_key subject_has fuel criteria = Some r ->
  search_key subject_has fuel' criteria = Some r.
Proof.
  revert fuel' criteria r. induction fuel as [|fuel IH]; intros fuel' criteria r Hle;
    [discriminate|].
  destruct fuel' as [|fuel']; [lia|]. simpl.
  destruct criteria as [|word rest]; [discriminate|].
  destruct (String.eqb word "SUBJECT"); [trivial|].
  destruct (String.eqb word "OR"); [|trivial].
  destruct (search_key subject_has fuel rest) as [[b1 rest1]|] eqn:E1; [|discriminate].
  rewrite (IH fuel' _ _ ltac:(lia) E1).
  destruct (search_key subject_has fuel rest1) as [[b2 rest2]|] eqn:E2; [|discriminate].
  rewrite (IH fuel' _ _ ltac:(lia) E2). trivial.
Qed.

Lemma search_key_subject subject_has fuel text rest :
  search_key subject_has (S fuel) ("SUBJECT" :: text :: rest)
  = Some (subject_has text, rest).
Proof. reflexivity. Qed.

Lemma search_key_or subject_has fuel rest :
  search_key subject_has (S fuel) ("OR" :: rest)
  = match search_key subject_has fuel rest with
    | Some (b1, rest1) =>
        match search_key subject_has fuel rest1 with
        | Some (b2, rest2) => Some (b1 || b2, rest2)
        | None => None
        end
    | None => None
    end.
Proof. reflexivity. Qed.

Lemma last_default_indep {A} (l : list A) x d d' :
  List.last (x :: l) d = List.last (x :: l) d'.
Proof.
  revert x. induction l as [|y l IH]; intros x; [reflexivity|].
  change (List.last (x :: y :: l) d) with (List.last (y :: l) d).
  change (List.last (x :: y :: l) d') with (List.last (y :: l) d').
  apply IH.
Qed.

(** The query of a list of terms that is not empty, by recursion on the
    list. *)
Lemma build_or_subject_query_cons term terms :
  terms <> [] ->
  build_or_subject_query (term :: terms)
  = ["OR"; "SUBJECT"; term] ++ build_or_subject_query terms.
Proof.
  intros Hne. destruct terms as [|t2 [|t3 ts]]; [congruence|reflexivity|].
  unfold build_or_subject_query.
  change (removelast (term :: t2 :: t3 :: ts))
    with (term :: removelast (t2 :: t3 :: ts)).
  change (List.last (term :: t2 :: t3 :: ts) term)
    with (List.last (t3 :: ts) term).
  change (List.last (t2 :: t3 :: ts) t2) with (List.last (t3 :: ts) t2).
  rewrite (last_default_indep ts t3 term t2).
  rewrite reverse_cons, foldl_app. reflexivity.
Qed.

(** X12. The subject query in closed form. For no terms it is empty, so
    that the search is not narrowed by subject. For terms it is an
    [OR SUBJECT term] for each term but the last, in the order of the
    terms, and then [SUBJECT] with the last term: three criteria for each
    term, less one. *)
Theorem build_or_subject_query_closed_form terms :
  (build_or_subject_query [] = []) /\
  (terms <> [] ->
   (build_or_subject_query terms
    = concat ((fun term => ["OR"; "SUBJECT"; term]) <$> removelast terms)
      ++ ["SUBJECT"; List.last terms EmptyString]) /\
   (length (build_or_subject_query terms) = (3 * length terms - 1)%nat)).
Proof.
  split; [reflexivity|]. intros Hne.
  induction terms as [|term terms IH]; [congruence|].
  destruct terms as [|t2 ts]; [split; reflexivity|].
  destruct IH as [Hform Hlen]; [discriminate|].
  rewrite build_or_subject_query_cons by discriminate.
  change (removelast (term :: t2 :: ts)) with (term :: removelast (t2 :: ts)).
  change (List.last (term :: t2 :: ts) EmptyString)
    with (List.last (t2 :: ts) EmptyString).
  rewrite fmap_cons. cbn [concat]. split.
  - rewrite Hform at 1. rewrite <- app_assoc. reflexivity.
  - rewrite length_app, Hlen. cbn [length]. lia.
Qed.

Lemma build_or_subject_query_closed_form_witness :
  (["bewerbung"; "application"; "candidature"] <> []) /\
  (build_or_subject_query ["bewerbung"; "application"; "candidature"]
   = ["OR"; "SUBJECT"; "bewerbung"; "OR"; "SUBJECT"; "application";
      "SUBJECT"; "candidature"]) /\
  (length (build_or_subject_query ["bewerbung"; "application"; "candidature"])
   = 8%nat).
Proof.
  assert (["bewerbung"; "application"; "candidature"] <> []) as Hne
    by discriminate.
  split; [exact Hne|].
  exact (proj2 (build_or_subject_query_closed_form _) Hne).
Defined.

(** X13. The subject query as a search key. Read by the grammar of IMAP
    search keys, the query of a list of terms that is not empty is one
    whole key, with nothing left over, and it holds of a message exactly
    when the subject contains one of the terms. *)
Theorem build_or_subject_query_meaning subject_has terms :
  terms <> [] ->
  search_key subject_has (length (build_or_subject_query terms))
             (build_or_subject_query terms)
  = Some (existsb subject_has terms, []).
Proof.
  intros Hne.
  induction terms as [|term terms IH]; [congruence|].
  destruct terms as [|t2 ts].
  - simpl. rewrite orb_false_r. reflexivity.
  - specialize (IH ltac:(discriminate)).
    rewrite build_or_subject_query_cons by discriminate.
    set (q := build_or_subject_query (t2 :: ts)) in *.
    change (["OR"; "SUBJECT"; term] ++ q) with ("OR" :: "SUBJECT" :: term :: q).
    change (length ("OR" :: "SUBJECT" :: term :: q)) with (S (S (S (length q)))).
    rewrite search_key_or, search_key_subject.
    assert (length q <= S (S (length q)))%nat as Hle by lia.
    rewrite (search_key_more subject_has _ _ q _ Hle IH).
    reflexivity.
Qed.

Lemma build_or_subject_query_meaning_witness :
  (["bewerbung"; "application"] <> []) /\
  (search_key (fun text => String.eqb text "application")
              (length (build_or_subject_query ["bewerbung"; "application"]))
              (build_or_subject_query ["bewerbung"; "application"])
   = Some (existsb (fun text => String.eqb text "application")
                   ["bewerbung"; "application"], [])).
Proof.
  assert (["bewerbung"; "application"] <> []) as Hne by discriminate.
  split; [exact Hne|].
  exact (build_or_subject_query_meaning
           (fun text => String.eqb text "application") _ Hne).
Defined.

(** ** Filling in addresses *)

Lemma rstrip_empty_blank s : PyStr.rstrip s = EmptyString -> blank s = true.
Proof.
  induction s as [|c r IH]; [reflexivity|]. simpl.
  destruct (PyStr.is_space c); simpl; [|discriminate].
  destruct (PyStr.rstrip r); simpl; [|discriminate]. intros _. apply IH. reflexivity.
Qed.

Lemma strip_empty_blank s : PyStr.strip s = EmptyString -> blank s = true.
Proof.
  unfold PyStr.strip. induction s as [|c r IH]; [reflexivity|].
  simpl PyStr.lstrip. destruct (PyStr.is_space c) eqn:Ec.
  - intros H. simpl. rewrite Ec. apply IH, H.
  - intros H. apply rstrip_empty_blank in H. simpl in H. rewrite Ec in H.
    discriminate.
Qed.

Lemma blank_rstrip s : blank s = true -> PyStr.rstrip s = EmptyString.
Proof.
  induction s as [|c r IH]; [reflexivity|]. simpl.
  intros H. apply andb_true_iff in H as [-> Hr]. rewrite (IH Hr). reflexivity.
Qed.

Lemma blank_strip_empty s : blank s = true -> PyStr.strip s = EmptyString.
Proof.
  intros H. unfold PyStr.strip.
  assert (PyStr.lstrip s = EmptyString) as ->; [|reflexivity].
  induction s as [|c r IH]; [reflexivity|]. simpl in *.
  apply andb_true_iff in H as [-> Hr]. apply IH, Hr.
Qed.

Lemma blank_app a b : blank (a +:+ b) = blank a && blank b.
Proof.
  induction a as [|c r IH]; [reflexivity|]. simpl. rewrite IH.
  destruct (PyStr.is_space c); reflexivity.
Qed.

Lemma to_one_line_nonblank a : nonblank (VStr (to_one_line a)) <> None.
Proof.
  unfold nonblank, or_none.
  destruct (PyStr.strip (to_one_line a)) eqn:E; [|discriminate].
  apply strip_empty_blank in E. unfold to_one_line in E.
  rewrite blank_app in E. apply andb_true_iff in E as [_ E].
  simpl in E. discriminate.
Qed.

Lemma nonblank_Some value text :
  nonblank value = Some text -> nonblank (VStr text) = Some text.
Proof.
  destruct value as [|s|d|r]; try discriminate. unfold nonblank, or_none.
  destruct (PyStr.is_empty (PyStr.strip s)) eqn:E; [discriminate|].
  intros [= <-]. rewrite strip_idem, E. reflexivity.
Qed.

Lemma address_or_none_nonblank value :
  address_or_none (of_opt (nonblank value)).
Proof.
  destruct (nonblank value) as [text|] eqn:E; [|left; reflexivity].
  right. exists text. split; [reflexivity|].
  change (nonblank (VStr text) <> None).
  rewrite (nonblank_Some _ _ E). discriminate.
Qed.

Lemma address_or_none_manual a : address_or_none (VStr (to_one_line a)).
Proof.
  right. exists (to_one_line a). split; [reflexivity|].
  apply to_one_line_nonblank.
Qed.

Section EnrichFacts.

Context {resolver error : Type}.
Variable find_manual :
  string -> resolver -> (error + option ManualPostalAddress) * resolver.
Variable find_openregister : string -> resolver -> (error + pyval) * resolver.
Variable prompt_and_save : string -> resolver -> (error + pyval) * resolver.

(** One round of the loop, written out. *)
Lemma enrich_entry_eq interactive entry h rs :
  enrich_entry find_manual find_openregister prompt_and_save
    interactive entry (h, rs)
  = match nonblank (field_of h entry R.EMPLOYER_NAME) with
    | None => (inr tt, (h, rs))
    | Some name =>
        match nonblank (field_of h entry R.POSTAL_ADDRESS) with
        | Some _ => (inr tt, (h, rs))
        | None =>
            match find_manual name rs with
            | (inl err, rs1) => (inl err, (h, rs1))
            | (inr (Some a), rs1) =>
                (inr tt, (alter (insert R.POSTAL_ADDRESS (VStr (to_one_line a)))
                                entry h, rs1))
            | (inr None, rs1) =>
                match find_openregister name rs1 with
                | (inl err, rs2) => (inl err, (h, rs2))
                | (inr reg, rs2) =>
                    match nonblank reg, interactive with
                    | None, true =>
                        match prompt_and_save name rs2 with
                        | (inl err, rs3) => (inl err, (h, rs3))
                        | (inr prompted, rs3) =>
                            (inr tt,
                             (alter (insert R.POSTAL_ADDRESS
                                            (of_opt (nonblank prompted)))
                                    entry h, rs3))
                        end
                    | found, _ =>
                        (inr tt, (alter (insert R.POSTAL_ADDRESS (of_opt found))
                                        entry h, rs2))
                    end
                end
            end
        end
    end.
Proof.
  unfold enrich_entry, mbind, RM_bind, read_entries, mret, RM_ret, call,
    set_item. cbn [fst snd].
  destruct (nonblank (field_of h entry R.EMPLOYER_NAME)) as [name|];
    [|reflexivity].
  destruct (nonblank (field_of h entry R.POSTAL_ADDRESS)); [reflexivity|].
  cbn [fst snd].
  destruct (find_manual name rs) as [[err|[a|]] rs1]; cbn [fst snd fmap option_fmap option_map];
    [reflexivity|destruct interactive; reflexivity|].
  destruct (find_openregister name rs1) as [[err|reg] rs2]; cbn [fst snd];
    [reflexivity|].
  destruct (nonblank reg), interactive; cbn [fst snd]; try reflexivity.
  destruct (prompt_and_save name rs2) as [[err|prompted] rs3]; reflexivity.
Qed.

(** What one round does: it passes over the entry, or it ends in an error
    of the resolver with the entries as they were, or it writes an
    address into the entry. *)
Lemma enrich_entry_step interactive entry h rs r h1 rs1 :
  enrich_entry find_manual find_openregister prompt_and_save
    interactive entry (h, rs) = (r, (h1, rs1)) ->
  (passed_over h entry /\ r = inr tt /\ h1 = h /\ rs1 = rs) \/
  (~ passed_over h entry /\
   ((exists err, r = inl err /\ h1 = h) \/
    (r = inr tt /\ exists v, address_or_none v /\
       h1 = alter (insert R.POSTAL_ADDRESS v) entry h))).
Proof.
  rewrite enrich_entry_eq. unfold passed_over.
  destruct (nonblank (field_of h entry R.EMPLOYER_NAME)) as [name|];
    [|intros [= <- <- <-]; left; auto].
  destruct (nonblank (field_of h entry R.POSTAL_ADDRESS));
    [intros [= <- <- <-]; left; split; [right; discriminate|auto]|].
  intros H. right. split; [intros [?|?]; congruence|].
  destruct (find_manual name rs) as [[err|[a|]] rs1'].
  - injection H as <- <- <-. left. eauto.
  - injection H as <- <- <-. right. split; [reflexivity|].
    eexists. split; [apply address_or_none_manual|reflexivity].
  - destruct (find_openregister name rs1') as [[err|reg] rs2].
    + injection H as <- <- <-. left. eauto.
    + destruct (nonblank reg) as [text|] eqn:Ereg.
      * assert (r = inr tt /\ h1 = alter (insert R.POSTAL_ADDRESS
                  (of_opt (nonblank reg))) entry h) as [-> ->]
          by (rewrite Ereg; destruct interactive; injection H as <- <- <-; auto).
        right. split; [reflexivity|].
        eexists. split; [apply address_or_none_nonblank|reflexivity].
      * destruct interactive.
        -- destruct (prompt_and_save name rs2) as [[err|prompted] rs3];
             injection H as <- <- <-; [left; eauto|].
           right. split; [reflexivity|].
           eexists. split; [apply address_or_none_nonblank|reflexivity].
        -- injection H as <- <- <-. right. split; [reflexivity|].
           exists VNone. split; [left; reflexivity|reflexivity].
Qed.

Lemma for_entries_cons (body : loc -> RM resolver error unit) entry rest s :
  for_entries body (entry :: rest) s
  = match body entry s with
    | (inr _, s') => for_entries body rest s'
    | (inl err, s') => (inl err, s')
    end.
Proof. reflexivity. Qed.

Lemma enrich_missing_addresses_eq results interactive s :
  enrich_missing_addresses find_manual find_openregister prompt_and_save
    results interactive s
  = match for_entries (enrich_entry find_manual find_openregister prompt_and_save
    interactive) results s with
    | (inr _, s') => (inr results, s')
    | (inl err, s') => (inl err, s')
    end.
Proof. reflexivity. Qed.

Lemma passed_over_written results h h' entry :
  written results h h' -> passed_over h entry -> passed_over h' entry.
Proof.
  intros Hw Hp. destruct (Hw entry) as [E|(_ & Hn & _)]; [|contradiction].
  unfold passed_over, field_of, deref in *. rewrite E. exact Hp.
Qed.

Lemma written_step results h h1 entry v :
  written results h h1 -> entry ∈ results -> ~ passed_over h1 entry ->
  address_or_none v ->
  written results h (alter (insert R.POSTAL_ADDRESS v) entry h1).
Proof.
  intros Hw Hin Hn Hv l. destruct (decide (l = entry)) as [->|Hne].
  - rewrite lookup_alter_eq.
    assert (~ passed_over h entry) as Hn0
      by (intros Hp; apply Hn; eapply passed_over_written; eauto).
    destruct (Hw entry) as [E|(_ & _ & d & v0 & Ed & _ & E)].
    + rewrite E. destruct (h !! entry) as [d|] eqn:Ed; [|left; reflexivity].
      right. split; [exact Hin|]. split; [exact Hn0|].
      exists d, v. auto.
    + right. split; [exact Hin|]. split; [exact Hn0|].
      exists d, v. rewrite E. cbn. rewrite insert_insert_eq. auto.
  - rewrite lookup_alter_ne by congruence. apply Hw.
Qed.

Lemma for_entries_written results interactive :
  forall done h0 h rs,
    written (done ++ results) h0 h ->
    written (done ++ results) h0
      (fst (snd (for_entries (enrich_entry find_manual find_openregister prompt_and_save
    interactive) results (h, rs)))).
Proof.
  induction results as [|entry rest IH]; intros done h0 h rs Hw; [exact Hw|].
  rewrite for_entries_cons.
  destruct (enrich_entry find_manual find_openregister prompt_and_save
    interactive entry (h, rs)) as [r [h1 rs1]] eqn:E.
  apply enrich_entry_step in E
    as [(_ & -> & -> & ->)|(Hn & [(err & -> & ->)|(-> & v & Hv & ->)])].
  - replace (done ++ entry :: rest) with ((done ++ [entry]) ++ rest) in *
      by (rewrite <- app_assoc; reflexivity).
    apply IH, Hw.
  - exact Hw.
  - assert (written (done ++ entry :: rest) h0
              (alter (insert R.POSTAL_ADDRESS v) entry h)) as Hw'
      by (apply written_step; auto; set_solver).
    replace (done ++ entry :: rest) with ((done ++ [entry]) ++ rest) in *
      by (rewrite <- app_assoc; reflexivity).
    apply IH, Hw'.
Qed.

End EnrichFacts.

Section EnrichRuns.

Context {resolver error : Type}.
Variable find_manual :
  string -> resolver -> (error + option ManualPostalAddress) * resolver.
Variable find_openregister : string -> resolver -> (error + pyval) * resolver.
Variable prompt_and_save : string -> resolver -> (error + pyval) * resolver.

Lemma for_entries_passed_over interactive results h rs :
  Forall (passed_over h) results ->
  for_entries (enrich_entry find_manual find_openregister prompt_and_save
                 interactive) results (h, rs)
  = (inr tt, (h, rs)).
Proof.
  induction 1 as [|entry rest Hp _ IH]; [reflexivity|].
  rewrite for_entries_cons.
  destruct (enrich_entry _ _ _ interactive entry (h, rs)) as [r [h1 rs1]] eqn:E.
  apply enrich_entry_step in E as [(_ & -> & -> & ->)|(Hn & _)];
    [exact IH|contradiction].
Qed.

Lemma has_address_passed_over h entry :
  passed_over h entry ->
  nonblank (field_of h entry R.EMPLOYER_NAME) <> None ->
  has_address h entry.
Proof.
  intros [Hp|Hp] Hc; [contradiction|].
  unfold field_of, dict_get in Hp.
  destruct (deref h entry !! R.POSTAL_ADDRESS) as [v|] eqn:E;
    [|contradiction Hp; reflexivity].
  exists v. split; [exact E|].
  destruct v as [|text|d|r]; try (contradiction Hp; reflexivity).
  right. exists text. split; [reflexivity|exact Hp].
Qed.

Lemma alter_address_company h entry v l :
  field_of (alter (insert R.POSTAL_ADDRESS v) entry h) l R.EMPLOYER_NAME
  = field_of h l R.EMPLOYER_NAME.
Proof.
  unfold field_of, dict_get, deref. destruct (decide (l = entry)) as [->|Hne].
  - rewrite lookup_alter_eq. destruct (h !! entry) as [d|]; [|reflexivity].
    cbn. rewrite lookup_insert_ne by discriminate. reflexivity.
  - rewrite lookup_alter_ne by congruence. reflexivity.
Qed.

Lemma alter_address_has_address h entry v l :
  address_or_none v -> is_Some (h !! l) ->
  l = entry \/ has_address h l ->
  has_address (alter (insert R.POSTAL_ADDRESS v) entry h) l.
Proof.
  intros Hv [d Hd] H. unfold has_address, deref.
  destruct (decide (l = entry)) as [->|Hne].
  - rewrite lookup_alter_eq, Hd. cbn. rewrite lookup_insert_eq. eauto.
  - rewrite lookup_alter_ne by congruence.
    destruct H as [?|H]; [contradiction|exact H].
Qed.

Lemma for_entries_has_address interactive results :
  forall h rs h' rs' entry,
    for_entries (enrich_entry find_manual find_openregister prompt_and_save
                   interactive) results (h, rs)
    = (inr tt, (h', rs')) ->
    entry ∈ results \/ has_address h entry ->
    is_Some (h !! entry) ->
    nonblank (field_of h entry R.EMPLOYER_NAME) <> None ->
    has_address h' entry.
Proof.
  induction results as [|x rest IH]; intros h rs h' rs' entry Hrun Hin Hsome Hc.
  - injection Hrun as <- <-. destruct Hin as [Hin|Hin]; [|exact Hin].
    apply elem_of_nil in Hin. contradiction.
  - rewrite for_entries_cons in Hrun.
    destruct (enrich_entry _ _ _ interactive x (h, rs)) as [r [h1 rs1]] eqn:E.
    apply enrich_entry_step in E
      as [(Hp & -> & -> & ->)|(Hn & [(err & -> & ->)|(-> & v & Hv & ->)])].
    + apply (IH _ _ _ _ _ Hrun); [|exact Hsome|exact Hc].
      destruct Hin as [Hin|Hin]; [|right; exact Hin].
      apply elem_of_cons in Hin as [->|Hin]; [|left; exact Hin].
      right. apply has_address_passed_over; assumption.
    + discriminate.
    + apply (IH _ _ _ _ _ Hrun).
      * destruct Hin as [Hin|Hin].
        -- apply elem_of_cons in Hin as [->|Hin]; [|left; exact Hin].
           right. apply alter_address_has_address; auto.
        -- right. apply alter_address_has_address; auto.
      * destruct Hsome as [d Hd]. destruct (decide (entry = x)) as [->|Hne].
        -- rewrite lookup_alter_eq, Hd. eexists. reflexivity.
        -- rewrite lookup_alter_ne by congruence. eauto.
      * rewrite alter_address_company. exact Hc.
Qed.

Lemma enrich_entry_manual_first fo fo' pr pr' i i' entry s :
  (forall name rs, exists a rs', find_manual name rs = (inr (Some a), rs')) ->
  enrich_entry find_manual fo pr i entry s
  = enrich_entry find_manual fo' pr' i' entry s.
Proof.
  intros Hm. destruct s as [h rs]. rewrite !enrich_entry_eq.
  destruct (nonblank (field_of h entry R.EMPLOYER_NAME)) as [name|];
    [|reflexivity].
  destruct (nonblank (field_of h entry R.POSTAL_ADDRESS)); [reflexivity|].
  destruct (Hm name rs) as (a & rs1 & ->). reflexivity.
Qed.

Lemma for_entries_ext (body body' : loc -> RM resolver error unit) results :
  (forall entry s, body entry s = body' entry s) ->
  forall s, for_entries body results s = for_entries body' results s.
Proof.
  intros Hb. induction results as [|entry rest IH]; intros s; [reflexivity|].
  rewrite !for_entries_cons, Hb.
  destruct (body' entry s) as [[err|[]] s']; [reflexivity|apply IH].
Qed.

End EnrichRuns.

(** X14. The address step writes nothing but addresses, and only where one
    is missing. Whatever the resolver does, and whether or not the step
    ends in an error, every dict is afterwards as it was or is an entry of
    the list that had a company name and no address, with the key of the
    address set to [None] or to a text that is not blank; every other key
    is as it was. *)
Theorem enrich_writes_only_missing_addresses {resolver error : Type}
    (find_manual :
       string -> resolver -> (error + option ManualPostalAddress) * resolver)
    (find_openregister prompt_and_save :
       string -> resolver -> (error + pyval) * resolver)
    (results : list loc) (interactive : bool) (h : heap) (rs : resolver) :
  written results h
    (fst (snd (enrich_missing_addresses find_manual find_openregister
                 prompt_and_save results interactive (h, rs)))).
Proof.
  rewrite enrich_missing_addresses_eq.
  pose proof (for_entries_written find_manual find_openregister
                prompt_and_save results interactive [] h h rs) as Hw.
  cbn [app] in Hw.
  destruct (for_entries _ results (h, rs)) as [[err|[]] [h' rs']];
    apply Hw; intros entry; left; reflexivity.
Qed.

(** X15. Without [interactive] nobody is asked: the step does not depend
    on what [prompt_and_save] of the resolver would do. *)
Theorem enrich_not_interactive_never_prompts {resolver error : Type}
    (find_manual :
       string -> resolver -> (error + option ManualPostalAddress) * resolver)
    (find_openregister prompt_and_save prompt_and_save' :
       string -> resolver -> (error + pyval) * resolver)
    (results : list loc) (s : heap * resolver) :
  enrich_missing_addresses find_manual find_openregister prompt_and_save
    results false s
  = enrich_missing_addresses find_manual find_openregister prompt_and_save'
      results false s.
Proof.
  rewrite !enrich_missing_addresses_eq.
  rewrite (for_entries_ext _
             (enrich_entry find_manual find_openregister prompt_and_save' false));
    [reflexivity|].
  intros entry [h rs]. rewrite !enrich_entry_eq.
  destruct (nonblank (field_of h entry R.EMPLOYER_NAME)) as [name|];
    [|reflexivity].
  destruct (nonblank (field_of h entry R.POSTAL_ADDRESS)); [reflexivity|].
  reflexivity.
Qed.

(** X16. Entries that need nothing cost nothing. Where every entry of the
    list has no company name or has an address, the step returns the list
    without a call of the resolver and without a write. *)
Theorem enrich_complete_entries_no_effect {resolver error : Type}
    (find_manual :
       string -> resolver -> (error + option ManualPostalAddress) * resolver)
    (find_openregister prompt_and_save :
       string -> resolver -> (error + pyval) * resolver)
    (results : list loc) (interactive : bool) (h : heap) (rs : resolver) :
  Forall (passed_over h) results ->
  enrich_missing_addresses find_manual find_openregister prompt_and_save
    results interactive (h, rs)
  = (inr results, (h, rs)).
Proof.
  intros Hp. rewrite enrich_missing_addresses_eq.
  rewrite for_entries_passed_over by exact Hp. reflexivity.
Qed.

(** X17. After a step that ends without an error the same list is
    returned, and every entry of it that had a company name has the key
    of the address, with [None] or a text that is not blank. *)
Theorem enrich_leaves_address_or_none {resolver error : Type}
    (find_manual :
       string -> resolver -> (error + option ManualPostalAddress) * resolver)
    (find_openregister prompt_and_save :
       string -> resolver -> (error + pyval) * resolver)
    (results out : list loc) (interactive : bool) (h h' : heap)
    (rs rs' : resolver) (entry : loc) :
  enrich_missing_addresses find_manual find_openregister prompt_and_save
    results interactive (h, rs) = (inr out, (h', rs')) ->
  entry ∈ results ->
  is_Some (h !! entry) ->
  nonblank (field_of h entry R.EMPLOYER_NAME) <> None ->
  out = results /\ has_address h' entry.
Proof.
  rewrite enrich_missing_addresses_eq. intros Hrun Hin Hsome Hc.
  destruct (for_entries _ results (h, rs)) as [[err|[]] [h1 rs1]] eqn:E;
    [discriminate|].
  injection Hrun as <- <- <-. split; [reflexivity|].
  eapply for_entries_has_address; eauto.
Qed.

(** X18. The manual database comes first. With a resolver whose
    [find_manual] has an address for every name, the step depends neither
    on [find_openregister] nor on [prompt_and_save] nor on
    [interactive]. *)
Theorem enrich_manual_address_first {resolver error : Type}
    (find_manual :
       string -> resolver -> (error + option ManualPostalAddress) * resolver)
    (find_openregister prompt_and_save find_openregister' prompt_and_save' :
       string -> resolver -> (error + pyval) * resolver)
    (results : list loc) (interactive interactive' : bool)
    (s : heap * resolver) :
  (forall name rs, exists a rs', find_manual name rs = (inr (Some a), rs')) ->
  enrich_missing_addresses find_manual find_openregister prompt_and_save
    results interactive s
  = enrich_missing_addresses find_manual find_openregister' prompt_and_save'
      results interactive' s.
Proof.
  intros Hm. rewrite !enrich_missing_addresses_eq.
  rewrite (for_entries_ext _
             (enrich_entry find_manual find_openregister' prompt_and_save'
                interactive')); [reflexivity|].
  intros entry s'. apply enrich_entry_manual_first, Hm.
Qed.

Lemma enrich_complete_entries_no_effect_witness :
  Forall (passed_over sample_entries) [1; 2]%nat /\
  enrich_missing_addresses lines_find_manual lines_find_openregister
    lines_prompt_and_save [1; 2]%nat true (sample_entries, ["Main St 2"])
  = (inr [1; 2]%nat, (sample_entries, ["Main St 2"])).
Proof.
  assert (Forall (passed_over sample_entries) [1; 2]%nat) as H.
  { constructor; [right; vm_compute; discriminate|].
    constructor; [left; vm_compute; reflexivity|]. constructor. }
  split; [exact H|].
  exact (enrich_complete_entries_no_effect lines_find_manual
           lines_find_openregister lines_prompt_and_save _ true _ _ H).
Defined.

Lemma enrich_leaves_address_or_none_witness :
  enrich_missing_addresses lines_find_manual lines_find_openregister
    lines_prompt_and_save [0; 1; 2]%nat true
    (sample_entries, ["Main St 2"; "54321"; "Bonn"])
  = (inr [0; 1; 2]%nat,
     (alter (insert R.POSTAL_ADDRESS (VStr "Main St 2, 54321 Bonn")) 0%nat
        sample_entries, [])) /\
  0%nat ∈ [0; 1; 2]%nat /\
  is_Some (sample_entries !! 0%nat) /\
  nonblank (field_of sample_entries 0%nat R.EMPLOYER_NAME) <> None /\
  [0; 1; 2]%nat = [0; 1; 2]%nat /\
  has_address
    (alter (insert R.POSTAL_ADDRESS (VStr "Main St 2, 54321 Bonn")) 0%nat
       sample_entries) 0%nat.
Proof.
  assert (enrich_missing_addresses lines_find_manual lines_find_openregister
            lines_prompt_and_save [0; 1; 2]%nat true
            (sample_entries, ["Main St 2"; "54321"; "Bonn"])
          = (inr [0; 1; 2]%nat,
             (alter (insert R.POSTAL_ADDRESS (VStr "Main St 2, 54321 Bonn"))
                0%nat sample_entries, []))) as Hrun
    by (vm_compute; reflexivity).
  assert (0%nat ∈ [0; 1; 2]%nat) as Hin by (apply elem_of_cons; left; reflexivity).
  assert (is_Some (sample_entries !! 0%nat)) as Hsome
    by (eexists; vm_compute; reflexivity).
  assert (nonblank (field_of sample_entries 0%nat R.EMPLOYER_NAME) <> None)
    as Hc by (vm_compute; discriminate).
  split; [exact Hrun|]. split; [exact Hin|]. split; [exact Hsome|].
  split; [exact Hc|].
  exact (enrich_leaves_address_or_none _ _ _ _ _ _ _ _ _ _ _
           Hrun Hin Hsome Hc).
Defined.

Lemma enrich_manual_address_first_witness :
  (forall name rs, exists a rs',
      one_address_find_manual name rs = (inr (Some a), rs')) /\
  enrich_missing_addresses one_address_find_manual lines_find_openregister
    lines_prompt_and_save [0; 1; 2]%nat true (sample_entries, [])
  = enrich_missing_addresses one_address_find_manual
      (fun _ lines => (inl tt, lines)) (fun _ lines => (inl tt, lines))
      [0; 1; 2]%nat false (sample_entries, []).
Proof.
  assert (forall name rs, exists a rs',
             one_address_find_manual name rs = (inr (Some a), rs')) as Hm
    by (intros name rs; eexists; eexists; reflexivity).
  split; [exact Hm|].
  exact (enrich_manual_address_first one_address_find_manual _ _ _ _ _ _ _ _ Hm).
Defined.

(** ** The pages of the table *)

Lemma write_pages_pages {A} (results : list A) fuel :
  forall index part,
    (length results <= index + fuel)%nat ->
    exists pages,
      write_pages fuel results index part = Some pages /\
      (length pages = (length results - index + 5) / 6)%nat /\
      forall q, (q < length pages)%nat ->
        pages !! q = Some (page_of results (index + 6 * q) (part + q)).
Proof.
  induction fuel as [|fuel IH]; intros index part Hfuel.
  - exists []. simpl. rewrite decide_False by lia. split; [reflexivity|].
    split; [|intros q Hq; simpl in Hq; lia].
    replace (length results - index + 5)%nat with 5%nat by lia. reflexivity.
  - cbn [write_pages]. destruct (decide (index < length results)%nat) as [Hlt|Hge].
    + assert (length (take chunk_size (drop index results))
              = Nat.min 6 (length results - index)) as Hchunk
        by (rewrite length_take, length_drop; reflexivity).
      rewrite Hchunk.
      destruct (IH (index + Nat.min 6 (length results - index))%nat
                  (part + 1)%nat ltac:(lia)) as (pages & -> & Hlen & Hq).
      exists (page_of results index part :: pages).
      split; [reflexivity|]. split.
      * cbn [length]. rewrite Hlen.
        destruct (decide (6 <= length results - index)%nat) as [H6|H6].
        -- rewrite Nat.min_l by lia.
           replace (length results - index + 5)%nat
             with (1 * 6 + (length results - (index + 6) + 5))%nat by lia.
           rewrite Nat.div_add_l by lia. lia.
        -- rewrite Nat.min_r by lia.
           replace (length results - (index + (length results - index)) + 5)%nat
             with 5%nat by lia.
           change (5 / 6)%nat with 0%nat.
           apply (Nat.div_unique _ 6 1 (length results - index - 1)); lia.
      * intros [|q] Hql.
        -- rewrite Nat.mul_0_r, !Nat.add_0_r. reflexivity.
        -- cbn [length] in Hql.
           change ((page_of results index part :: pages) !! S q)
             with (pages !! q).
           rewrite (Hq q) by lia.
           assert (0 < length pages)%nat as Hpos by lia.
           assert (6 <= length results - index)%nat as H6.
           { destruct (decide (6 <= length results - index)%nat); [assumption|].
             exfalso. rewrite Nat.min_r in Hlen by lia.
             replace (length results - (index + (length results - index)) + 5)%nat
               with 5%nat in Hlen by lia.
             change (5 / 6)%nat with 0%nat in Hlen. lia. }
           rewrite Nat.min_l by lia. do 2 f_equal; lia.
    + exists []. split; [reflexivity|].
      split; [|intros q Hq; simpl in Hq; lia].
      replace (length results - index + 5)%nat with 5%nat by lia. reflexivity.
Qed.

Lemma write_results_to_excels_eq {A} fuel (results : list A) :
  write_results_to_excels fuel results = write_pages fuel results 0 1.
Proof. destruct results, fuel; reflexivity. Qed.

Lemma lookup_all_fmap_seq {B} (f : nat -> B) (l : list B) :
  (forall q, (q < length l)%nat -> l !! q = Some (f q)) ->
  l = f <$> seq 0 (length l).
Proof.
  intros H. apply list_eq. intros q.
  destruct (decide (q < length l)%nat) as [Hq|Hq].
  - rewrite H by exact Hq. rewrite list_lookup_fmap, lookup_seq_lt by exact Hq.
    reflexivity.
  - rewrite lookup_ge_None_2 by lia. symmetry. apply lookup_ge_None_2.
    rewrite length_fmap, length_seq. lia.
Qed.

Lemma chunks_concat {A} (results : list A) n :
  concat ((fun q => take 6 (drop (6 * q) results)) <$> seq 0 n)
  = take (6 * n) results.
Proof.
  induction n as [|n IH]; [rewrite Nat.mul_0_r; reflexivity|].
  rewrite (seq_S n 0), fmap_app, concat_app, IH. cbn [fmap list_fmap concat].
  rewrite app_nil_r, take_take_drop. f_equal. lia.
Qed.

Lemma numbers_concat n :
  concat ((fun q => (fun j => (q * 6 + j + 1)%nat) <$> seq 0 6) <$> seq 0 n)
  = seq 1 (6 * n).
Proof.
  induction n as [|n IH]; [reflexivity|].
  rewrite (seq_S n 0), fmap_app, concat_app, IH.
  replace (6 * S n)%nat with (6 * n + 6)%nat by lia.
  rewrite seq_app. f_equal. cbn [fmap list_fmap concat seq Nat.add].
  rewrite app_nil_r. repeat (f_equal; try lia).
Qed.

Lemma pages_bound n k : (k < n)%nat -> (k / 6 < (n + 5) / 6)%nat.
Proof.
  intros Hk. apply Nat.Div0.div_lt_upper_bound.
  pose proof (Nat.div_mod (n + 5) 6 ltac:(lia)) as H1.
  pose proof (Nat.mod_upper_bound (n + 5) 6 ltac:(lia)) as H2.
  lia.
Qed.

(** X19. The pages of the table. With fuel for one pass for each entry the
    loop ends, with one page for every six entries begun and none for no
    entries. The parts are numbered from 1. The entries of the pages, read
    page after page, are the results in their order; the numbers of
    column A, read page after page, count from 1 to six times the number
    of pages, whether or not the last page is full. *)
Theorem write_results_to_excels_pages {A} (fuel : nat) (results : list A) :
  (length results <= fuel)%nat ->
  exists pages,
    write_results_to_excels fuel results = Some pages /\
    (length pages = (length results + 5) / 6)%nat /\
    (pg_part <$> pages = seq 1 (length pages)) /\
    (concat ((fun pg => snd <$> pg_entries pg) <$> pages) = results) /\
    (concat ((fun pg => snd <$> pg_numbers pg) <$> pages)
     = seq 1 (chunk_size * length pages)).
Proof.
  intros Hfuel. rewrite write_results_to_excels_eq.
  destruct (write_pages_pages results fuel 0 1 ltac:(lia))
    as (pages & Hrun & Hlen & Hq).
  rewrite Nat.sub_0_r in Hlen.
  exists pages. split; [exact Hrun|]. split; [exact Hlen|].
  apply lookup_all_fmap_seq in Hq. cbn [Nat.add] in Hq.
  set (n := length pages) in *. rewrite Hq. rewrite <- !list_fmap_compose.
  split; [|split].
  - change (seq 1 n) with (seq (1 + 0) n). rewrite <- fmap_add_seq.
    apply list_fmap_ext. intros _ q _. reflexivity.
  - erewrite list_fmap_ext; [rewrite (chunks_concat results n)|].
    + apply take_ge.
      pose proof (Nat.div_mod (length results + 5) 6 ltac:(lia)) as H1.
      pose proof (Nat.mod_upper_bound (length results + 5) 6 ltac:(lia)) as H2.
      lia.
    + intros _ q _. cbn [compose page_of pg_entries].
      rewrite <- list_fmap_compose.
      erewrite list_fmap_ext; [apply enumerate_from_snd|].
      intros _ [i x] _. reflexivity.
  - erewrite list_fmap_ext; [apply (numbers_concat n)|].
    intros _ q _. cbn [compose page_of pg_numbers].
    rewrite <- list_fmap_compose. apply list_fmap_ext.
    intros _ j _. cbn [compose snd]. lia.
Qed.

(** X20. The place of an entry in the table. The entry at position [k] of
    the results, counting from 0, is on the page of part [k / 6 + 1], in
    the row [7 + 3 * (k mod 6)], and the number in column A of that row is
    [k + 1]. *)
Theorem write_results_to_excels_position {A} (fuel : nat) (results : list A)
    (k : nat) (entry : A) :
  (length results <= fuel)%nat ->
  results !! k = Some entry ->
  exists pages pg,
    write_results_to_excels fuel results = Some pages /\
    pages !! (k / chunk_size)%nat = Some pg /\
    pg_part pg = (k / chunk_size + 1)%nat /\
    ((base_row + k mod chunk_size * 3)%nat, entry) ∈ pg_entries pg /\
    ((base_row + k mod chunk_size * 3)%nat, (k + 1)%nat) ∈ pg_numbers pg.
Proof.
  intros Hfuel Hk. rewrite write_results_to_excels_eq.
  destruct (write_pages_pages results fuel 0 1 ltac:(lia))
    as (pages & Hrun & Hlen & Hq).
  rewrite Nat.sub_0_r in Hlen.
  pose proof (lookup_lt_Some _ _ _ Hk) as Hlt.
  unfold chunk_size, base_row.
  pose proof (Nat.div_mod k 6 ltac:(lia)) as Hdiv.
  pose proof (Nat.mod_upper_bound k 6 ltac:(lia)) as Hmod.
  exists pages, (page_of results (6 * (k / 6)) (1 + k / 6)).
  split; [exact Hrun|]. split.
  { rewrite (Hq (k / 6)%nat) by (rewrite Hlen; apply pages_bound, Hlt).
    reflexivity. }
  split; [cbn [page_of pg_part]; lia|].
  cbn [page_of pg_entries pg_numbers]. unfold chunk_size, base_row. split.
  - apply (list_elem_of_fmap_2
             (fun ie : nat * A => ((7 + fst ie * 3)%nat, snd ie))
             _ ((k mod 6)%nat, entry)).
    apply (enumerate_from_lookup 0).
    rewrite lookup_take_lt by exact Hmod. rewrite lookup_drop.
    etrans; [|exact Hk]. f_equal. symmetry. exact Hdiv.
  - replace (k + 1)%nat with (6 * (k / 6) + k mod 6 + 1)%nat by lia.
    apply (list_elem_of_fmap_2
             (fun j => ((7 + j * 3)%nat, (6 * (k / 6) + j + 1)%nat))).
    apply elem_of_seq. lia.
Qed.

Lemma write_results_to_excels_pages_witness :
  (length ["a"; "b"; "c"; "d"; "e"; "f"; "g"] <= 7)%nat /\
  exists pages,
    write_results_to_excels 7 ["a"; "b"; "c"; "d"; "e"; "f"; "g"] = Some pages /\
    (length pages = (length ["a"; "b"; "c"; "d"; "e"; "f"; "g"] + 5) / 6)%nat /\
    (pg_part <$> pages = seq 1 (length pages)) /\
    (concat ((fun pg => snd <$> pg_entries pg) <$> pages)
     = ["a"; "b"; "c"; "d"; "e"; "f"; "g"]) /\
    (concat ((fun pg => snd <$> pg_numbers pg) <$> pages)
     = seq 1 (chunk_size * length pages)).
Proof.
  assert (length ["a"; "b"; "c"; "d"; "e"; "f"; "g"] <= 7)%nat as H
    by (vm_compute; lia).
  split; [exact H|].
  exact (write_results_to_excels_pages 7 _ H).
Defined.

Lemma write_results_to_excels_position_witness :
  (length ["a"; "b"; "c"; "d"; "e"; "f"; "g"] <= 7)%nat /\
  ["a"; "b"; "c"; "d"; "e"; "f"; "g"] !! 6%nat = Some "g" /\
  exists pages pg,
    write_results_to_excels 7 ["a"; "b"; "c"; "d"; "e"; "f"; "g"] = Some pages /\
    pages !! 1%nat = Some pg /\
    pg_part pg = 2%nat /\
    (7%nat, "g") ∈ pg_entries pg /\
    (7%nat, 7%nat) ∈ pg_numbers pg.
Proof.
  assert (length ["a"; "b"; "c"; "d"; "e"; "f"; "g"] <= 7)%nat as H
    by (vm_compute; lia).
  assert (["a"; "b"; "c"; "d"; "e"; "f"; "g"] !! 6%nat = Some "g") as Hk
    by reflexivity.
  split; [exact H|]. split; [exact Hk|].
  exact (write_results_to_excels_position 7 _ 6 "g" H Hk).
Defined.

(** ** The resolver *)

Lemma first_char_app s t :
  s <> EmptyString -> PyStr.first_char (s +:+ t) = PyStr.first_char s.
Proof. destruct s; [congruence|reflexivity]. Qed.

Lemma append_nonempty_r s t : t <> EmptyString -> s +:+ t <> EmptyString.
Proof. destruct s; [trivial|discriminate]. Qed.

Lemma one_line_trimmed street postal_code city :
  street <> EmptyString -> PyStr.trimmed street ->
  city <> EmptyString -> PyStr.trimmed city ->
  nonblank (VStr (street +:+ ", " +:+ postal_code +:+ " " +:+ city))
  = Some (street +:+ ", " +:+ postal_code +:+ " " +:+ city).
Proof.
  intros Hs [Hsf _] Hc [_ Hcl].
  set (text := street +:+ ", " +:+ postal_code +:+ " " +:+ city).
  assert (PyStr.trimmed text) as Ht.
  { split; intros c; unfold text.
    - rewrite first_char_app by exact Hs. apply Hsf.
    - rewrite !last_char_app by (repeat apply append_nonempty_r; exact Hc).
      apply Hcl. }
  unfold nonblank. rewrite strip_trimmed_fixed by exact Ht.
  unfold or_none. destruct text eqn:E; [|reflexivity].
  unfold text in E. destruct street; [congruence|discriminate].
Qed.

Lemma console_print {db E} text (w : world) (d : db) :
  console (E := E) (print text) (w, d)
  = (inr tt, (mk_world (w_heap w) (w_stdin w)
                (w_stdout w ++ [text +:+ newline]), d)).
Proof. reflexivity. Qed.

Lemma console_input {db E} prompt (w : world) (d : db) :
  console (E := E) (input prompt) (w, d)
  = match w_stdin w with
    | [] => (inl (ConsoleError EOFError),
             (mk_world (w_heap w) [] (w_stdout w ++ [prompt]), d))
    | line :: rest =>
        (inr line, (mk_world (w_heap w) rest (w_stdout w ++ [prompt]), d))
    end.
Proof. unfold console, input. cbn [fst snd]. destruct (w_stdin w); reflexivity. Qed.

Lemma write_manual_console {db E}
    (update_manual : string -> string -> string -> string -> db -> (E + nat) * db)
    (insert_manual : string -> string -> string -> string -> db -> (E + unit) * db)
    (commit : db -> (E + unit) * db) name street postal_code city w d :
  fst (snd (write_manual update_manual insert_manual commit
              name street postal_code city (w, d))) = w.
Proof.
  unfold write_manual, mbind, AR_bind, database, mret, AR_ret. cbn [fst snd].
  destruct (update_manual street postal_code city name d) as [[e|rowcount] d1];
    [reflexivity|]. cbn [fst snd].
  destruct (decide (rowcount = 0%nat)); cbn [fst snd].
  - destruct (insert_manual name street postal_code city d1) as [[e1|[]] d2];
      [reflexivity|]. cbn [fst snd].
    destruct (commit d2) as [[e2|[]] d3]; reflexivity.
  - destruct (commit d1) as [[e3|[]] d3]; reflexivity.
Qed.

Lemma save_manual_stripped {db E}
    (update_manual : string -> string -> string -> string -> db -> (E + nat) * db)
    (insert_manual : string -> string -> string -> string -> db -> (E + unit) * db)
    (commit : db -> (E + unit) * db) name street postal_code city :
  PyStr.is_empty (PyStr.strip name) = false ->
  PyStr.is_empty (PyStr.strip street) = false ->
  PyStr.is_empty (PyStr.strip postal_code) = false ->
  PyStr.is_empty (PyStr.strip city) = false ->
  save_manual update_manual insert_manual commit
    (PyStr.strip name) (PyStr.strip street) (PyStr.strip postal_code)
    (PyStr.strip city)
  = write_manual update_manual insert_manual commit
      (PyStr.strip name) (PyStr.strip street) (PyStr.strip postal_code)
      (PyStr.strip city).
Proof.
  intros Hn Hs Hp Hc. unfold save_manual. rewrite !strip_idem, Hn, Hs, Hp, Hc.
  reflexivity.
Qed.

Lemma write_manual_error {db E}
    (update_manual : string -> string -> string -> string -> db -> (E + nat) * db)
    (insert_manual : string -> string -> string -> string -> db -> (E + unit) * db)
    (commit : db -> (E + unit) * db) name street postal_code city s err s' :
  write_manual update_manual insert_manual commit
    name street postal_code city s = (inl err, s') ->
  exists e, err = DatabaseError e.
Proof.
  unfold write_manual, mbind, AR_bind, database, mret, AR_ret.
  destruct (update_manual street postal_code city name (snd s))
    as [[e|rowcount] d1]; [intros [= <- _]; eauto|]. cbn [fst snd].
  destruct (decide (rowcount = 0%nat)); cbn [fst snd].
  - destruct (insert_manual name street postal_code city d1) as [[e1|[]] d2];
      [intros [= <- _]; eauto|]. cbn [fst snd].
    destruct (commit d2) as [[e2|[]] d3]; [intros [= <- _]; eauto|discriminate].
  - destruct (commit d1) as [[e3|[]] d3]; [intros [= <- _]; eauto|discriminate].
Qed.

(** X21. [prompt_and_save] saves what it returns. It returns an address
    only when three lines were read and the database has taken them,
    stripped, under the stripped name, by the write of [save_manual],
    whose guard does not hold it back; the address returned is the
    one-line form of that row, and it is trimmed, so that stripping it
    again changes nothing. When [None] is returned, or the input ends,
    the database is as it was; an error of the database comes from that
    write. The dicts are never touched. *)
Theorem prompt_and_save_saves_what_it_returns {db E : Type}
    (update_manual : string -> string -> string -> string -> db -> (E + nat) * db)
    (insert_manual : string -> string -> string -> string -> db -> (E + unit) * db)
    (commit : db -> (E + unit) * db)
    (company_name : string) (w : world) (d : db) :
  let '(r, (w', d')) :=
    prompt_and_save update_manual insert_manual commit company_name (w, d) in
  w_heap w' = w_heap w /\
  prompt_outcome update_manual insert_manual commit company_name w d r w' d'.
Proof.
  unfold prompt_and_save.
  destruct (PyStr.is_empty (PyStr.strip company_name)) eqn:En;
    [split; [reflexivity|split; reflexivity]|].
  unfold mbind at 1 2 3. unfold AR_bind at 1 2 3. rewrite !console_print.
  cbn [w_heap w_stdin w_stdout].
  match goal with |- context [mk_world _ _ ?o] => generalize o end. intros out.
  unfold mbind at 1. unfold AR_bind at 1. rewrite console_input.
  cbn [w_heap w_stdin w_stdout].
  destruct (w_stdin w) as [|street rest1] eqn:E1;
    [split; [reflexivity|repeat split; reflexivity]|].
  destruct (PyStr.is_empty (PyStr.strip street)) eqn:Es;
    [split; [reflexivity|split; reflexivity]|].
  unfold mbind at 1. unfold AR_bind at 1. rewrite console_input.
  cbn [w_heap w_stdin w_stdout].
  destruct rest1 as [|postal_code rest2];
    [split; [reflexivity|repeat split; reflexivity]|].
  destruct (PyStr.is_empty (PyStr.strip postal_code)) eqn:Ep;
    [split; [reflexivity|split; reflexivity]|].
  unfold mbind at 1. unfold AR_bind at 1. rewrite console_input.
  cbn [w_heap w_stdin w_stdout].
  destruct rest2 as [|city rest3];
    [split; [reflexivity|repeat split; reflexivity]|].
  destruct (PyStr.is_empty (PyStr.strip city)) eqn:Ec;
    [split; [reflexivity|split; reflexivity]|].
  unfold mbind at 1. unfold AR_bind at 1.
  rewrite save_manual_stripped by assumption.
  match goal with |- context [write_manual _ _ _ _ _ _ _ (?w3, d)] =>
    set (w' := w3) end.
  pose proof (write_manual_console update_manual insert_manual commit
                (PyStr.strip company_name) (PyStr.strip street)
                (PyStr.strip postal_code) (PyStr.strip city) w' d) as Hw.
  destruct (write_manual update_manual insert_manual commit
              (PyStr.strip company_name) (PyStr.strip street)
              (PyStr.strip postal_code) (PyStr.strip city) (w', d))
    as [[err|[]] [w'' d']] eqn:Erun; cbn [fst snd] in Hw; subst w''.
  - destruct (write_manual_error _ _ _ _ _ _ _ _ _ _ Erun) as [e ->].
    split; [reflexivity|]. exists street, postal_code, city.
    split; [exact E1|exact Erun].
  - split; [reflexivity|]. exists street, postal_code, city.
    split; [exact E1|]. split; [reflexivity|]. split; [|exact Erun].
    apply one_line_trimmed; try apply strip_trimmed;
      intros H; rewrite H in *; discriminate.
Qed.

(** X22. A blank name reaches neither the databases nor the console:
    [find_manual], [find_openregister] and [prompt_and_save] give [None]
    for it and leave everything as it was, and [save_manual] does nothing
    where the name or a part of the address is blank. *)
Theorem resolver_blank_name_no_effect {db E : Type}
    (select_manual : string -> db -> (E + option ManualPostalAddress) * db)
    (update_manual : string -> string -> string -> string -> db -> (E + nat) * db)
    (insert_manual : string -> string -> string -> string -> db -> (E + unit) * db)
    (commit : db -> (E + unit) * db)
    (select_openregister : string -> db -> (E + option pyval) * db)
    (company_name street postal_code city : string) (s : world * db) :
  blank company_name = true ->
  find_manual select_manual company_name s = (inr None, s) /\
  find_openregister select_openregister company_name s = (inr VNone, s) /\
  prompt_and_save update_manual insert_manual commit company_name s
  = (inr VNone, s) /\
  save_manual update_manual insert_manual commit
    company_name street postal_code city s = (inr tt, s) /\
  (blank street || blank postal_code || blank city = true ->
   forall name,
     save_manual update_manual insert_manual commit
       name street postal_code city s = (inr tt, s)).
Proof.
  intros Hb. apply blank_strip_empty in Hb.
  unfold find_manual, find_openregister, prompt_and_save, save_manual.
  rewrite Hb. cbn [PyStr.is_empty orb].
  repeat (split; [reflexivity|]).
  intros Hp name.
  apply orb_true_iff in Hp as [Hp|Hp];
    [apply orb_true_iff in Hp as [Hp|Hp]|];
    apply blank_strip_empty in Hp; rewrite Hp; cbn [PyStr.is_empty];
    rewrite ?orb_true_r; cbn [orb]; reflexivity.
Qed.

Lemma resolver_blank_name_no_effect_witness :
  blank "  " = true /\
  prompt_and_save (fun _ _ _ _ (d : unit) => (inl tt : unit + nat, d))
    (fun _ _ _ _ d => (inl tt, d)) (fun d => (inl tt, d)) "  "
    (world_of [] ["Main St 1"], tt)
  = (inr VNone, (world_of [] ["Main St 1"], tt)).
Proof.
  assert (blank "  " = true) as H by reflexivity.
  split; [exact H|].
  exact (proj1 (proj2 (proj2
    (resolver_blank_name_no_effect (fun _ d => (inl tt, d))
       (fun _ _ _ _ (d : unit) => (inl tt : unit + nat, d))
       (fun _ _ _ _ d => (inl tt, d)) (fun d => (inl tt, d))
       (fun _ d => (inl tt, d)) "  " "a" "b" "c"
       (world_of [] ["Main St 1"], tt) H)))).
Defined.
